(** * sqlvet: the JSON-AST SQL validator (pkg/vet)

    A shallow embedding of [pkg/vet/astjson.go] and of the parts of
    [pkg/vet/vet.go] it calls, followed by the properties of the
    validator that the specification states.

    Conventions of the embedding.
    - A Go [any] produced by [encoding/json] is the inductive [any];
      a [map[string]any] is an association list (the parser emits no
      duplicate keys), and a nil map or nil slice is [None].
    - The two [map[string]schema.Table] of a [VetContext] are reference
      values in Go: every copy of the context shares them.  The model
      threads the context as the state of a state-and-error monad, so a
      write to [ctx.InnerSchema.Tables] is seen by every later reader.
    - A callee never changes the [UsedTables] of the context it is given
      (lemma [walker_sat]), so the state is at every point the [ctx] of
      the Go function that runs.
    - Recursion over the AST is by fuel; [OutOfFuel] is a result of its
      own and never stands for a value or an error of the program.  More
      fuel never changes a result ([fuel_monotone]) and twice the depth
      of the tree is enough ([fuel_enough]).
    - Values returned next to a non-nil [error] are dropped: every caller
      in the package returns at once when [err != nil].
    - Field names that Go scopes by type carry the type's name where two
      records share them ([TableUsed_Name], [ParseResult_Tables]); the
      field [Schema] of [VetContext] is [ctxSchema]. *)

From Stdlib Require Import ZArith List String Lia Bool Sorted.
From stdpp Require Import gmap strings list fin_maps.

Import ListNotations.
Local Open Scope string_scope.
Local Open Scope list_scope.

Set Warnings "-register-all".

(** ** The loosely typed JSON tree *)

Inductive any : Type :=
| ANil                                   (* JSON null, or an absent entry *)
| ABool (b : bool)
| ANum (z : Z)                           (* float64; the parser emits integers *)
| AStr (s : string)
| AList (l : list any)                   (* []any, never nil after Unmarshal *)
| AMap (m : list (string * any)).        (* map[string]any, never nil after Unmarshal *)

(** [type jsonNode map[string]any]; [None] is the nil map. *)
Definition jsonNode : Type := option (list (string * any)).

(** A [[]any]; [None] is the nil slice. *)
Definition slice : Type := option (list any).

(** [range s] and [len(s)] treat the nil slice as the empty one. *)
Definition elems (s : slice) : list any :=
  match s with Some l => l | None => [] end.

Definition len {A} (l : list A) : nat := length l.

Definition nonempty {A} (l : list A) : bool :=
  match l with [] => false | _ :: _ => true end.

Fixpoint assoc (k : string) (m : list (string * any)) : option any :=
  match m with
  | [] => None
  | (k', v) :: m' => if String.eqb k' k then Some v else assoc k m'
  end.

(** [v, ok := m[k]] *)
Definition index_ok (m : jsonNode) (k : string) : option any :=
  match m with Some kvs => assoc k kvs | None => None end.

(** [m[k]]: the zero value of [any] (nil) when the key is absent. *)
Definition index (m : jsonNode) (k : string) : any :=
  match index_ok m k with Some v => v | None => ANil end.

(** Go's conversion [int32(num)] of an integral float64, with the
    wrap-around of a 32-bit signed integer (the locations and parameter
    numbers of the parser are in range, where the conversion is the
    identity). *)
Definition int32 (z : Z) : Z := ((z + 2^31) mod 2^32 - 2^31)%Z.

Definition getStringField (obj : jsonNode) (key : string) : string :=
  match index_ok obj key with
  | Some (AStr s) => s
  | _ => ""
  end.

Definition getNumberField (obj : jsonNode) (key : string) : Z :=
  match obj with
  | None => 0%Z
  | Some _ =>
      match index_ok obj key with
      | Some (ANum num) => int32 num
      | _ => 0%Z
      end
  end.

Definition getBoolField (obj : jsonNode) (key : string) : bool :=
  match obj with
  | None => false
  | Some _ =>
      match index_ok obj key with
      | Some (ABool b) => b
      | _ => false
      end
  end.

Definition asNode (v : any) : jsonNode :=
  match v with AMap m => Some m | _ => None end.

Definition asList (v : any) : slice :=
  match v with AList a => Some a | _ => None end.

Fixpoint jNode (m : jsonNode) (keys : list string) : jsonNode :=
  match keys with
  | [] => None
  | k :: keys' =>
      match asNode (index m k) with
      | Some n => Some n
      | None => jNode m keys'
      end
  end.

Fixpoint jList (m : jsonNode) (keys : list string) : slice :=
  match keys with
  | [] => None
  | k :: keys' =>
      match asList (index m k) with
      | Some l => Some l
      | None => jList m keys'
      end
  end.

Definition getRelationRangeVar (m : jsonNode) : jsonNode :=
  match asNode (index m "RangeVar") with
  | Some rv => Some rv
  | None => m
  end.

(** [nodeType] returns the first entry that [range n] yields.  A node
    wrapper has one key; for a map with several keys Go's iteration
    order is unspecified and the model takes the first of the list. *)
Definition nodeType (n : jsonNode) : string * jsonNode :=
  match n with
  | Some ((k, v) :: _) => (k, asNode v)
  | _ => ("", None)
  end.

(** ** Schema and result records *)

(** Modelled from the spec: the declarations of [schema.Column] and
    [schema.Table] (package [pkg/schema]) are not among the sources; the
    fields are the ones the code reads and writes.  A nil [Columns] map is
    only ever read, so it is the empty map here. *)
Record Column : Type := { Column_Name : string; Column_Type : string }.

Record Table : Type :=
  { Table_Name : string;
    Table_Columns : gmap string Column;
    Table_ReadOnly : bool }.

(** [type Schema struct { Tables map[string]schema.Table }]; [None] is
    the nil map. *)
Record Schema : Type := { Tables : option (gmap string Table) }.

Record TableUsed : Type := { TableUsed_Name : string; TableUsed_Alias : string }.

Record ColumnUsed : Type :=
  { ColumnUsed_Column : string; ColumnUsed_Table : string; ColumnUsed_Location : Z }.

Record QueryParam : Type := { Number : Z }.

Record VetContext : Type :=
  { ctxSchema : Schema;
    InnerSchema : Schema;
    UsedTables : list TableUsed }.

Definition NewContext (tables : option (gmap string Table)) : VetContext :=
  {| ctxSchema := {| Tables := tables |};
     InnerSchema := {| Tables := Some ∅ |};
     UsedTables := [] |}.

(** [PostponedNodes] is a pointer to a struct holding one slice. *)
Record ParseResult : Type :=
  { Columns : list ColumnUsed;
    ParseResult_Tables : list TableUsed;
    Params : list QueryParam;
    PostponedNodes : option (list any) }.

Definition emptyParseResult : ParseResult :=
  {| Columns := []; ParseResult_Tables := []; Params := []; PostponedNodes := None |}.

Definition setColumns (re : ParseResult) (c : list ColumnUsed) : ParseResult :=
  {| Columns := c; ParseResult_Tables := ParseResult_Tables re;
     Params := Params re; PostponedNodes := PostponedNodes re |}.

Definition setTables (re : ParseResult) (t : list TableUsed) : ParseResult :=
  {| Columns := Columns re; ParseResult_Tables := t;
     Params := Params re; PostponedNodes := PostponedNodes re |}.

Definition setParams (re : ParseResult) (p : list QueryParam) : ParseResult :=
  {| Columns := Columns re; ParseResult_Tables := ParseResult_Tables re;
     Params := p; PostponedNodes := PostponedNodes re |}.

Definition setPostponedNodes (re : ParseResult) (p : option (list any)) : ParseResult :=
  {| Columns := Columns re; ParseResult_Tables := ParseResult_Tables re;
     Params := Params re; PostponedNodes := p |}.

(** ** The parameter collector *)

(** The loop of [AddQueryParam]: stop at an equal number, insert before
    the first greater one, append at the end otherwise. *)
Fixpoint AddQueryParam (target : list QueryParam) (param : QueryParam) : list QueryParam :=
  match target with
  | [] => [param]
  | p :: rest =>
      if (Number p =? Number param)%Z then p :: rest
      else if (Number p >? Number param)%Z then param :: p :: rest
      else p :: AddQueryParam rest param
  end.

Definition AddQueryParams (target params : list QueryParam) : list QueryParam :=
  fold_left AddQueryParam params target.

(** ** Errors and results *)

(** One constructor per message the package builds with [errors.New] or
    [fmt.Errorf]; a wrapping format ([%w]) keeps the wrapped error. *)
Inductive error : Type :=
| EmptyStatement                           (* "empty statement" *)
| MultipleStatements                       (* "query contained more than one statement" *)
| UnsupportedStatement (kind : string)     (* "unsupported statement: %s" *)
| InvalidTable (tname : string)            (* "invalid table name: %s" *)
| ReadOnlyTable (tname : string)           (* "read-only table: %s" *)
| TableUnavailable (tname : string)        (* "table `%s` not available for query" *)
| ColumnNotFound (col tname : string)      (* "column `%s` is not defined in table `%s`" *)
| ColumnNotFoundAny (col : string)         (* "column `%s` is not defined in any of the table available for query" *)
| InvalidWhere (e : error)                 (* "invalid WHERE clause: %w" *)
| MissingSelectStmt                        (* "missing select_stmt" *)
| ColumnCountMismatch (ncols nvals : nat)  (* "column count %d doesn't match value count %d" *)
| InvalidValueList (e : error)             (* "invalid value list: %w" *)
| InvalidSelectInValueList (e : error)     (* "invalid SELECT query in value list: %w" *)
| EmptyWherePredicate                      (* "no columns in DELETE's WHERE clause" *)
| MissingWhere.                            (* "no WHERE clause for DELETE" *)

(** What a call does: return values with a nil error, return a non-nil
    error, panic (a failed type assertion, a write to a nil map, an
    index out of range), or exhaust the fuel of the model. *)
Inductive result (A : Type) : Type :=
| Ok (a : A)
| Err (e : error)
| Panic
| OutOfFuel.

Arguments Ok {A} a.
Arguments Err {A} e.
Arguments Panic {A}.
Arguments OutOfFuel {A}.

(** The state is the context: its two table maps are shared by every
    copy of the [VetContext] that Go passes by value. *)
Definition M (A : Type) : Type := VetContext -> result A * VetContext.

Definition ret {A} (a : A) : M A := fun ctx => (Ok a, ctx).

Definition bind {A B} (m : M A) (k : A -> M B) : M B :=
  fun ctx =>
    match m ctx with
    | (Ok a, ctx') => k a ctx'
    | (Err e, ctx') => (Err e, ctx')
    | (Panic, ctx') => (Panic, ctx')
    | (OutOfFuel, ctx') => (OutOfFuel, ctx')
    end.

Notation "'let*' x ':=' m 'in' k" := (bind m (fun x => k))
  (at level 10, x pattern, m at level 100, k at level 200).

Definition fail {A} (e : error) : M A := fun ctx => (Err e, ctx).
Definition panic {A} : M A := fun ctx => (Panic, ctx).
Definition outOfFuel {A} : M A := fun ctx => (OutOfFuel, ctx).
Definition getCtx : M VetContext := fun ctx => (Ok ctx, ctx).

(** [fmt.Errorf("...: %w", err)] around a call. *)
Definition wrapErr {A} (w : error -> error) (m : M A) : M A :=
  fun ctx =>
    match m ctx with
    | (Err e, ctx') => (Err (w e), ctx')
    | r => r
    end.

(** A call of a function that neither reads nor writes the context. *)
Definition lift {A} (r : result A) : M A := fun ctx => (r, ctx).

(** [ctx.InnerSchema.Tables[name] = t]; writing to a nil map panics. *)
Definition setInnerTable (name : string) (t : Table) : M unit :=
  fun ctx =>
    match Tables (InnerSchema ctx) with
    | None => (Panic, ctx)
    | Some m =>
        (Ok tt, {| ctxSchema := ctxSchema ctx;
                   InnerSchema := {| Tables := Some (<[name := t]> m) |};
                   UsedTables := UsedTables ctx |})
    end.

(** A call with the context [VetContext{Schema: ctx.Schema, InnerSchema:
    ctx.InnerSchema, UsedTables: used}]: the callee sees [used], the two
    maps stay the caller's, and the caller's own [UsedTables] is intact
    afterwards. *)
Definition withUsedTables {A} (used : list TableUsed) (m : M A) : M A :=
  fun ctx =>
    let '(r, ctx') := m {| ctxSchema := ctxSchema ctx;
                           InnerSchema := InnerSchema ctx;
                           UsedTables := used |} in
    (r, {| ctxSchema := ctxSchema ctx';
           InnerSchema := InnerSchema ctx';
           UsedTables := UsedTables ctx |}).

(** [for _, x := range l { acc, err = f(acc, x); if err != nil { return } }] *)
Fixpoint forM {A B} (f : B -> A -> M B) (l : list A) (acc : B) : M B :=
  match l with
  | [] => ret acc
  | x :: l' => let* acc' := f acc x in forM f l' acc'
  end.

(** ** Table and column checks (vet.go) *)

Definition validateTable (ctx : VetContext) (tname : string) (notReadOnly : bool)
  : option error :=
  match Tables (ctxSchema ctx) with
  | None => None
  | Some tables =>
      match tables !! tname with
      | None => Some (InvalidTable tname)
      | Some t =>
          if notReadOnly && Table_ReadOnly t then Some (ReadOnlyTable tname)
          else None
      end
  end.

(** The first loop of [validateTableColumns]: the tables in use, under
    their names and their aliases. *)
Fixpoint collectUsedTables (inner outer : gmap string Table) (tables : list TableUsed)
  (usedTables : gmap string Table) : error + gmap string Table :=
  match tables with
  | [] => inr usedTables
  | tu :: rest =>
      let found :=
        match inner !! TableUsed_Name tu with
        | Some t => Some t
        | None => outer !! TableUsed_Name tu
        end in
      match found with
      | None => inl (InvalidTable (TableUsed_Name tu))
      | Some t =>
          let usedTables := <[TableUsed_Name tu := t]> usedTables in
          let usedTables :=
            if negb (TableUsed_Alias tu =? "")
            then <[TableUsed_Alias tu := t]> usedTables
            else usedTables in
          collectUsedTables inner outer rest usedTables
      end
  end.

Definition hasColumn (t : Table) (c : string) : bool :=
  match Table_Columns t !! c with Some _ => true | None => false end.

(** The body of the second loop, for one column.  [range usedTables]
    visits the tables in an unspecified order, but only whether some
    table has the column is used. *)
Definition checkColumn (usedTables : gmap string Table) (tables : list TableUsed)
  (col : ColumnUsed) : result unit :=
  if negb (ColumnUsed_Table col =? "") then
    match usedTables !! ColumnUsed_Table col with
    | None => Err (TableUnavailable (ColumnUsed_Table col))
    | Some table =>
        if hasColumn table (ColumnUsed_Column col) then Ok tt
        else Err (ColumnNotFound (ColumnUsed_Column col) (ColumnUsed_Table col))
    end
  else
    let found :=
      existsb (fun kt => hasColumn (snd kt) (ColumnUsed_Column col))
              (map_to_list usedTables) in
    if found then Ok tt
    else if Nat.eqb (size usedTables) 1 then
      match tables with
      | t0 :: _ => Err (ColumnNotFound (ColumnUsed_Column col) (TableUsed_Name t0))
      | [] => Panic                       (* tables[0] out of range *)
      end
    else Err (ColumnNotFoundAny (ColumnUsed_Column col)).

Fixpoint checkColumns (usedTables : gmap string Table) (tables : list TableUsed)
  (cols : list ColumnUsed) : result unit :=
  match cols with
  | [] => Ok tt
  | col :: rest =>
      match checkColumn usedTables tables col with
      | Ok _ => checkColumns usedTables tables rest
      | r => r
      end
  end.

Definition validateTableColumns (ctx : VetContext) (tables : list TableUsed)
  (cols : list ColumnUsed) : result unit :=
  match Tables (ctxSchema ctx), Tables (InnerSchema ctx) with
  | Some outer, Some inner =>
      match collectUsedTables inner outer tables ∅ with
      | inl e => Err e
      | inr usedTables => checkColumns usedTables tables cols
      end
  | _, _ => Ok tt
  end.

(** [validateTable] and [validateTableColumns] as steps of a validator:
    they read the current context. *)
Definition validateTableM (tname : string) (notReadOnly : bool) : M unit :=
  fun ctx =>
    match validateTable ctx tname notReadOnly with
    | Some e => (Err e, ctx)
    | None => (Ok tt, ctx)
    end.

Definition validateTableColumnsM (tables : list TableUsed) (cols : list ColumnUsed)
  : M unit :=
  fun ctx => (validateTableColumns ctx tables cols, ctx).

(** ** Helpers of the walker that need no context (astjson.go) *)

Definition jsonRangeVarToTableUsed (r : jsonNode) : TableUsed :=
  let name := getStringField r "relname" in
  match asNode (index r "alias") with
  | Some alias =>
      {| TableUsed_Name := name; TableUsed_Alias := getStringField (Some alias) "aliasname" |}
  | None => {| TableUsed_Name := name; TableUsed_Alias := "" |}
  end.

(** [nil] is [None]: no specific column is referenced. *)
Definition jsonColumnRefToColumnUsed (colRef : jsonNode) : option ColumnUsed :=
  let location := getNumberField colRef "location" in
  match elems (asList (index colRef "fields")) with
  | [] => None
  | f0 :: rest =>
      let '(table, colField) :=
        match rest with
        | f1 :: _ =>
            (match index (asNode f0) "String" with
             | ANil => ""
             | s => getStringField (asNode s) "sval"
             end,
             asNode f1)
        | [] => ("", asNode f0)
        end in
      match asNode (index colField "String") with
      | Some s =>
          Some {| ColumnUsed_Column := getStringField (Some s) "sval";
                  ColumnUsed_Table := table;
                  ColumnUsed_Location := location |}
      | None => None
      end
  end.

(** [append(used, *cu)] when [cu != nil]. *)
Definition appendColumn (used : list ColumnUsed) (cu : option ColumnUsed) : list ColumnUsed :=
  match cu with Some c => used ++ [c] | None => used end.

(** The loop of [jsonGetTablesFromSelectStmt], over the function it
    calls for the two sides of a [JoinExpr]. *)
Fixpoint getTablesLoop (getTables : list any -> result (list TableUsed))
  (items : list any) (used : list TableUsed) : result (list TableUsed) :=
  match items with
  | [] => Ok used
  | it :: items' =>
      match asNode it with
      | None => getTablesLoop getTables items' used
      | Some n =>
          let used :=
            match asNode (index (Some n) "RangeVar") with
            | Some rv => used ++ [jsonRangeVarToTableUsed (Some rv)]
            | None => used
            end in
          match asNode (index (Some n) "JoinExpr") with
          | Some je =>
              match getTables [index (Some je) "larg"; index (Some je) "rarg"] with
              | Ok more => getTablesLoop getTables items' (used ++ more)
              | r => r
              end
          | None => getTablesLoop getTables items' used
          end
      end
  end.

Fixpoint jsonGetTablesFromSelectStmt (fuel : nat) (from : list any)
  : result (list TableUsed) :=
  match fuel with
  | O => OutOfFuel
  | S fuel => getTablesLoop (jsonGetTablesFromSelectStmt fuel) from []
  end.

Definition jsonGetColumnsFromNodeList (n : jsonNode) : list ColumnUsed :=
  match asNode (index n "ColumnRef") with
  | Some cr => appendColumn [] (jsonColumnRefToColumnUsed (Some cr))
  | None => []
  end.

Definition jsonGetColumnsFromSortClause (sortList : list any) : list ColumnUsed :=
  fold_left
    (fun used it =>
       match asNode (index (asNode it) "SortBy") with
       | Some sb =>
           match asNode (index (asNode (index (Some sb) "node")) "ColumnRef") with
           | Some cr => appendColumn used (jsonColumnRefToColumnUsed (Some cr))
           | None => used
           end
       | None => used
       end)
    sortList [].

Definition jsonGetColumnsFromReturningList (lst : list any) : list ColumnUsed :=
  fold_left
    (fun used it =>
       match asNode (index (asNode it) "ResTarget") with
       | Some rt =>
           match asNode (index (asNode (index (Some rt) "val")) "ColumnRef") with
           | Some cr => appendColumn used (jsonColumnRefToColumnUsed (Some cr))
           | None => used
           end
       | None => used
       end)
    lst [].

(** The table a CTE or a derived table registers: one column per
    [ColumnUsed] of the sub-statement, [ReadOnly] set. *)
Definition columnsOf (cols : list ColumnUsed) : gmap string Column :=
  fold_left
    (fun columns c =>
       <[ColumnUsed_Column c := {| Column_Name := ColumnUsed_Column c; Column_Type := "" |}]> columns)
    cols ∅.

Definition derivedTable (name : string) (cols : list ColumnUsed) : Table :=
  {| Table_Name := name; Table_Columns := columnsOf cols; Table_ReadOnly := true |}.

(** [if len(src) > 0 { dst = append(dst, src...) }] *)
Definition appendIf {A} (dst src : list A) : list A :=
  if nonempty src then dst ++ src else dst.

(** [if len(src) > 0 { AddQueryParams(&dst, src) }] *)
Definition addParamsIf (dst src : list QueryParam) : list QueryParam :=
  if nonempty src then AddQueryParams dst src else dst.

(** ** The walker and the statement validators (astjson.go)

    The functions of the package call each other recursively.  Each body
    is written once, over the functions it calls, under the name of the
    Go function followed by [_body]; the bodies of the loops that carry
    several variables have names of their own.  The fixpoint after the
    section closes the recursion on fuel. *)

Definition hasAlias (t : TableUsed) : bool := negb (TableUsed_Alias t =? "").

Definition first (l : list any) : option any :=
  match l with x :: _ => Some x | [] => None end.

Section Bodies.

Variable validateNode : jsonNode -> M (list QueryParam * list ColumnUsed).
Variable validateSelect : jsonNode -> M (list QueryParam * list ColumnUsed).
Variable validateUpdate : jsonNode -> M (list QueryParam * list ColumnUsed).
Variable validateInsert : jsonNode -> M (list QueryParam * list ColumnUsed).
Variable validateDelete : jsonNode -> M (list QueryParam * list ColumnUsed).
Variable parseFromClause : jsonNode -> ParseResult -> M ParseResult.
Variable parseExpr : jsonNode -> ParseResult -> M ParseResult.
Variable parseCTE : jsonNode -> M unit.
Variable getTables : list any -> result (list TableUsed).

(** [if with := jNode(stmt, keys...); with != nil { jsonParseCTE(ctx, with) }] *)
Definition parseWith (stmt : jsonNode) (keys : list string) : M unit :=
  match jNode stmt keys with
  | Some w => parseCTE (Some w)
  | None => ret tt
  end.

Definition jsonValidateNode_body (n : jsonNode) : M (list QueryParam * list ColumnUsed) :=
  let '(kind, body) := nodeType n in
  if kind =? "SelectStmt" then validateSelect body
  else if kind =? "UpdateStmt" then validateUpdate body
  else if kind =? "InsertStmt" then validateInsert body
  else if kind =? "DeleteStmt" then validateDelete body
  else fail (UnsupportedStatement kind).

(** [re := &ParseResult{}; jsonParseExpr(ctx, n, re)], then the columns
    and the parameters of [re] are added to the caller's. *)
Definition collectExpr (n : jsonNode) (usedCols : list ColumnUsed)
  (queryParams : list QueryParam) : M (list ColumnUsed * list QueryParam) :=
  let* re := parseExpr n emptyParseResult in
  ret (appendIf usedCols (Columns re), addParamsIf queryParams (Params re)).

(** The body of the [FROM] loop of [jsonValidateSelect]: each item is
    parsed into a [ParseResult] of its own. *)
Definition selectFromItem
  (acc : list ColumnUsed * list TableUsed * list TableUsed * list QueryParam)
  (it : any)
  : M (list ColumnUsed * list TableUsed * list TableUsed * list QueryParam) :=
  let '(usedCols, localTables, localContextTables, queryParams) := acc in
  let* re := parseFromClause (asNode it) emptyParseResult in
  let usedCols := appendIf usedCols (Columns re) in
  let localContextTables :=
    if nonempty (ParseResult_Tables re)
    then localContextTables ++ List.filter hasAlias (ParseResult_Tables re)
    else localContextTables in
  let localTables := appendIf localTables (ParseResult_Tables re) in
  let queryParams := addParamsIf queryParams (Params re) in
  ret (usedCols, localTables, localContextTables, queryParams).

(** The body of the target loop of [jsonValidateSelect]. *)
Definition selectTarget (acc : list ColumnUsed * list QueryParam) (it : any)
  : M (list ColumnUsed * list QueryParam) :=
  let '(usedCols, queryParams) := acc in
  match asNode (index (asNode it) "ResTarget") with
  | None => ret (usedCols, queryParams)
  | Some target =>
      collectExpr (asNode (index (Some target) "val")) usedCols queryParams
  end.

Definition jsonValidateSelect_body (sel : jsonNode)
  : M (list QueryParam * list ColumnUsed) :=
  let* ctx := getCtx in
  let localContextTables := UsedTables ctx in
  let re := emptyParseResult in
  (* WITH *)
  let* _ := parseWith sel ["with_clause"; "withClause"; "withClause"] in
  (* FROM/JOIN tables *)
  let* (usedCols, localTables, localContextTables, queryParams) :=
    forM selectFromItem
         (elems (jList sel ["from_clause"; "fromClause"; "fromClause"]))
         ([], [], localContextTables, []) in
  (* Targets *)
  let* (usedCols, queryParams) :=
    forM selectTarget
         (elems (jList sel ["target_list"; "targetList"; "targetList"]))
         (usedCols, queryParams) in
  (* WHERE *)
  let* (usedCols, queryParams) :=
    match jNode sel ["where_clause"; "whereClause"; "whereClause"] with
    | Some wc => wrapErr InvalidWhere (collectExpr (Some wc) usedCols queryParams)
    | None => ret (usedCols, queryParams)
    end in
  (* GROUP BY *)
  let usedCols :=
    fold_left (fun usedCols it => usedCols ++ jsonGetColumnsFromNodeList (asNode it))
              (elems (jList sel ["group_clause"; "groupClause"; "groupClause"]))
              usedCols in
  (* HAVING *)
  let* (usedCols, queryParams) :=
    match jNode sel ["having_clause"; "havingClause"; "havingClause"] with
    | Some hv => collectExpr (Some hv) usedCols queryParams
    | None => ret (usedCols, queryParams)
    end in
  (* WINDOW *)
  let* (usedCols, queryParams) :=
    match first (elems (jList sel ["window_clause"; "windowClause"; "windowClause"])) with
    | Some wc0 =>
        let* re := parseExpr (asNode wc0) emptyParseResult in
        ret (usedCols ++ Columns re, AddQueryParams queryParams (Params re))
    | None => ret (usedCols, queryParams)
    end in
  (* ORDER BY *)
  let sc := elems (jList sel ["sort_clause"; "sortClause"; "sortClause"]) in
  let usedCols :=
    if nonempty sc then usedCols ++ jsonGetColumnsFromSortClause sc else usedCols in
  (* Postponed nodes: [re] is the empty result made on entry, which no
     call receives; [PostponedNodes.Parse] runs the stub
     [parseRangeSubselect] of vet.go, which returns nil. *)
  let '(usedCols, localTables, queryParams) :=
    match PostponedNodes re with
    | Some _ =>
        (appendIf usedCols (Columns re),
         appendIf localTables (ParseResult_Tables re),
         addParamsIf queryParams (Params re))
    | None => (usedCols, localTables, queryParams)
    end in
  let allTables := localTables ++ localContextTables in
  (* the three [fmt.Printf("DEBUG: ...")] write to standard output only *)
  let* _ := validateTableColumnsM allTables usedCols in
  ret (queryParams, usedCols).

(** Adding the tables of one [FROM] item the way [jsonValidateUpdate]
    and [jsonGetTablesFromSelectStmt] both do. *)
Definition addFromTables (usedTables : list TableUsed) (it : any)
  : M (list TableUsed) :=
  match asNode it with
  | None => ret usedTables
  | Some n =>
      let usedTables :=
        match asNode (index (Some n) "RangeVar") with
        | Some rv => usedTables ++ [jsonRangeVarToTableUsed (Some rv)]
        | None => usedTables
        end in
      match asNode (index (Some n) "JoinExpr") with
      | Some je =>
          let* more := lift (getTables [index (Some je) "larg"; index (Some je) "rarg"]) in
          ret (usedTables ++ more)
      | None => ret usedTables
      end
  end.

(** The column a [ResTarget] of an UPDATE or of an INSERT names. *)
Definition targetColumn (tableName : string) (rt : jsonNode) : ColumnUsed :=
  {| ColumnUsed_Column := getStringField rt "name";
     ColumnUsed_Table := tableName;
     ColumnUsed_Location := getNumberField rt "location" |}.

(** The body of the target loop of [jsonValidateUpdate]. *)
Definition updateTarget (tableName : string)
  (acc : list ColumnUsed * list QueryParam) (it : any)
  : list ColumnUsed * list QueryParam :=
  let '(usedCols, queryParams) := acc in
  match asNode (index (asNode it) "ResTarget") with
  | None => (usedCols, queryParams)
  | Some rt =>
      let usedCols := usedCols ++ [targetColumn tableName (Some rt)] in
      match asNode (index (Some rt) "val") with
      | None => (usedCols, queryParams)
      | Some val =>
          let t := fst (nodeType (Some val)) in
          if t =? "ColumnRef" then
            (appendColumn usedCols
               (jsonColumnRefToColumnUsed (asNode (index (Some val) "ColumnRef"))),
             queryParams)
          else if t =? "ParamRef" then
            (usedCols,
             AddQueryParam queryParams
               {| Number := getNumberField (asNode (index (Some val) "ParamRef")) "number" |})
          else (usedCols, queryParams)
      end
  end.

Definition jsonValidateUpdate_body (up : jsonNode)
  : M (list QueryParam * list ColumnUsed) :=
  let* _ := parseWith up ["with_clause"; "withClause"] in
  let rel := asNode (index up "relation") in
  let rv := getRelationRangeVar rel in
  let tableName := getStringField rv "relname" in
  let* _ := validateTableM tableName true in
  let tableAlias := getStringField (asNode (index rv "alias")) "aliasname" in
  let usedTables := [{| TableUsed_Name := tableName; TableUsed_Alias := "" |}] in
  (* Process target list *)
  let '(usedCols, queryParams) :=
    fold_left (updateTarget tableName)
      (elems (jList up ["target_list"; "targetList"]))
      ([], []) in
  (* Process FROM clause *)
  let* usedTables :=
    forM addFromTables (elems (jList up ["from_clause"; "fromClause"])) usedTables in
  let* (usedCols, queryParams) :=
    match jNode up ["where_clause"; "whereClause"] with
    | Some wc =>
        let* re := wrapErr InvalidWhere (parseExpr (Some wc) emptyParseResult) in
        ret (usedCols ++ Columns re, AddQueryParams queryParams (Params re))
    | None => ret (usedCols, queryParams)
    end in
  let rl := elems (jList up ["returning_list"; "returningList"]) in
  let usedCols :=
    if nonempty rl then usedCols ++ jsonGetColumnsFromReturningList rl else usedCols in
  let* _ :=
    if nonempty usedCols then
      validateTableColumnsM
        (usedTables ++ [{| TableUsed_Name := tableName; TableUsed_Alias := tableAlias |}])
        usedCols
    else ret tt in
  ret (queryParams, usedCols).

(** One entry of [values_lists] in [jsonValidateInsert].  The
    assertion [asNode(list)["List"].(map[string]any)], here on [lst],
    has no comma-ok form: it panics unless the value is a map. *)
Definition insertValuesRow (targetCols : list ColumnUsed)
  (acc : list ColumnUsed * list QueryParam) (lst : any)
  : M (list ColumnUsed * list QueryParam) :=
  match index (asNode lst) "List" with
  | AMap l =>
      let items := elems (asList (index (Some l) "items")) in
      (* Ensure values count matches target columns *)
      if negb (Nat.eqb (len items) (len targetCols)) then
        fail (ColumnCountMismatch (len targetCols) (len items))
      else
        forM (fun '(usedCols, queryParams) vnode =>
                wrapErr InvalidValueList
                  (collectExpr (asNode vnode) usedCols queryParams))
             items acc
  | _ => panic
  end.

(** One [FROM] item of the SELECT source of an INSERT. *)
Definition insertFromItem (acc : list ColumnUsed * list QueryParam) (fc : any)
  : M (list ColumnUsed * list QueryParam) :=
  let '(usedCols, queryParams) := acc in
  let* re := parseFromClause (asNode fc) emptyParseResult in
  ret (appendIf usedCols (Columns re), addParamsIf queryParams (Params re)).

(** One target of the SELECT source of an INSERT. *)
Definition insertSelectTarget (acc : list ColumnUsed * list QueryParam) (it : any)
  : M (list ColumnUsed * list QueryParam) :=
  let '(usedCols, queryParams) := acc in
  let target := index (asNode (index (asNode it) "ResTarget")) "val" in
  match asNode target with
  | None => ret (usedCols, queryParams)
  | Some tv =>
      match index_ok (Some tv) "ColumnRef" with
      | Some cr =>
          ret (appendColumn usedCols (jsonColumnRefToColumnUsed (asNode cr)),
               queryParams)
      | None =>
          match asNode (index (Some tv) "SubLink") with
          | Some sl =>
              let q := asNode (index (Some sl) "subselect") in
              let* (qp, _) :=
                wrapErr InvalidSelectInValueList
                  (validateSelect (asNode (index q "SelectStmt"))) in
              ret (usedCols, addParamsIf queryParams qp)
          | None => ret (usedCols, queryParams)
          end
      end
  end.

Definition jsonValidateInsert_body (ins : jsonNode)
  : M (list QueryParam * list ColumnUsed) :=
  let* _ := parseWith ins ["with_clause"; "withClause"] in
  let rel := asNode (index ins "relation") in
  let rv := getRelationRangeVar rel in
  let tableName := getStringField rv "relname" in
  let* _ := validateTableM tableName true in
  let usedTables := [{| TableUsed_Name := tableName; TableUsed_Alias := "" |}] in
  let targetCols :=
    fold_left
      (fun targetCols it =>
         match asNode (index (asNode it) "ResTarget") with
         | None => targetCols
         | Some rt => targetCols ++ [targetColumn tableName (Some rt)]
         end)
      (elems (asList (index ins "cols"))) [] in
  (* [values] is filled but never read, so it has no counterpart here *)
  let usedCols := [] ++ targetCols in
  let queryParams : list QueryParam := [] in
  let selNode := jNode ins ["select_stmt"; "selectStmt"] in
  let sel :=
    match asNode (index selNode "SelectStmt") with
    | Some s => Some s
    | None => selNode
    end in
  match sel with
  | None => fail MissingSelectStmt
  | Some _ =>
      let vls :=
        match index_ok sel "values_lists" with
        | Some v => v
        | None => index sel "valuesLists"
        end in
      let* (usedTables, usedCols, queryParams) :=
        match vls with
        | ANil =>
            let from := elems (jList sel ["from_clause"; "fromClause"]) in
            let* more := lift (getTables from) in
            let usedTables := usedTables ++ more in
            let* (usedCols, queryParams) :=
              forM insertFromItem from (usedCols, queryParams) in
            let* (usedCols, queryParams) :=
              match jNode sel ["where_clause"; "whereClause"] with
              | Some wc => collectExpr (Some wc) usedCols queryParams
              | None => ret (usedCols, queryParams)
              end in
            let* (usedCols, queryParams) :=
              forM insertSelectTarget
                   (elems (jList sel ["target_list"; "targetList"]))
                   (usedCols, queryParams) in
            ret (usedTables, usedCols, queryParams)
        | _ =>
            let* (usedCols, queryParams) :=
              forM (insertValuesRow targetCols)
                   (elems (asList vls)) (usedCols, queryParams) in
            ret (usedTables, usedCols, queryParams)
        end in
      let rl := elems (jList ins ["returning_list"; "returningList"]) in
      let usedCols :=
        if nonempty rl then usedCols ++ jsonGetColumnsFromReturningList rl else usedCols in
      let* _ := validateTableColumnsM usedTables usedCols in
      (* [validateInsertValues] is a stub that returns nil *)
      ret (queryParams, usedCols)
  end.

(** The [WHERE] step of [jsonValidateDelete]: the clause is required,
    and so is a column in it. *)
Definition deleteWhere (del : jsonNode) : M (list ColumnUsed * list QueryParam) :=
  match jNode del ["where_clause"; "whereClause"] with
  | Some wc =>
      let* re := wrapErr InvalidWhere (parseExpr (Some wc) emptyParseResult) in
      if nonempty (Columns re)
      then ret ([] ++ Columns re, if nonempty (Params re) then Params re else [])
      else fail EmptyWherePredicate
  | None => fail MissingWhere
  end.

Definition jsonValidateDelete_body (del : jsonNode)
  : M (list QueryParam * list ColumnUsed) :=
  let* _ := parseWith del ["with_clause"; "withClause"] in
  let rel := asNode (index del "relation") in
  let rv := getRelationRangeVar rel in
  let tableName := getStringField rv "relname" in
  let* _ := validateTableM tableName true in
  let* (usedCols, queryParams) := deleteWhere del in
  let* usedTables :=
    forM (fun usedTables u =>
            let* re := parseExpr (asNode u) emptyParseResult in
            ret (usedTables ++ ParseResult_Tables re))
         (elems (jList del ["using_clause"; "usingClause"])) [] in
  let rl := elems (jList del ["returning_list"; "returningList"]) in
  let usedCols :=
    if nonempty rl then usedCols ++ jsonGetColumnsFromReturningList rl else usedCols in
  let* _ :=
    if nonempty usedCols then
      validateTableColumnsM
        (usedTables ++ [{| TableUsed_Name := tableName;
                           TableUsed_Alias := getStringField (asNode (index rv "alias")) "aliasname" |}])
        usedCols
    else ret tt in
  ret (queryParams, usedCols).

(** What both branches of the [RangeSubselect] case do with the result
    of the sub-select: merge its parameters and, when the item has an
    alias, register the alias as a read-only table of [InnerSchema]
    and as a table of [re]. *)
Definition registerSubselect (body : jsonNode) (re : ParseResult)
  (qp : list QueryParam) (targetCols : list ColumnUsed) : M ParseResult :=
  let re := setParams re (addParamsIf (Params re) qp) in
  let alias := getStringField (asNode (index body "alias")) "aliasname" in
  if negb (alias =? "") then
    let* _ := setInnerTable alias (derivedTable alias targetCols) in
    ret (setTables re (ParseResult_Tables re
                         ++ [{| TableUsed_Name := alias; TableUsed_Alias := "" |}]))
  else ret re.

Definition jsonParseFromClause_body (n : jsonNode) (re : ParseResult) : M ParseResult :=
  match n with
  | None => ret re
  | Some _ =>
      let '(kind, body) := nodeType n in
      if kind =? "RangeVar" then
        ret (setTables re (ParseResult_Tables re ++ [jsonRangeVarToTableUsed body]))
      else if kind =? "JoinExpr" then
        let* re := parseFromClause (asNode (index body "larg")) re in
        let* re := parseFromClause (asNode (index body "rarg")) re in
        match asNode (index body "quals") with
        | Some quals => parseExpr (Some quals) re
        | None => ret re
        end
      else if kind =? "RangeSubselect" then
        let re :=
          match PostponedNodes re with
          | None => setPostponedNodes re (Some [])
          | Some _ => re
          end in
        let subq := asNode (index (asNode (index body "subquery")) "SelectStmt") in
        if getBoolField body "lateral" then
          (* lateralCtx: the tables gathered in [re] so far *)
          let* (qp, targetCols) :=
            withUsedTables (ParseResult_Tables re) (validateSelect subq) in
          registerSubselect body re qp targetCols
        else
          let* (qp, targetCols) := validateSelect subq in
          registerSubselect body re qp targetCols
      else ret re
  end.

(** [if len(l) > 0 { jsonParseExpr(ctx, asNode(l[0]), re) }] *)
Definition parseFirst (l : list any) (re : ParseResult) : M ParseResult :=
  match first l with
  | Some x => parseExpr (asNode x) re
  | None => ret re
  end.

Definition jsonParseExpr_body (n : jsonNode) (re : ParseResult) : M ParseResult :=
  match n with
  | None => ret re
  | Some _ =>
      let '(kind, body) := nodeType n in
      if kind =? "A_Expr" then
        let* re := parseExpr (asNode (index body "lexpr")) re in
        parseExpr (asNode (index body "rexpr")) re
      else if kind =? "BoolExpr" then
        parseFirst (elems (asList (index body "args"))) re
      else if kind =? "NullTest" then
        parseExpr (asNode (index body "arg")) re
      else if kind =? "ColumnRef" then
        ret (setColumns re (appendColumn (Columns re) (jsonColumnRefToColumnUsed body)))
      else if kind =? "ParamRef" then
        ret (setParams re
               (AddQueryParam (Params re) {| Number := getNumberField body "number" |}))
      else if kind =? "FuncCall" then
        let* re := parseFirst (elems (asList (index body "args"))) re in
        match asNode (index body "over") with
        | Some over =>
            let wd :=
              match asNode (index (Some over) "WindowDef") with
              | Some wd => Some wd
              | None => Some over
              end in
            let* re := parseFirst (elems (jList wd ["partition_clause"; "partitionClause"])) re in
            parseFirst (elems (jList wd ["order_clause"; "orderClause"])) re
        | None => ret re
        end
      else if kind =? "TypeCast" then
        parseExpr (asNode (index body "arg")) re
      else if kind =? "List" then
        forM (fun re it => parseExpr (asNode it) re)
             (elems (asList (index body "items"))) re
      else if kind =? "SubLink" then
        let sub := asNode (index body "subselect") in
        let* (qp, _) := validateSelect (asNode (index sub "SelectStmt")) in
        ret (setParams re (addParamsIf (Params re) qp))
      else if kind =? "CoalesceExpr" then
        parseFirst (elems (asList (index body "args"))) re
      else if kind =? "WindowDef" then
        let* re := parseFirst (elems (jList body ["partition_clause"; "partitionClause"])) re in
        parseFirst (elems (jList body ["order_clause"; "orderClause"])) re
      else if kind =? "SortBy" then
        parseExpr (asNode (index body "node")) re
      else if kind =? "JoinExpr" then
        parseFromClause n re
      else if kind =? "RangeVar" then
        ret (setTables re (ParseResult_Tables re ++ [jsonRangeVarToTableUsed body]))
      else if kind =? "RangeSubselect" then
        parseFromClause n re
      else ret re
  end.

(** The parameters [qp] of the CTE's statement are assigned to the
    blank identifier. *)
Definition jsonParseCTE_body (w : jsonNode) : M unit :=
  forM (fun _ c =>
          match asNode (index (asNode c) "CommonTableExpr") with
          | None => ret tt
          | Some cte =>
              let q := asNode (index (Some cte) "ctequery") in
              let* (_, cols) := validateNode q in
              setInnerTable (getStringField (Some cte) "ctename")
                (derivedTable (getStringField (Some cte) "ctename") cols)
          end)
       (elems (asList (index w "ctes"))) tt.

End Bodies.

(** The recursion of the package, closed on fuel: every call spends one
    unit. *)
Fixpoint jsonValidateNode (fuel : nat) (n : jsonNode) {struct fuel}
  : M (list QueryParam * list ColumnUsed) :=
  match fuel with
  | O => outOfFuel
  | S fuel =>
      jsonValidateNode_body (jsonValidateSelect fuel) (jsonValidateUpdate fuel)
        (jsonValidateInsert fuel) (jsonValidateDelete fuel) n
  end
with jsonValidateSelect (fuel : nat) (sel : jsonNode) {struct fuel}
  : M (list QueryParam * list ColumnUsed) :=
  match fuel with
  | O => outOfFuel
  | S fuel =>
      jsonValidateSelect_body (jsonParseFromClause fuel) (jsonParseExpr fuel)
        (jsonParseCTE fuel) sel
  end
with jsonValidateUpdate (fuel : nat) (up : jsonNode) {struct fuel}
  : M (list QueryParam * list ColumnUsed) :=
  match fuel with
  | O => outOfFuel
  | S fuel =>
      jsonValidateUpdate_body (jsonParseExpr fuel) (jsonParseCTE fuel)
        (jsonGetTablesFromSelectStmt fuel) up
  end
with jsonValidateInsert (fuel : nat) (ins : jsonNode) {struct fuel}
  : M (list QueryParam * list ColumnUsed) :=
  match fuel with
  | O => outOfFuel
  | S fuel =>
      jsonValidateInsert_body (jsonValidateSelect fuel) (jsonParseFromClause fuel)
        (jsonParseExpr fuel) (jsonParseCTE fuel) (jsonGetTablesFromSelectStmt fuel) ins
  end
with jsonValidateDelete (fuel : nat) (del : jsonNode) {struct fuel}
  : M (list QueryParam * list ColumnUsed) :=
  match fuel with
  | O => outOfFuel
  | S fuel =>
      jsonValidateDelete_body (jsonParseExpr fuel) (jsonParseCTE fuel) del
  end
with jsonParseFromClause (fuel : nat) (n : jsonNode) (re : ParseResult) {struct fuel}
  : M ParseResult :=
  match fuel with
  | O => outOfFuel
  | S fuel =>
      jsonParseFromClause_body (jsonValidateSelect fuel) (jsonParseFromClause fuel)
        (jsonParseExpr fuel) n re
  end
with jsonParseExpr (fuel : nat) (n : jsonNode) (re : ParseResult) {struct fuel}
  : M ParseResult :=
  match fuel with
  | O => outOfFuel
  | S fuel =>
      jsonParseExpr_body (jsonValidateSelect fuel) (jsonParseFromClause fuel)
        (jsonParseExpr fuel) n re
  end
with jsonParseCTE (fuel : nat) (w : jsonNode) {struct fuel} : M unit :=
  match fuel with
  | O => outOfFuel
  | S fuel => jsonParseCTE_body (jsonValidateNode fuel) w
  end.

(** ** The facade (astjson.go, vet.go)

    [pg_wasm.ParseToJSON] and [json.Unmarshal] are outside the package:
    the entry points below take the root map the two produce. *)

Definition jsonValidateQuery (fuel : nat) (root : jsonNode)
  : M (list QueryParam * list ColumnUsed) :=
  match elems (asList (index root "stmts")) with
  | [] => fail EmptyStatement
  | [s] =>
      let stmtObj := asNode s in
      let stmt := asNode (index stmtObj "stmt") in
      jsonValidateNode fuel stmt
  | _ :: _ :: _ => fail MultipleStatements
  end.

Definition ValidateSqlQuery (fuel : nat) (root : jsonNode) : M (list QueryParam) :=
  let* (params, _) := jsonValidateQuery fuel root in
  ret params.

(** Every statement is validated with the same [ctx]. *)
Definition ValidateSqlQueries (fuel : nat) (root : jsonNode)
  : M (list (list QueryParam)) :=
  forM (fun out s =>
          let one := Some [("stmts", AList [s])] in
          let* (qp, _) := jsonValidateQuery fuel one in
          ret (out ++ [qp]))
       (elems (asList (index root "stmts"))) [].

(** ** Trees of the parser, for the examples *)

Module Ast.

Definition str (s : string) : any := AMap [("String", AMap [("sval", AStr s)])].

Definition col (parts : list string) (loc : Z) : any :=
  AMap [("ColumnRef", AMap [("fields", AList (map str parts)); ("location", ANum loc)])].

Definition param (n loc : Z) : any :=
  AMap [("ParamRef", AMap [("number", ANum n); ("location", ANum loc)])].

Definition const (n : Z) : any :=
  AMap [("A_Const", AMap [("ival", AMap [("ival", ANum n)])])].

Definition sconst (s : string) : any :=
  AMap [("A_Const", AMap [("sval", AMap [("sval", AStr s)])])].

Definition op (name : string) (l r : any) : any :=
  AMap [("A_Expr", AMap [("kind", AStr "AEXPR_OP"); ("name", AList [str name]);
                         ("lexpr", l); ("rexpr", r)])].

Definition and_ (args : list any) : any :=
  AMap [("BoolExpr", AMap [("boolop", AStr "AND_EXPR"); ("args", AList args)])].

Definition coalesce (args : list any) : any :=
  AMap [("CoalesceExpr", AMap [("args", AList args)])].

Definition target (val : any) : any :=
  AMap [("ResTarget", AMap [("val", val)])].

Definition set (name : string) (val : any) : any :=
  AMap [("ResTarget", AMap [("name", AStr name); ("val", val)])].

Definition into (name : string) : any :=
  AMap [("ResTarget", AMap [("name", AStr name)])].

Definition rel (name : string) : list (string * any) :=
  [("relname", AStr name); ("inh", ABool true); ("relpersistence", AStr "p")].

Definition rel_as (name alias : string) : list (string * any) :=
  [("relname", AStr name); ("inh", ABool true); ("relpersistence", AStr "p");
   ("alias", AMap [("aliasname", AStr alias)])].

Definition table (name : string) : any := AMap [("RangeVar", AMap (rel name))].

Definition table_as (name alias : string) : any :=
  AMap [("RangeVar", AMap (rel_as name alias))].

Definition select (fields : list (string * any)) : any :=
  AMap [("SelectStmt", AMap (fields ++ [("limitOption", AStr "LIMIT_OPTION_DEFAULT");
                                        ("op", AStr "SETOP_NONE")]))].

Definition subselect (lateral : bool) (q : any) (alias : string) : any :=
  AMap [("RangeSubselect",
         AMap ((if lateral then [("lateral", ABool true)] else [])
               ++ [("subquery", q); ("alias", AMap [("aliasname", AStr alias)])]))].

Definition cte (name : string) (q : any) : any :=
  AMap [("CommonTableExpr",
         AMap [("ctename", AStr name); ("ctematerialized", AStr "CTEMaterializeDefault");
               ("ctequery", q)])].

Definition raw (stmt : any) : any := AMap [("stmt", stmt)].

Definition root (stmts : list any) : jsonNode :=
  Some [("version", ANum 170004); ("stmts", AList (map raw stmts))].

End Ast.

(** The schema of the specification's scenarios: tables
    [users(id, name, email)] and [posts(id, user_id, title)], and the
    read-only view [active_users(id, name)]. *)
Definition mkTable (name : string) (cols : list string) (ro : bool) : Table :=
  {| Table_Name := name;
     Table_Columns :=
       list_to_map (map (fun c => (c, {| Column_Name := c; Column_Type := "" |})) cols);
     Table_ReadOnly := ro |}.

Definition exampleTables : gmap string Table :=
  <["users" := mkTable "users" ["id"; "name"; "email"] false]>
  (<["posts" := mkTable "posts" ["id"; "user_id"; "title"] false]>
  (<["active_users" := mkTable "active_users" ["id"; "name"] true]> ∅)).

Definition exampleCtx : VetContext := NewContext (Some exampleTables).

(** The JSON parameters of a result, as numbers. *)
Definition numbers (ps : list QueryParam) : list Z := map Number ps.

(** ** Queries of the examples

    Each tree is what the parser returns for the statement in its comment;
    locations are left out where the validator does not read them. *)

Module Ex.
Import Ast.

Definition p (n : Z) : QueryParam := {| Number := n |}.

(** [DROP TABLE users] *)
Definition dropTable : jsonNode :=
  root [AMap [("DropStmt",
               AMap [("objects", AList [AList [str "users"]]);
                     ("removeType", AStr "OBJECT_TABLE");
                     ("behavior", AStr "DROP_RESTRICT")])]].

(** [SELECT id FROM users WHERE id > $1] *)
Definition recentUsers : any :=
  select [("targetList", AList [target (col ["id"] 7)]);
          ("fromClause", AList [table "users"]);
          ("whereClause", op ">" (col ["id"] 27) (param 1 32))].

(** [WITH recent AS (SELECT id FROM users WHERE id > $1)
     SELECT id FROM recent WHERE id = $2] *)
Definition withRecent : any :=
  select [("withClause", AMap [("ctes", AList [cte "recent" recentUsers])]);
          ("targetList", AList [target (col ["id"] 58)]);
          ("fromClause", AList [table "recent"]);
          ("whereClause", op "=" (col ["id"] 79) (param 2 84))].


(** [SELECT p.id FROM posts p WHERE p.user_id = u.id] *)
Definition postsOfU : any :=
  select [("targetList", AList [target (col ["p"; "id"] 0)]);
          ("fromClause", AList [table_as "posts" "p"]);
          ("whereClause", op "=" (col ["p"; "user_id"] 0) (col ["u"; "id"] 0))].

(** [SELECT u.id FROM users u,
     LATERAL (SELECT p.id FROM posts p WHERE p.user_id = u.id) q] *)
Definition lateralSibling : jsonNode :=
  root [select [("targetList", AList [target (col ["u"; "id"] 7)]);
                ("fromClause", AList [table_as "users" "u"; subselect true postsOfU "q"])]].

(** [SELECT u.id FROM users u
     JOIN LATERAL (SELECT p.id FROM posts p WHERE p.user_id = u.id) q ON true] *)
Definition lateralJoin : jsonNode :=
  root [select [("targetList", AList [target (col ["u"; "id"] 7)]);
                ("fromClause",
                 AList [AMap [("JoinExpr",
                               AMap [("jointype", AStr "JOIN_INNER");
                                     ("larg", table_as "users" "u");
                                     ("rarg", subselect true postsOfU "q");
                                     ("quals", AMap [("A_Const",
                                                      AMap [("boolval", AMap [("boolval", ABool true)])])])])]])]].

(** An INSERT into [users (id, name)] whose [valuesLists] holds a bare
    array where a [List] node is expected. *)
Definition insertBareRow : jsonNode :=
  root [AMap [("InsertStmt",
               AMap [("relation", AMap (rel "users"));
                     ("cols", AList [into "id"; into "name"]);
                     ("selectStmt",
                      select [("valuesLists", AList [AList [param 1 0; param 2 0]])]);
                     ("override", AStr "OVERRIDING_NOT_SET")])]].

(** [SELECT id FROM users WHERE id IN ($1, $3, $1, $2)] *)
Definition inList : jsonNode :=
  root [select [("targetList", AList [target (col ["id"] 7)]);
                ("fromClause", AList [table "users"]);
                ("whereClause",
                 AMap [("A_Expr",
                        AMap [("kind", AStr "AEXPR_IN"); ("name", AList [str "="]);
                              ("lexpr", col ["id"] 27);
                              ("rexpr", AMap [("List",
                                               AMap [("items",
                                                      AList [param 1 0; param 3 0;
                                                             param 1 0; param 2 0])])])])])]].

Definition delete (fields : list (string * any)) : any := AMap [("DeleteStmt", AMap fields)].

(** [DELETE FROM users] *)
Definition deleteUsers : jsonNode := root [delete [("relation", AMap (rel "users"))]].

(** [DELETE FROM active_users] *)
Definition deleteActiveUsers : jsonNode :=
  root [delete [("relation", AMap (rel "active_users"))]].

(** [DELETE FROM users WHERE 1 = 1] *)
Definition deleteUsersTrue : jsonNode :=
  root [delete [("relation", AMap (rel "users"));
                ("whereClause", op "=" (const 1) (const 1))]].

Definition update (fields : list (string * any)) : any := AMap [("UpdateStmt", AMap fields)].

(** [UPDATE active_users SET name = 'x' WHERE id = 1] *)
Definition updateActiveUsers : list (string * any) :=
  [("relation", AMap (rel "active_users"));
   ("targetList", AList [set "name" (sconst "x")]);
   ("whereClause", op "=" (col ["id"] 41) (const 1))].

(** [WITH c AS (SELECT zzz FROM users)
     UPDATE active_users SET name = 'x' WHERE id = 1] *)
Definition updateAfterBadCte : jsonNode :=
  root [update (("withClause",
                 AMap [("ctes",
                        AList [cte "c" (select [("targetList", AList [target (col ["zzz"] 17)]);
                                                ("fromClause", AList [table "users"])])])])
                :: updateActiveUsers)].

(** [SELECT id FROM users WHERE id = $1 AND zzz = $2] *)
Definition andSecondArg : jsonNode :=
  root [select [("targetList", AList [target (col ["id"] 7)]);
                ("fromClause", AList [table "users"]);
                ("whereClause",
                 and_ [op "=" (col ["id"] 27) (param 1 32);
                       op "=" (col ["zzz"] 39) (param 2 45)])]].

(** [SELECT id FROM users WHERE id = COALESCE($1, $2)] *)
Definition coalesceSecondArg : jsonNode :=
  root [select [("targetList", AList [target (col ["id"] 7)]);
                ("fromClause", AList [table "users"]);
                ("whereClause",
                 op "=" (col ["id"] 27) (coalesce [param 1 41; param 2 45]))]].

End Ex.

(** The name [validateTable] is called with by the three writing
    statements: [getStringField(getRelationRangeVar(asNode(stmt["relation"])), "relname")]. *)
Definition targetTable (stmt : jsonNode) : string :=
  getStringField (getRelationRangeVar (asNode (index stmt "relation"))) "relname".

Definition supportedKinds : list string :=
  ["SelectStmt"; "UpdateStmt"; "InsertStmt"; "DeleteStmt"].

(** The kinds the specification lists as accepted without inspection. *)
Definition acceptedKinds : list string :=
  ["DropStmt"; "TruncateStmt"; "AlterTableStmt"; "CreateSchemaStmt"; "VariableSetStmt"].

(** ** Predicates of the statements below *)

(** Strictly ascending by number; in particular without duplicates. *)
Definition sortedParams (ps : list QueryParam) : Prop :=
  StronglySorted Z.lt (numbers ps).

(** The table map of [InnerSchema] only gains names: a nil map stays
    nil, and a name that is registered stays registered. *)
Definition innerGrows (o o' : option (gmap string Table)) : Prop :=
  match o, o' with
  | None, None => True
  | Some m, Some m' => dom m ⊆ dom m'
  | _, _ => False
  end.

(** What a call may change of the context it is given: nothing of
    [Schema], nothing of [UsedTables], and [InnerSchema] only grows. *)
Definition frame (ctx ctx' : VetContext) : Prop :=
  ctxSchema ctx' = ctxSchema ctx /\
  UsedTables ctx' = UsedTables ctx /\
  innerGrows (Tables (InnerSchema ctx)) (Tables (InnerSchema ctx')).

(** Errors other than the four kinds that [validateTable] and
    [validateTableColumns] raise, also below a wrapping message. *)
Fixpoint noTableError (e : error) : Prop :=
  match e with
  | InvalidTable _ | ReadOnlyTable _ | TableUnavailable _
  | ColumnNotFound _ _ | ColumnNotFoundAny _ => False
  | InvalidWhere e' | InvalidValueList e' | InvalidSelectInValueList e' => noTableError e'
  | _ => True
  end.

(** The judgement of the proofs: from every context, [m] respects
    [frame]; a returned value satisfies [Q]; a returned error is not a
    table error when the context has no declared schema. *)
Definition sat {A} (m : M A) (Q : A -> Prop) : Prop :=
  forall ctx,
    frame ctx (snd (m ctx)) /\
    match fst (m ctx) with
    | Ok a => Q a
    | Err e => Tables (ctxSchema ctx) = None -> noTableError e
    | Panic | OutOfFuel => True
    end.

(** The postconditions of the walker: a validator returns a sorted
    parameter list, and the two parsers keep the one of [re] sorted. *)
Definition returnsSorted (m : M (list QueryParam * list ColumnUsed)) : Prop :=
  sat m (fun r => sortedParams (fst r)).

Definition keepsSorted (f : ParseResult -> M ParseResult) : Prop :=
  forall re, sortedParams (Params re) -> sat (f re) (fun re' => sortedParams (Params re')).

Definition sortedAcc {A} (acc : A * list QueryParam) : Prop := sortedParams (snd acc).

(** [m'] returns what [m] returns, wherever [m] does not run out of
    fuel. *)
Definition stable {A} (m m' : M A) : Prop :=
  forall ctx, fst (m ctx) <> OutOfFuel -> m' ctx = m ctx.

(** [m] never runs out of fuel. *)
Definition total {A} (m : M A) : Prop :=
  forall ctx, fst (m ctx) <> OutOfFuel.

(** The nesting depth of a tree, which bounds the recursion of the
    walker. *)
Fixpoint depth (v : any) : nat :=
  match v with
  | AList l => S (fold_right (fun x d => Nat.max (depth x) d) 0 l)
  | AMap m => S (fold_right (fun kv d => Nat.max (let '(_, x) := kv in depth x) d) 0 m)
  | _ => 0
  end.

Definition depthNode (n : jsonNode) : nat :=
  match n with Some m => depth (AMap m) | None => 0 end.

(** ** Notions for the further properties of the validator *)

(** The table a name of the FROM list stands for in
    [validateTableColumns]: the one of [InnerSchema] when it has the
    name, else the one of [Schema]. *)
Definition lookupTable (inner outer : gmap string Table) (name : string) : option Table :=
  match inner !! name with
  | Some t => Some t
  | None => outer !! name
  end.

(** [q] is the name of [tu], or its alias when it has one. *)
Definition namedBy (q : string) (tu : TableUsed) : Prop :=
  q = TableUsed_Name tu \/ (q = TableUsed_Alias tu /\ TableUsed_Alias tu <> "").

(** Errors raised while one statement is validated: every error but the
    two that [jsonValidateQuery] raises on the number of statements, also
    below a wrapping message. *)
Fixpoint fromStatement (e : error) : Prop :=
  match e with
  | EmptyStatement | MultipleStatements => False
  | InvalidWhere e' | InvalidValueList e' | InvalidSelectInValueList e' => fromStatement e'
  | _ => True
  end.

(** Every error that [m] returns satisfies [P]. *)
Definition raises {A} (P : error -> Prop) (m : M A) : Prop :=
  forall ctx, match fst (m ctx) with Err e => P e | _ => True end.

(** Every value that [m] returns satisfies [Q]. *)
Definition returns {A} (m : M A) (Q : A -> Prop) : Prop :=
  forall ctx, match fst (m ctx) with Ok a => Q a | _ => True end.

(** [re'] holds what [re] holds, and maybe more: the columns and the
    tables of [re] in front, every parameter number of [re], and the
    postponed nodes if [re] has them. *)
Definition extends (re re' : ParseResult) : Prop :=
  Columns re `prefix_of` Columns re' /\
  ParseResult_Tables re `prefix_of` ParseResult_Tables re' /\
  (forall n, In n (numbers (Params re)) -> In n (numbers (Params re'))) /\
  (is_Some (PostponedNodes re) -> is_Some (PostponedNodes re')).

(** The pieces of [jsonValidateInsert] that the statements below name:
    the loop over [ins["cols"]], the choice of [sel], the closure that
    picks [vls], and the items of one entry of [vls] ([None] where the
    type assertion on the entry panics). *)
Definition insertTargetCols (ins : jsonNode) : list ColumnUsed :=
  fold_left
    (fun targetCols it =>
       match asNode (index (asNode it) "ResTarget") with
       | None => targetCols
       | Some rt => targetCols ++ [targetColumn (targetTable ins) (Some rt)]
       end)
    (elems (asList (index ins "cols"))) [].

Definition insertSource (ins : jsonNode) : jsonNode :=
  let selNode := jNode ins ["select_stmt"; "selectStmt"] in
  match asNode (index selNode "SelectStmt") with
  | Some s => Some s
  | None => selNode
  end.

Definition insertValues (sel : jsonNode) : any :=
  match index_ok sel "values_lists" with
  | Some v => v
  | None => index sel "valuesLists"
  end.

Definition rowItems (row : any) : option (list any) :=
  match index (asNode row) "List" with
  | AMap l => Some (elems (asList (index (Some l) "items")))
  | _ => None
  end.

(** From [ctx1] to [ctx2], the table [name] has been written to
    [InnerSchema], read-only and with the columns of [cols], and nothing
    else has changed. *)
Definition registered (ctx1 ctx2 : VetContext) (name : string) (cols : list ColumnUsed)
  : Prop :=
  ctxSchema ctx2 = ctxSchema ctx1 /\
  UsedTables ctx2 = UsedTables ctx1 /\
  exists inner t,
    Tables (InnerSchema ctx1) = Some inner /\
    Tables (InnerSchema ctx2) = Some (<[name := t]> inner) /\
    Table_Name t = name /\
    Table_ReadOnly t = true /\
    forall c, hasColumn t c = true <-> In c (map ColumnUsed_Column cols).

(** The cases of the [switch] of [jsonParseExpr] and of
    [jsonParseFromClause]. *)
Definition exprKinds : list string :=
  ["A_Expr"; "BoolExpr"; "NullTest"; "ColumnRef"; "ParamRef"; "FuncCall"; "TypeCast";
   "List"; "SubLink"; "CoalesceExpr"; "WindowDef"; "SortBy"; "JoinExpr"; "RangeVar";
   "RangeSubselect"].

Definition fromKinds : list string := ["RangeVar"; "JoinExpr"; "RangeSubselect"].

(** Every entry of the [values_lists] (or [valuesLists]) of the map is a
    [List] wrapper, as the parser builds them. *)
Definition rowsOk (m : list (string * any)) : bool :=
  forallb (fun row => match rowItems row with Some _ => true | None => false end)
          (elems (asList (insertValues (Some m)))).

(** [rowsOk] for every map of the tree. *)
Fixpoint wellFormed (v : any) : bool :=
  match v with
  | AList l => forallb wellFormed l
  | AMap m => rowsOk m && forallb (fun kv => let '(_, x) := kv in wellFormed x) m
  | _ => true
  end.

Definition wellFormedNode (n : jsonNode) : bool :=
  match n with Some m => wellFormed (AMap m) | None => true end.

(** From a context whose [InnerSchema] has a table map, [m] does not
    panic and leaves such a context. *)
Definition safe {A} (m : M A) : Prop :=
  forall ctx,
    Tables (InnerSchema ctx) <> None ->
    fst (m ctx) <> Panic /\ Tables (InnerSchema (snd (m ctx))) <> None.

(** ** What a validation registers in [InnerSchema] *)






(** [InnerSchema] has a table under the name. *)
Definition hasTable (name : string) (ctx : VetContext) : Prop :=
  match Tables (InnerSchema ctx) with
  | Some m => is_Some (m !! name)
  | None => False
  end.

(** [m] leaves the table registered if it was, and [m] leaves it
    registered whenever it returns without error. *)
Definition keeps {A} (name : string) (m : M A) : Prop :=
  forall ctx, hasTable name ctx -> hasTable name (snd (m ctx)).

Definition adds {A} (name : string) (m : M A) : Prop :=
  forall ctx, match fst (m ctx) with Ok _ => hasTable name (snd (m ctx)) | _ => True end.

(** ** The ignore ranges of the analyzer (analyzer.go)

    [shouldIgnoreNodeSimple] reads an [ast.Node] through [Pos()] and
    [End()] only; a [token.Pos] is an integer. *)

Record astNode : Type := { Node_Pos : Z; Node_End : Z }.

Definition shouldIgnoreNodeSimple (ignoreNodes : list astNode) (pos : Z) : bool :=
  match ignoreNodes with
  | [] => false
  | n0 :: _ =>
      if (pos <? Node_Pos n0)%Z || (pos >? Node_End (List.last ignoreNodes n0))%Z
      then false
      else existsb (fun n => (pos <? Node_End n)%Z && (pos >? Node_Pos n)%Z) ignoreNodes
  end.

(** What [collectIgnoreCommentNodes] returns: the nodes in the order of
    [sort.Slice] by [Pos()]. *)
Definition sortedByPos (nodes : list astNode) : Prop :=
  StronglySorted (fun a b => (Node_Pos a <= Node_Pos b)%Z) nodes.

Definition encloses (pos : Z) (n : astNode) : Prop := (Node_Pos n < pos < Node_End n)%Z.

(** ** The schema loader (pkg/schema/postgres.go)

    The loader walks the protobuf tree of [pg_query], whose generated
    getters return the zero value on a nil receiver and whose [Node] is
    a one-of.  [pgNode] has one constructor per message the loader
    reads, with the fields it reads: a string field that is absent is
    the empty string, a repeated field that is absent the empty list,
    and a message the loader compares with nil is an [option].
    [pg_wasm.Parse] is outside the package: [parsePostgresSchema] takes
    the [GetStmt()] of every statement of the tree. *)

Inductive pgNode : Type :=
| PgString (sval : string)
| PgAStar
| PgColumnRef (fields : list pgNode)
| PgFuncCall (funcname : list pgNode)
| PgResTarget (name : string) (val : option pgNode)
| PgSelectStmt (targetList : list pgNode)
| PgQuery (commandType : Z) (targetList : list pgNode)
| PgColumnDef (colname : string) (typeNames : list pgNode)
| PgCreateStmt (relname : string) (tableElts : list pgNode)
| PgViewStmt (relname : string) (query : option pgNode)
| PgOther.

(** [l[len(l)-1].GetString_().GetSval()] when [len(l) > 0], else [""]. *)
Definition lastSval (l : list pgNode) : string :=
  match l with
  | [] => ""
  | x :: _ =>
      match List.last l x with
      | PgString s => s
      | _ => ""
      end
  end.

Definition extractColumnNameFromColumnRef (fields : list pgNode) : string := lastSval fields.

Definition extractColumnNameFromFuncCall (funcname : list pgNode) : string := lastSval funcname.

Definition extractColumnNameFromValue (val : option pgNode) : string :=
  match val with
  | None => ""
  | Some (PgColumnRef fields) => extractColumnNameFromColumnRef fields
  | Some PgAStar => "*"
  | Some (PgFuncCall funcname) => extractColumnNameFromFuncCall funcname
  | Some _ => ""
  end.

Definition extractColumnNameFromResTarget (name : string) (val : option pgNode) : string :=
  if negb (name =? "") then name
  else match val with
       | None => ""
       | Some _ => extractColumnNameFromValue val
       end.

(** The loop over the target list that [extractColumnsFromSelectStmt]
    and [extractColumnsFromQueryNode] share. *)
Definition targetColumns (targetList : list pgNode) : list string :=
  fold_left
    (fun columns target =>
       match target with
       | PgResTarget name val =>
           let colName := extractColumnNameFromResTarget name val in
           if negb (colName =? "") then columns ++ [colName] else columns
       | _ => columns
       end)
    targetList [].

Definition extractColumnsFromSelectStmt (targetList : list pgNode) : list string :=
  targetColumns targetList.

Definition extractColumnsFromQueryNode (commandType : Z) (targetList : list pgNode)
  : list string :=
  if negb (commandType =? 2)%Z then [] else targetColumns targetList.

Definition extractColumnsFromViewQuery (query : option pgNode) : list string :=
  match query with
  | Some (PgSelectStmt targetList) => extractColumnsFromSelectStmt targetList
  | Some (PgQuery commandType targetList) => extractColumnsFromQueryNode commandType targetList
  | _ => []
  end.

Definition typeParts (names : list pgNode) : list string :=
  fold_left
    (fun parts typNode =>
       match typNode with
       | PgString s => parts ++ [s]
       | _ => parts
       end)
    names [].

(** The columns of a [CREATE TABLE]: one per [ColumnDef] element. *)
Definition tableColumns (tableElts : list pgNode) : gmap string Column :=
  fold_left
    (fun columns colElem =>
       match colElem with
       | PgColumnDef colName names =>
           <[colName := {| Column_Name := colName;
                           Column_Type := String.concat "." (typeParts names) |}]> columns
       | _ => columns
       end)
    tableElts ∅.

(** The columns of a [CREATE VIEW]: one per extracted name. *)
Definition viewColumns (columns : list string) : gmap string Column :=
  fold_left
    (fun cols colName => <[colName := {| Column_Name := colName; Column_Type := "" |}]> cols)
    columns ∅.

(** The body of the loop of [parsePostgresSchema]. *)
Definition loadStmt (tables : gmap string Table) (stmt : option pgNode) : gmap string Table :=
  match stmt with
  | Some (PgCreateStmt tableName tableElts) =>
      <[tableName := {| Table_Name := tableName;
                        Table_Columns := tableColumns tableElts;
                        Table_ReadOnly := false |}]> tables
  | Some (PgViewStmt tableName query) =>
      <[tableName := {| Table_Name := tableName;
                        Table_Columns := viewColumns (extractColumnsFromViewQuery query);
                        Table_ReadOnly := true |}]> tables
  | _ => tables
  end.

Definition parsePostgresSchema (stmts : list (option pgNode)) : gmap string Table :=
  fold_left loadStmt stmts ∅.

(** The context the analyzer validates with: [NewContext] of the loaded
    tables. *)
Definition schemaContext (stmts : list (option pgNode)) : VetContext :=
  NewContext (Some (parsePostgresSchema stmts)).

(** The name a statement of the schema file defines, if any. *)
Definition defined (stmt : option pgNode) : option string :=
  match stmt with
  | Some (PgCreateStmt tableName _) | Some (PgViewStmt tableName _) => Some tableName
  | _ => None
  end.

(** The column names of the [ColumnDef] elements of a [CREATE TABLE]. *)
Definition columnNames (tableElts : list pgNode) : list string :=
  fold_right
    (fun colElem names =>
       match colElem with
       | PgColumnDef colName _ => colName :: names
       | _ => names
       end)
    [] tableElts.

(** ** Inputs of the further examples *)

Module Sample.
Import Ast.

Definition values (rows : list (list any)) : any :=
  select [("valuesLists",
           AList (map (fun items => AMap [("List", AMap [("items", AList items)])]) rows))].

Definition insert (fields : list (string * any)) : list (string * any) :=
  fields ++ [("override", AStr "OVERRIDING_NOT_SET")].

(** [INSERT INTO users VALUES ($1, $2, $3)] *)
Definition insertNoColumns : list (string * any) :=
  insert [("relation", AMap (rel "users"));
          ("selectStmt", values [[param 1 0; param 2 0; param 3 0]])].

(** [INSERT INTO users (id, name) VALUES ($1, $2, $3)] *)
Definition insertThreeIntoTwo : list (string * any) :=
  insert [("relation", AMap (rel "users"));
          ("cols", AList [into "id"; into "name"]);
          ("selectStmt", values [[param 1 0; param 2 0; param 3 0]])].

(** [INSERT INTO users (id, name) VALUES ($1, $2), ($3, $4)] *)
Definition insertTwoRows : list (string * any) :=
  insert [("relation", AMap (rel "users"));
          ("cols", AList [into "id"; into "name"]);
          ("selectStmt", values [[param 1 0; param 2 0]; [param 3 0; param 4 0]])].

(** [INSERT INTO users DEFAULT VALUES] *)
Definition insertDefaults : list (string * any) :=
  insert [("relation", AMap (rel "users"))].

(** [WITH recent AS (SELECT id FROM users WHERE id > $1)] *)
Definition withRecent : list (string * any) :=
  [("ctes", AList [cte "recent" Ex.recentUsers])].

(** The [CommonTableExpr] of [recent]. *)
Definition recentCte : list (string * any) :=
  [("ctename", AStr "recent"); ("ctematerialized", AStr "CTEMaterializeDefault");
   ("ctequery", Ex.recentUsers)].

(** [WITH recent AS (SELECT id FROM users WHERE id > $1)
     DELETE FROM recent WHERE id = $2] *)
Definition deleteFromCte : list (string * any) :=
  [("withClause", AMap withRecent);
   ("relation", AMap (rel "recent"));
   ("whereClause", op "=" (col ["id"] 80) (param 2 85))].

(** The FROM item [(SELECT id FROM users WHERE id > $1) sub] *)
Definition derived : list (string * any) :=
  [("subquery", Ex.recentUsers); ("alias", AMap [("aliasname", AStr "sub")])].

(** [CASE WHEN zzz = $1 THEN 1 END] *)
Definition caseExpr : list (string * any) :=
  [("CaseExpr",
    AMap [("args", AList [AMap [("CaseWhen",
                                 AMap [("expr", op "=" (col ["zzz"] 0) (param 1 0));
                                       ("result", const 1)])]])])].

Definition users : TableUsed := {| TableUsed_Name := "users"; TableUsed_Alias := "" |}.
Definition posts_p : TableUsed := {| TableUsed_Name := "posts"; TableUsed_Alias := "p" |}.
Definition ghosts : TableUsed := {| TableUsed_Name := "ghosts"; TableUsed_Alias := "" |}.

Definition column (table name : string) : ColumnUsed :=
  {| ColumnUsed_Column := name; ColumnUsed_Table := table; ColumnUsed_Location := 0 |}.

(** The columns of [SELECT id FROM users WHERE id > $1]. *)
Definition recentColumns : list ColumnUsed :=
  [{| ColumnUsed_Column := "id"; ColumnUsed_Table := ""; ColumnUsed_Location := 7 |};
   {| ColumnUsed_Column := "id"; ColumnUsed_Table := ""; ColumnUsed_Location := 27 |}].

(** A context in which a CTE named [users], with the one column [total],
    hides the table [users] of the schema. *)
Definition shadowed : gmap string Table :=
  <["users" := derivedTable "users" [column "" "total"]]> ∅.

Definition shadowCtx : VetContext :=
  {| ctxSchema := {| Tables := Some exampleTables |};
     InnerSchema := {| Tables := Some shadowed |};
     UsedTables := [] |}.

(** Two ignore ranges, the second inside the first. *)
Definition outerRange : astNode := {| Node_Pos := 10; Node_End := 100 |}.
Definition innerRange : astNode := {| Node_Pos := 20; Node_End := 30 |}.

(** [CREATE TABLE users (id int4, name text)] *)
Definition createUsers : option pgNode :=
  Some (PgCreateStmt "users"
          [PgColumnDef "id" [PgString "pg_catalog"; PgString "int4"];
           PgColumnDef "name" [PgString "text"]]).

(** The query of the view below. *)
Definition activeQuery : option pgNode :=
  Some (PgSelectStmt
          [PgResTarget "" (Some (PgColumnRef [PgString "u"; PgString "id"]));
           PgResTarget "name" (Some (PgFuncCall [PgString "lower"]))]).

(** [CREATE VIEW active_users AS SELECT u.id, lower(name) AS name FROM users u] *)
Definition createActiveUsers : option pgNode := Some (PgViewStmt "active_users" activeQuery).

Definition schemaFile : list (option pgNode) := [createUsers; createActiveUsers].





End Sample.

(** * Properties *)

(** ** The parameter collector keeps its list strictly ascending *)

Lemma AddQueryParam_numbers (target : list QueryParam) (param : QueryParam) (n : Z) :
  In n (numbers (AddQueryParam target param)) <->
  n = Number param \/ In n (numbers target).
Proof.
  unfold numbers.
  induction target as [|p rest IH]; simpl.
  - intuition congruence.
  - destruct (Z.eqb_spec (Number p) (Number param)) as [Heq|Hne]; simpl.
    + rewrite Heq. intuition congruence.
    + destruct (Number p >? Number param)%Z; simpl; [intuition congruence|].
      rewrite IH. intuition congruence.
Qed.

Lemma AddQueryParam_lower (target : list QueryParam) (param : QueryParam) (x : Z) :
  (x < Number param)%Z ->
  Forall (Z.lt x) (numbers target) ->
  Forall (Z.lt x) (numbers (AddQueryParam target param)).
Proof.
  intros Hx Hall.
  apply List.Forall_forall. intros n Hn.
  apply AddQueryParam_numbers in Hn as [->|Hn]; [assumption|].
  rewrite List.Forall_forall in Hall. now apply Hall.
Qed.

Lemma AddQueryParam_sorted (target : list QueryParam) (param : QueryParam) :
  sortedParams target -> sortedParams (AddQueryParam target param).
Proof.
  unfold sortedParams, numbers.
  induction target as [|p rest IH]; simpl; intros Hs.
  - repeat constructor.
  - apply StronglySorted_inv in Hs as [Hrest Hp].
    destruct (Z.eqb_spec (Number p) (Number param)) as [Heq|Hne]; simpl.
    + now constructor.
    + destruct (Z.gtb_spec (Number p) (Number param)) as [Hgt|Hle]; simpl.
      * constructor; [now constructor|].
        constructor; [lia|].
        eapply List.Forall_impl; [|exact Hp]. simpl. intros; lia.
      * constructor; [now apply IH|].
        apply AddQueryParam_lower; [lia|exact Hp].
Qed.

Lemma AddQueryParams_sorted (params target : list QueryParam) :
  sortedParams target -> sortedParams (AddQueryParams target params).
Proof.
  unfold AddQueryParams.
  revert target.
  induction params as [|p params IH]; simpl; intros target Hs; [assumption|].
  apply IH. now apply AddQueryParam_sorted.
Qed.

Lemma AddQueryParams_numbers (params target : list QueryParam) (n : Z) :
  In n (numbers (AddQueryParams target params)) <->
  In n (numbers target) \/ In n (numbers params).
Proof.
  unfold AddQueryParams.
  revert target.
  induction params as [|p params IH]; simpl; intros target.
  - unfold numbers; simpl. tauto.
  - rewrite IH, AddQueryParam_numbers. unfold numbers; simpl. intuition congruence.
Qed.

Lemma sortedParams_nil : sortedParams [].
Proof. constructor. Qed.

Lemma addParamsIf_sorted (dst src : list QueryParam) :
  sortedParams dst -> sortedParams (addParamsIf dst src).
Proof.
  unfold addParamsIf. destruct (nonempty src); [apply AddQueryParams_sorted|trivial].
Qed.

Create HintDb walker.

#[local] Hint Resolve sortedParams_nil AddQueryParam_sorted AddQueryParams_sorted
  addParamsIf_sorted : walker.

(** ** Rules of the judgement [sat] *)

Lemma innerGrows_refl (o : option (gmap string Table)) : innerGrows o o.
Proof. destruct o; simpl; [set_solver|trivial]. Qed.

Lemma innerGrows_trans (o1 o2 o3 : option (gmap string Table)) :
  innerGrows o1 o2 -> innerGrows o2 o3 -> innerGrows o1 o3.
Proof. destruct o1, o2, o3; simpl; try tauto. set_solver. Qed.

Lemma frame_refl (ctx : VetContext) : frame ctx ctx.
Proof. repeat split. apply innerGrows_refl. Qed.

Lemma frame_trans (c1 c2 c3 : VetContext) : frame c1 c2 -> frame c2 c3 -> frame c1 c3.
Proof.
  intros (Hs1 & Hu1 & Hi1) (Hs2 & Hu2 & Hi2).
  repeat split; try congruence.
  eapply innerGrows_trans; eassumption.
Qed.

Lemma sat_ret {A} (a : A) (Q : A -> Prop) : Q a -> sat (ret a) Q.
Proof. intros Ha ctx. simpl. split; [apply frame_refl|exact Ha]. Qed.

Lemma sat_fail {A} (e : error) (Q : A -> Prop) : noTableError e -> sat (fail e) Q.
Proof. intros He ctx. simpl. split; [apply frame_refl|auto]. Qed.

Lemma sat_panic {A} (Q : A -> Prop) : sat panic Q.
Proof. intros ctx. simpl. split; [apply frame_refl|trivial]. Qed.

Lemma sat_outOfFuel {A} (Q : A -> Prop) : sat outOfFuel Q.
Proof. intros ctx. simpl. split; [apply frame_refl|trivial]. Qed.

Lemma sat_getCtx : sat getCtx (fun _ => True).
Proof. intros ctx. simpl. split; [apply frame_refl|trivial]. Qed.

Lemma sat_bind {A B} (m : M A) (k : A -> M B) (Q1 : A -> Prop) (Q2 : B -> Prop) :
  sat m Q1 -> (forall a, Q1 a -> sat (k a) Q2) -> sat (bind m k) Q2.
Proof.
  intros Hm Hk ctx. unfold bind.
  specialize (Hm ctx).
  destruct (m ctx) as [[a|e| |] ctx1]; simpl in *; try exact Hm.
  destruct Hm as [Hf Ha].
  specialize (Hk a Ha ctx1).
  destruct (k a ctx1) as [r ctx2]; simpl in *.
  destruct Hk as [Hf2 Hr].
  split; [eapply frame_trans; eassumption|].
  destruct r; trivial.
  intros Hnone. apply Hr. destruct Hf as [-> _]. exact Hnone.
Qed.

Lemma sat_weaken {A} (m : M A) (Q Q' : A -> Prop) :
  sat m Q -> (forall a, Q a -> Q' a) -> sat m Q'.
Proof.
  intros Hm HQ ctx. specialize (Hm ctx).
  destruct (m ctx) as [[a|e| |] ctx1]; simpl in *; intuition.
Qed.

Lemma sat_wrapErr {A} (w : error -> error) (m : M A) (Q : A -> Prop) :
  (forall e, noTableError e -> noTableError (w e)) -> sat m Q -> sat (wrapErr w m) Q.
Proof.
  intros Hw Hm ctx. unfold wrapErr. specialize (Hm ctx).
  destruct (m ctx) as [[a|e| |] ctx1]; simpl in *; intuition.
Qed.

Lemma sat_lift {A} (r : result A) (Q : A -> Prop) :
  match r with Ok a => Q a | Err _ => False | Panic | OutOfFuel => True end ->
  sat (lift r) Q.
Proof.
  intros Hr ctx. unfold lift; simpl. split; [apply frame_refl|].
  destruct r; tauto.
Qed.

Lemma sat_withUsedTables {A} (used : list TableUsed) (m : M A) (Q : A -> Prop) :
  sat m Q -> sat (withUsedTables used m) Q.
Proof.
  intros Hm ctx. unfold withUsedTables.
  specialize (Hm {| ctxSchema := ctxSchema ctx; InnerSchema := InnerSchema ctx;
                    UsedTables := used |}).
  destruct (m _) as [r ctx1]; simpl in *.
  destruct Hm as [(Hs & Hu & Hi) Hr].
  split; [repeat split; assumption|exact Hr].
Qed.

Lemma sat_setInnerTable (name : string) (t : Table) :
  sat (setInnerTable name t) (fun _ => True).
Proof.
  intros ctx. unfold setInnerTable.
  destruct (Tables (InnerSchema ctx)) as [m|] eqn:Hm; simpl.
  - split; [|trivial]. repeat split; simpl. rewrite Hm. simpl.
    rewrite dom_insert. set_solver.
  - split; [apply frame_refl|trivial].
Qed.

Lemma validateTable_nil (ctx : VetContext) (tname : string) (notReadOnly : bool) :
  Tables (ctxSchema ctx) = None -> validateTable ctx tname notReadOnly = None.
Proof. intros H. unfold validateTable. now rewrite H. Qed.

Lemma validateTableColumns_nil (ctx : VetContext) (tables : list TableUsed)
  (cols : list ColumnUsed) :
  Tables (ctxSchema ctx) = None -> validateTableColumns ctx tables cols = Ok tt.
Proof. intros H. unfold validateTableColumns. now rewrite H. Qed.

Lemma sat_validateTableM (tname : string) (notReadOnly : bool) :
  sat (validateTableM tname notReadOnly) (fun _ => True).
Proof.
  intros ctx. unfold validateTableM.
  destruct (validateTable ctx tname notReadOnly) as [e|] eqn:He; simpl.
  - split; [apply frame_refl|]. intros Hnone.
    rewrite validateTable_nil in He by assumption. discriminate.
  - split; [apply frame_refl|trivial].
Qed.

Lemma sat_validateTableColumnsM (tables : list TableUsed) (cols : list ColumnUsed) :
  sat (validateTableColumnsM tables cols) (fun _ => True).
Proof.
  intros ctx. unfold validateTableColumnsM; simpl.
  split; [apply frame_refl|].
  destruct (validateTableColumns ctx tables cols) as [[]|e| |] eqn:He; trivial.
  intros Hnone. rewrite validateTableColumns_nil in He by assumption. discriminate.
Qed.

Lemma sat_forM {A B} (f : B -> A -> M B) (I : B -> Prop) (l : list A) (acc : B) :
  I acc -> (forall acc x, I acc -> sat (f acc x) I) -> sat (forM f l acc) I.
Proof.
  intros Hacc Hf. revert acc Hacc.
  induction l as [|x l IH]; simpl; intros acc Hacc.
  - now apply sat_ret.
  - eapply sat_bind; [apply Hf; exact Hacc|]. intros acc' Hacc'. now apply IH.
Qed.

(** ** The walker satisfies the judgement *)

Ltac sat_leaf :=
  lazymatch goal with
  | |- sat (ret _) _ => simple apply sat_ret
  | |- sat (fail _) _ => simple apply sat_fail; simpl; trivial
  | |- sat panic _ => simple apply sat_panic
  | |- sat outOfFuel _ => simple apply sat_outOfFuel
  | |- sat getCtx _ => simple apply sat_getCtx
  | |- sat (setInnerTable _ _) _ => simple apply sat_setInnerTable
  | |- sat (validateTableM _ _) _ => simple apply sat_validateTableM
  | |- sat (validateTableColumnsM _ _) _ => simple apply sat_validateTableColumnsM
  end.

Ltac sat_step :=
  cbv beta iota zeta;
  match goal with
  | |- sat (wrapErr _ _) _ => simple apply sat_wrapErr; [simpl; trivial|]
  | |- sat (withUsedTables _ _) _ => simple apply sat_withUsedTables
  | |- sat (match ?x with _ => _ end) _ => destruct x eqn:?
  | |- sat (if ?x then _ else _) _ => destruct x eqn:?
  | |- sat _ _ => sat_leaf
  | |- sat _ _ => eapply sat_weaken; [sat_leaf|intros ? ?]
  end.

Ltac sat_simpl :=
  unfold sortedAcc in *;
  cbn beta iota delta [fst snd Params Columns ParseResult_Tables PostponedNodes
                       setParams setColumns setTables setPostponedNodes
                       emptyParseResult] in *.

Ltac sat_done := sat_step; sat_simpl; solve [auto with walker].

Tactic Notation "sat_bind" "as" simple_intropattern(p) simple_intropattern(H) :=
  cbv beta iota zeta; eapply sat_bind; [|intros p H; sat_simpl].

Tactic Notation "sat_loop" constr(Inv) "as" simple_intropattern(acc) simple_intropattern(x)
    simple_intropattern(H) :=
  apply (sat_forM _ Inv); [|intros acc x H; cbn beta in *].

Section BodiesSat.

Variable validateNode validateSelect validateUpdate validateInsert validateDelete
  : jsonNode -> M (list QueryParam * list ColumnUsed).
Variable parseFromClause parseExpr : jsonNode -> ParseResult -> M ParseResult.
Variable parseCTE : jsonNode -> M unit.
Variable getTables : list any -> result (list TableUsed).

Hypothesis HvalidateNode : forall n, returnsSorted (validateNode n).
Hypothesis HvalidateSelect : forall n, returnsSorted (validateSelect n).
Hypothesis HvalidateUpdate : forall n, returnsSorted (validateUpdate n).
Hypothesis HvalidateInsert : forall n, returnsSorted (validateInsert n).
Hypothesis HvalidateDelete : forall n, returnsSorted (validateDelete n).
Hypothesis HparseFromClause : forall n, keepsSorted (parseFromClause n).
Hypothesis HparseExpr : forall n, keepsSorted (parseExpr n).
Hypothesis HparseCTE : forall w, sat (parseCTE w) (fun _ => True).
Hypothesis HgetTables :
  forall l, match getTables l with Err _ => False | _ => True end.

Lemma parseWith_sat stmt keys : sat (parseWith parseCTE stmt keys) (fun _ => True).
Proof. unfold parseWith. sat_step; [apply HparseCTE|sat_done]. Qed.

Lemma jsonValidateNode_body_sat n :
  returnsSorted
    (jsonValidateNode_body validateSelect validateUpdate validateInsert validateDelete n).
Proof.
  unfold returnsSorted in *; unfold jsonValidateNode_body.
  destruct (nodeType n) as [kind body].
  repeat sat_step; auto.
Qed.

Lemma parseExpr_fresh n :
  sat (parseExpr n emptyParseResult) (fun re => sortedParams (Params re)).
Proof. apply HparseExpr. apply sortedParams_nil. Qed.

Lemma parseFromClause_fresh n :
  sat (parseFromClause n emptyParseResult) (fun re => sortedParams (Params re)).
Proof. apply HparseFromClause. apply sortedParams_nil. Qed.

Lemma collectExpr_sat n usedCols queryParams :
  sortedParams queryParams ->
  sat (collectExpr parseExpr n usedCols queryParams) sortedAcc.
Proof.
  intros Hq. unfold collectExpr.
  sat_bind as re Hre; [apply parseExpr_fresh|sat_done].
Qed.

Lemma selectFromItem_sat acc it :
  sortedAcc acc -> sat (selectFromItem parseFromClause acc it) sortedAcc.
Proof.
  destruct acc as [[[usedCols localTables] localContextTables] queryParams].
  intros Hq. unfold selectFromItem.
  sat_bind as re Hre; [apply parseFromClause_fresh|sat_done].
Qed.

Lemma selectTarget_sat acc it :
  sortedAcc acc -> sat (selectTarget parseExpr acc it) sortedAcc.
Proof.
  destruct acc as [usedCols queryParams].
  intros Hq. unfold selectTarget.
  sat_step; [now apply collectExpr_sat|sat_done].
Qed.

Lemma jsonValidateSelect_body_sat sel :
  returnsSorted (jsonValidateSelect_body parseFromClause parseExpr parseCTE sel).
Proof.
  unfold returnsSorted, jsonValidateSelect_body.
  sat_bind as ctx _; [sat_step|].
  sat_bind as _ _; [apply parseWith_sat|].
  sat_bind as [[[usedCols localTables] localContextTables] queryParams] Hqp.
  { sat_loop (@sortedAcc (list ColumnUsed * list TableUsed * list TableUsed))
      as acc it Hacc; [apply sortedParams_nil|now apply selectFromItem_sat]. }
  sat_bind as [usedCols2 queryParams2] Hqp2.
  { sat_loop (@sortedAcc (list ColumnUsed)) as acc it Hacc;
      [assumption|now apply selectTarget_sat]. }
  sat_bind as [usedCols3 queryParams3] Hqp3.
  { instantiate (1 := sortedAcc).
    sat_step; [sat_step; now apply collectExpr_sat|sat_done]. }
  sat_bind as [usedCols4 queryParams4] Hqp4.
  { instantiate (1 := sortedAcc).
    sat_step; [now apply collectExpr_sat|sat_done]. }
  sat_bind as [usedCols5 queryParams5] Hqp5.
  { instantiate (1 := sortedAcc).
    sat_step; [|sat_done].
    sat_bind as re Hre; [apply parseExpr_fresh|sat_done]. }
  sat_bind as _ _; [sat_step|]. sat_done.
Qed.

Lemma addFromTables_sat usedTables it :
  sat (addFromTables getTables usedTables it) (fun _ => True).
Proof.
  unfold addFromTables.
  sat_step; [|sat_done].
  sat_step; [|sat_done].
  sat_bind as more _; [|sat_done].
  apply sat_lift with (Q := fun _ => True). apply HgetTables.
Qed.

Lemma updateTarget_sorted tableName acc it :
  sortedAcc acc -> sortedAcc (updateTarget tableName acc it).
Proof.
  destruct acc as [usedCols queryParams]. unfold sortedAcc, updateTarget; simpl.
  intros Hq.
  destruct (asNode (index (asNode it) "ResTarget")) as [rt|]; [|assumption].
  destruct (asNode (index (Some rt) "val")) as [val|]; [|assumption].
  destruct (_ =? "ColumnRef"); [assumption|].
  destruct (_ =? "ParamRef"); [|assumption].
  simpl. now apply AddQueryParam_sorted.
Qed.

Lemma updateTargets_sorted tableName l acc :
  sortedAcc acc -> sortedAcc (fold_left (updateTarget tableName) l acc).
Proof.
  revert acc. induction l as [|it l IH]; simpl; intros acc Hacc; [assumption|].
  apply IH. now apply updateTarget_sorted.
Qed.

Lemma jsonValidateUpdate_body_sat up :
  returnsSorted (jsonValidateUpdate_body parseExpr parseCTE getTables up).
Proof.
  unfold returnsSorted, jsonValidateUpdate_body.
  sat_bind as _ _; [apply parseWith_sat|].
  sat_bind as _ _; [sat_step|].
  match goal with
  | |- sat (let '(_, _) := fold_left (updateTarget ?t) ?l ?a in _) _ =>
      pose proof (updateTargets_sorted t l a sortedParams_nil) as Hfold;
      destruct (fold_left (updateTarget t) l a) as [usedCols queryParams]
  end.
  sat_bind as usedTables _.
  { sat_loop (fun _ : list TableUsed => True) as ut it _; [trivial|].
    apply addFromTables_sat. }
  sat_bind as [usedCols2 queryParams2] Hqp2.
  { instantiate (1 := sortedAcc).
    sat_step; [|sat_done].
    sat_bind as re Hre; [sat_step; apply parseExpr_fresh|sat_done]. }
  sat_bind as _ _.
  { instantiate (1 := fun _ => True). sat_step; sat_step; trivial. }
  sat_done.
Qed.

Lemma deleteWhere_sat del : sat (deleteWhere parseExpr del) sortedAcc.
Proof.
  unfold deleteWhere.
  sat_step; [|sat_done].
  sat_bind as re Hre; [sat_step; apply parseExpr_fresh|].
  sat_step; [|sat_done].
  sat_step. unfold sortedAcc; simpl.
  destruct (nonempty (Params re)); [assumption|apply sortedParams_nil].
Qed.

Lemma jsonValidateDelete_body_sat del :
  returnsSorted (jsonValidateDelete_body parseExpr parseCTE del).
Proof.
  unfold returnsSorted, jsonValidateDelete_body.
  sat_bind as _ _; [apply parseWith_sat|].
  sat_bind as _ _; [sat_step|].
  sat_bind as [usedCols queryParams] Hqp; [apply deleteWhere_sat|].
  sat_bind as usedTables _.
  { sat_loop (fun _ : list TableUsed => True) as ut u _; [trivial|].
    sat_bind as re Hre; [apply parseExpr_fresh|sat_done]. }
  sat_bind as _ _.
  { instantiate (1 := fun _ => True). sat_step; sat_step; trivial. }
  sat_done.
Qed.

Lemma insertValuesRow_sat targetCols acc lst :
  sortedAcc acc -> sat (insertValuesRow parseExpr targetCols acc lst) sortedAcc.
Proof.
  intros Hacc. unfold insertValuesRow.
  destruct (index (asNode lst) "List"); try sat_done.
  sat_step; [sat_done|].
  sat_loop (@sortedAcc (list ColumnUsed)) as [uc qp] vnode Hqp; [assumption|].
  sat_step. now apply collectExpr_sat.
Qed.

Lemma insertFromItem_sat acc fc :
  sortedAcc acc -> sat (insertFromItem parseFromClause acc fc) sortedAcc.
Proof.
  destruct acc as [usedCols queryParams]. intros Hq. unfold insertFromItem.
  sat_bind as re Hre; [apply parseFromClause_fresh|sat_done].
Qed.

Lemma insertSelectTarget_sat acc it :
  sortedAcc acc -> sat (insertSelectTarget validateSelect acc it) sortedAcc.
Proof.
  destruct acc as [usedCols queryParams]. intros Hq. unfold insertSelectTarget.
  sat_step; [|sat_done].
  sat_step; [sat_done|].
  sat_step; [|sat_done].
  sat_bind as [qp ?] Hqp; [sat_step; apply HvalidateSelect|sat_done].
Qed.

Lemma jsonValidateInsert_body_sat ins :
  returnsSorted (jsonValidateInsert_body validateSelect parseFromClause parseExpr
                   parseCTE getTables ins).
Proof.
  unfold returnsSorted, jsonValidateInsert_body.
  sat_bind as _ _; [apply parseWith_sat|].
  sat_bind as _ _; [sat_step|].
  sat_step; [|sat_done].
  sat_bind as [[usedTables usedCols] queryParams] Hqp.
  { instantiate (1 := sortedAcc).
    assert (Hvalues :
      forall vls targetCols uc (ut : list TableUsed),
        sat
          (let* (usedCols, queryParams) :=
             forM (insertValuesRow parseExpr targetCols) (elems (asList vls))
                  (uc, @nil QueryParam) in
           ret (ut, usedCols, queryParams))
          (@sortedAcc (list TableUsed * list ColumnUsed))).
    { intros vls targetCols uc ut.
      sat_bind as [uc2 qp2] Hqp2.
      - sat_loop (@sortedAcc (list ColumnUsed)) as acc lst Hacc;
          [apply sortedParams_nil|now apply insertValuesRow_sat].
      - sat_done. }
    match goal with
    | |- sat (match ?v with _ => _ end) _ => destruct v; try apply Hvalues
    end.
    sat_bind as more _.
    { apply sat_lift with (Q := fun _ => True). apply HgetTables. }
    sat_bind as [uc1 qp1] Hqp1.
    { sat_loop (@sortedAcc (list ColumnUsed)) as acc fc Hacc;
        [apply sortedParams_nil|now apply insertFromItem_sat]. }
    sat_bind as [uc2 qp2] Hqp2.
    { instantiate (1 := sortedAcc).
      sat_step; [now apply collectExpr_sat|sat_done]. }
    sat_bind as [uc3 qp3] Hqp3.
    - sat_loop (@sortedAcc (list ColumnUsed)) as acc it Hacc;
        [assumption|now apply insertSelectTarget_sat].
    - sat_done. }
  sat_bind as _ _; [sat_step|]. sat_done.
Qed.

Lemma registerSubselect_sat body re qp targetCols :
  sortedParams (Params re) ->
  sat (registerSubselect body re qp targetCols) (fun re' => sortedParams (Params re')).
Proof.
  intros Hre. unfold registerSubselect.
  sat_step; [|sat_done].
  sat_bind as _ _; [sat_step|sat_done].
Qed.

Lemma jsonParseFromClause_body_sat n :
  keepsSorted (jsonParseFromClause_body validateSelect parseFromClause parseExpr n).
Proof.
  unfold keepsSorted, jsonParseFromClause_body. intros re Hre.
  destruct n as [kvs|]; [|sat_done].
  destruct (nodeType (Some kvs)) as [kind body].
  sat_step; [sat_done|].
  sat_step.
  { sat_bind as re1 Hre1; [now apply HparseFromClause|].
    sat_bind as re2 Hre2; [now apply HparseFromClause|].
    sat_step; [now apply HparseExpr|sat_done]. }
  sat_step; [|sat_done].
  assert (Hre' : sortedParams
                   (Params match PostponedNodes re with
                           | Some _ => re
                           | None => setPostponedNodes re (Some [])
                           end)) by (destruct (PostponedNodes re); assumption).
  sat_step.
  - sat_bind as [qp targetCols] Hqp; [sat_step; apply HvalidateSelect|].
    now apply registerSubselect_sat.
  - sat_bind as [qp targetCols] Hqp; [apply HvalidateSelect|].
    now apply registerSubselect_sat.
Qed.

Lemma parseFirst_sat l : keepsSorted (parseFirst parseExpr l).
Proof.
  unfold keepsSorted, parseFirst. intros re Hre.
  sat_step; [now apply HparseExpr|sat_done].
Qed.

Lemma jsonParseExpr_body_sat n :
  keepsSorted (jsonParseExpr_body validateSelect parseFromClause parseExpr n).
Proof.
  unfold keepsSorted, jsonParseExpr_body. intros re Hre.
  destruct n as [kvs|]; [|sat_done].
  destruct (nodeType (Some kvs)) as [kind body].
  sat_step.
  { sat_bind as re1 Hre1; now apply HparseExpr. }
  sat_step; [now apply parseFirst_sat|].
  sat_step; [now apply HparseExpr|].
  sat_step; [sat_done|].
  sat_step; [sat_done|].
  sat_step.
  { sat_bind as re1 Hre1; [now apply parseFirst_sat|].
    sat_step; [|sat_done].
    sat_bind as re2 Hre2; now apply parseFirst_sat. }
  sat_step; [now apply HparseExpr|].
  sat_step.
  { sat_loop (fun re' : ParseResult => sortedParams (Params re')) as re1 it Hre1;
      [assumption|now apply HparseExpr]. }
  sat_step.
  { sat_bind as [qp ?] Hqp; [apply HvalidateSelect|sat_done]. }
  sat_step; [now apply parseFirst_sat|].
  sat_step.
  { sat_bind as re1 Hre1; now apply parseFirst_sat. }
  sat_step; [now apply HparseExpr|].
  sat_step; [now apply HparseFromClause|].
  sat_step; [sat_done|].
  sat_step; [now apply HparseFromClause|].
  sat_done.
Qed.

Lemma jsonParseCTE_body_sat w : sat (jsonParseCTE_body validateNode w) (fun _ => True).
Proof.
  unfold jsonParseCTE_body.
  sat_loop (fun _ : unit => True) as u c _; [trivial|].
  sat_step; [|sat_done].
  sat_bind as [qp cols] _; [apply HvalidateNode|].
  sat_step.
Qed.

End BodiesSat.

Lemma getTablesLoop_no_error (getTables : list any -> result (list TableUsed))
  (items : list any) (used : list TableUsed) :
  (forall l, match getTables l with Err _ | Panic => False | _ => True end) ->
  match getTablesLoop getTables items used with
  | Err _ | Panic => False
  | Ok _ | OutOfFuel => True
  end.
Proof.
  intros Hrec. revert used.
  induction items as [|it items IH]; intros used; simpl; [trivial|].
  destruct (asNode it) as [n|]; [|apply IH].
  destruct (asNode (index (Some n) "JoinExpr")) as [je|]; [|apply IH].
  specialize (Hrec [index (Some je) "larg"; index (Some je) "rarg"]).
  destruct (getTables _); try tauto.
  apply IH.
Qed.

Lemma jsonGetTablesFromSelectStmt_no_error (fuel : nat) (from : list any) :
  match jsonGetTablesFromSelectStmt fuel from with
  | Err _ | Panic => False
  | Ok _ | OutOfFuel => True
  end.
Proof.
  revert from. induction fuel as [|fuel IH]; intros from; simpl; [trivial|].
  now apply getTablesLoop_no_error.
Qed.

Lemma jsonGetTablesFromSelectStmt_lift (fuel : nat) (from : list any) :
  match jsonGetTablesFromSelectStmt fuel from with Err _ => False | _ => True end.
Proof.
  pose proof (jsonGetTablesFromSelectStmt_no_error fuel from) as H.
  destruct (jsonGetTablesFromSelectStmt fuel from); tauto.
Qed.

Lemma walker_sat (fuel : nat) :
  (forall n, returnsSorted (jsonValidateNode fuel n)) /\
  (forall n, returnsSorted (jsonValidateSelect fuel n)) /\
  (forall n, returnsSorted (jsonValidateUpdate fuel n)) /\
  (forall n, returnsSorted (jsonValidateInsert fuel n)) /\
  (forall n, returnsSorted (jsonValidateDelete fuel n)) /\
  (forall n, keepsSorted (jsonParseFromClause fuel n)) /\
  (forall n, keepsSorted (jsonParseExpr fuel n)) /\
  (forall w, sat (jsonParseCTE fuel w) (fun _ => True)).
Proof.
  induction fuel as [|fuel (Hnode & Hsel & Hupd & Hins & Hdel & Hfrom & Hexpr & Hcte)].
  - unfold returnsSorted, keepsSorted.
    repeat match goal with |- _ /\ _ => split end; intros; apply sat_outOfFuel.
  - repeat match goal with |- _ /\ _ => split end; intros; simpl.
    + now apply jsonValidateNode_body_sat.
    + now apply jsonValidateSelect_body_sat.
    + apply jsonValidateUpdate_body_sat; auto; apply jsonGetTablesFromSelectStmt_lift.
    + apply jsonValidateInsert_body_sat; auto; apply jsonGetTablesFromSelectStmt_lift.
    + now apply jsonValidateDelete_body_sat.
    + now apply jsonParseFromClause_body_sat.
    + now apply jsonParseExpr_body_sat.
    + now apply jsonParseCTE_body_sat.
Qed.

Lemma jsonValidateQuery_sat (fuel : nat) (root : jsonNode) :
  returnsSorted (jsonValidateQuery fuel root).
Proof.
  unfold returnsSorted, jsonValidateQuery.
  destruct (elems (asList (index root "stmts"))) as [|s [|s' rest]].
  - now apply sat_fail.
  - apply walker_sat.
  - now apply sat_fail.
Qed.

Lemma ValidateSqlQuery_sat (fuel : nat) (root : jsonNode) :
  sat (ValidateSqlQuery fuel root) sortedParams.
Proof.
  unfold ValidateSqlQuery.
  sat_bind as [params cols] Hp; [apply jsonValidateQuery_sat|sat_done].
Qed.

Lemma ValidateSqlQueries_sat (fuel : nat) (root : jsonNode) :
  sat (ValidateSqlQueries fuel root) (Forall sortedParams).
Proof.
  unfold ValidateSqlQueries.
  sat_loop (Forall sortedParams) as out s Hout; [constructor|].
  sat_bind as [qp cols] Hqp; [apply jsonValidateQuery_sat|].
  sat_step. apply Forall_app. split; [assumption|]. now repeat constructor.
Qed.

(** ** The fuel is only a bound: more fuel does not change a result *)

Lemma stable_refl {A} (m : M A) : stable m m.
Proof. intros ctx _. reflexivity. Qed.

Lemma stable_trans {A} (m1 m2 m3 : M A) : stable m1 m2 -> stable m2 m3 -> stable m1 m3.
Proof.
  intros H12 H23 ctx H1.
  rewrite <- (H12 ctx H1). apply H23. now rewrite (H12 ctx H1).
Qed.

Lemma stable_outOfFuel {A} (m : M A) : stable outOfFuel m.
Proof. intros ctx H. now contradiction H. Qed.

Lemma stable_bind {A B} (m m' : M A) (k k' : A -> M B) :
  stable m m' -> (forall a, stable (k a) (k' a)) -> stable (bind m k) (bind m' k').
Proof.
  intros Hm Hk ctx H. unfold bind in *.
  destruct (m ctx) as [r ctx1] eqn:Em.
  assert (Hr : fst (m ctx) <> OutOfFuel).
  { rewrite Em. simpl. intros ->. now apply H. }
  rewrite (Hm ctx Hr), Em.
  destruct r; try reflexivity. now apply Hk.
Qed.

Lemma stable_wrapErr {A} (w : error -> error) (m m' : M A) :
  stable m m' -> stable (wrapErr w m) (wrapErr w m').
Proof.
  intros Hm ctx H. unfold wrapErr in *.
  rewrite (Hm ctx); [reflexivity|].
  intros Hoof. apply H. destruct (m ctx) as [[]]; simpl in *; congruence.
Qed.

Lemma stable_withUsedTables {A} (used : list TableUsed) (m m' : M A) :
  stable m m' -> stable (withUsedTables used m) (withUsedTables used m').
Proof.
  intros Hm ctx H. unfold withUsedTables in *.
  rewrite (Hm _); [reflexivity|].
  intros Hoof. apply H. destruct (m _) as [r c]; simpl in *. exact Hoof.
Qed.

Lemma stable_lift {A} (r r' : result A) :
  (r <> OutOfFuel -> r' = r) -> stable (lift r) (lift r').
Proof. intros Hr ctx H. unfold lift in *. simpl in H. now rewrite (Hr H). Qed.

Lemma stable_forM {A B} (f f' : B -> A -> M B) (l : list A) (acc : B) :
  (forall acc x, stable (f acc x) (f' acc x)) -> stable (forM f l acc) (forM f' l acc).
Proof.
  intros Hf. revert acc.
  induction l as [|x l IH]; intros acc; simpl; [apply stable_refl|].
  apply stable_bind; [apply Hf|apply IH].
Qed.

Ltac stable_step :=
  cbv beta iota zeta;
  match goal with
  | |- stable ?m ?m => simple apply stable_refl
  | |- stable (bind _ _) (bind _ _) => simple apply stable_bind; [|intros ?]
  | |- stable (forM _ _ _) (forM _ _ _) => simple apply stable_forM; intros ? ?
  | |- stable (wrapErr _ _) (wrapErr _ _) => simple apply stable_wrapErr
  | |- stable (withUsedTables _ _) (withUsedTables _ _) => simple apply stable_withUsedTables
  | |- stable (match ?x with _ => _ end) _ => destruct x
  | |- stable (if ?x then _ else _) _ => destruct x
  | H : forall n, stable (?f n) _ |- stable (?f _) _ => simple apply H
  | H : forall n re, stable (?f n re) _ |- stable (?f _ _) _ => simple apply H
  | |- stable ?m _ =>
      match m with context [match ?x with _ => _ end] => is_var x; destruct x end
  end.

Section BodiesStable.

Variable validateNode validateSelect validateUpdate validateInsert validateDelete
  : jsonNode -> M (list QueryParam * list ColumnUsed).
Variable parseFromClause parseExpr : jsonNode -> ParseResult -> M ParseResult.
Variable parseCTE : jsonNode -> M unit.
Variable getTables : list any -> result (list TableUsed).
Variable validateNode' validateSelect' validateUpdate' validateInsert' validateDelete'
  : jsonNode -> M (list QueryParam * list ColumnUsed).
Variable parseFromClause' parseExpr' : jsonNode -> ParseResult -> M ParseResult.
Variable parseCTE' : jsonNode -> M unit.
Variable getTables' : list any -> result (list TableUsed).

Hypothesis HvalidateNode : forall n, stable (validateNode n) (validateNode' n).
Hypothesis HvalidateSelect : forall n, stable (validateSelect n) (validateSelect' n).
Hypothesis HvalidateUpdate : forall n, stable (validateUpdate n) (validateUpdate' n).
Hypothesis HvalidateInsert : forall n, stable (validateInsert n) (validateInsert' n).
Hypothesis HvalidateDelete : forall n, stable (validateDelete n) (validateDelete' n).
Hypothesis HparseFromClause :
  forall n re, stable (parseFromClause n re) (parseFromClause' n re).
Hypothesis HparseExpr : forall n re, stable (parseExpr n re) (parseExpr' n re).
Hypothesis HparseCTE : forall w, stable (parseCTE w) (parseCTE' w).
Hypothesis HgetTables : forall l, getTables l <> OutOfFuel -> getTables' l = getTables l.

Lemma parseWith_stable stmt keys :
  stable (parseWith parseCTE stmt keys) (parseWith parseCTE' stmt keys).
Proof. unfold parseWith. repeat stable_step. Qed.

Lemma collectExpr_stable n usedCols queryParams :
  stable (collectExpr parseExpr n usedCols queryParams)
         (collectExpr parseExpr' n usedCols queryParams).
Proof. unfold collectExpr. repeat stable_step. Qed.

Lemma jsonValidateNode_body_stable n :
  stable (jsonValidateNode_body validateSelect validateUpdate validateInsert validateDelete n)
         (jsonValidateNode_body validateSelect' validateUpdate' validateInsert' validateDelete' n).
Proof.
  unfold jsonValidateNode_body. destruct (nodeType n) as [kind body]. repeat stable_step.
Qed.

Lemma jsonValidateSelect_body_stable sel :
  stable (jsonValidateSelect_body parseFromClause parseExpr parseCTE sel)
         (jsonValidateSelect_body parseFromClause' parseExpr' parseCTE' sel).
Proof.
  unfold jsonValidateSelect_body, selectFromItem, selectTarget.
  repeat first [apply parseWith_stable | apply collectExpr_stable | stable_step].
Qed.

Lemma addFromTables_stable usedTables it :
  stable (addFromTables getTables usedTables it) (addFromTables getTables' usedTables it).
Proof.
  unfold addFromTables.
  repeat first [simple apply stable_lift; apply HgetTables | stable_step].
Qed.

Lemma jsonValidateUpdate_body_stable up :
  stable (jsonValidateUpdate_body parseExpr parseCTE getTables up)
         (jsonValidateUpdate_body parseExpr' parseCTE' getTables' up).
Proof.
  unfold jsonValidateUpdate_body.
  repeat first [apply parseWith_stable | apply addFromTables_stable | stable_step].
Qed.

Lemma jsonValidateInsert_body_stable ins :
  stable (jsonValidateInsert_body validateSelect parseFromClause parseExpr parseCTE getTables ins)
         (jsonValidateInsert_body validateSelect' parseFromClause' parseExpr' parseCTE'
            getTables' ins).
Proof.
  unfold jsonValidateInsert_body, insertValuesRow, insertFromItem, insertSelectTarget.
  repeat first [apply parseWith_stable | apply collectExpr_stable
               | simple apply stable_lift; apply HgetTables | stable_step].
Qed.

Lemma jsonValidateDelete_body_stable del :
  stable (jsonValidateDelete_body parseExpr parseCTE del)
         (jsonValidateDelete_body parseExpr' parseCTE' del).
Proof.
  unfold jsonValidateDelete_body, deleteWhere.
  repeat first [apply parseWith_stable | stable_step].
Qed.

Lemma jsonParseFromClause_body_stable n re :
  stable (jsonParseFromClause_body validateSelect parseFromClause parseExpr n re)
         (jsonParseFromClause_body validateSelect' parseFromClause' parseExpr' n re).
Proof.
  unfold jsonParseFromClause_body.
  destruct n as [kvs|]; [|apply stable_refl].
  destruct (nodeType (Some kvs)) as [kind body].
  repeat stable_step.
Qed.

Lemma jsonParseExpr_body_stable n re :
  stable (jsonParseExpr_body validateSelect parseFromClause parseExpr n re)
         (jsonParseExpr_body validateSelect' parseFromClause' parseExpr' n re).
Proof.
  unfold jsonParseExpr_body, parseFirst.
  destruct n as [kvs|]; [|apply stable_refl].
  destruct (nodeType (Some kvs)) as [kind body].
  repeat stable_step.
Qed.

Lemma jsonParseCTE_body_stable w :
  stable (jsonParseCTE_body validateNode w) (jsonParseCTE_body validateNode' w).
Proof. unfold jsonParseCTE_body. repeat stable_step. Qed.

End BodiesStable.

Lemma getTablesLoop_stable (getTables getTables' : list any -> result (list TableUsed))
  (items : list any) (used : list TableUsed) :
  (forall l, getTables l <> OutOfFuel -> getTables' l = getTables l) ->
  getTablesLoop getTables items used <> OutOfFuel ->
  getTablesLoop getTables' items used = getTablesLoop getTables items used.
Proof.
  intros Hrec. revert used.
  induction items as [|it items IH]; intros used; simpl; [reflexivity|].
  destruct (asNode it) as [n|]; [|apply IH].
  destruct (asNode (index (Some n) "JoinExpr")) as [je|]; [|apply IH].
  specialize (Hrec [index (Some je) "larg"; index (Some je) "rarg"]).
  destruct (getTables _) as [more|e| |] eqn:Eg; intros H.
  - rewrite Hrec by discriminate. now apply IH.
  - now rewrite Hrec by discriminate.
  - now rewrite Hrec by discriminate.
  - now contradiction H.
Qed.

Lemma jsonGetTablesFromSelectStmt_stable (fuel : nat) (from : list any) :
  jsonGetTablesFromSelectStmt fuel from <> OutOfFuel ->
  jsonGetTablesFromSelectStmt (S fuel) from = jsonGetTablesFromSelectStmt fuel from.
Proof.
  revert from. induction fuel as [|fuel IH]; intros from H; [now contradiction H|].
  change (getTablesLoop (jsonGetTablesFromSelectStmt (S fuel)) from []
          = getTablesLoop (jsonGetTablesFromSelectStmt fuel) from []).
  apply getTablesLoop_stable; [exact IH|exact H].
Qed.

Lemma walker_stable (fuel : nat) :
  (forall n, stable (jsonValidateNode fuel n) (jsonValidateNode (S fuel) n)) /\
  (forall n, stable (jsonValidateSelect fuel n) (jsonValidateSelect (S fuel) n)) /\
  (forall n, stable (jsonValidateUpdate fuel n) (jsonValidateUpdate (S fuel) n)) /\
  (forall n, stable (jsonValidateInsert fuel n) (jsonValidateInsert (S fuel) n)) /\
  (forall n, stable (jsonValidateDelete fuel n) (jsonValidateDelete (S fuel) n)) /\
  (forall n re, stable (jsonParseFromClause fuel n re) (jsonParseFromClause (S fuel) n re)) /\
  (forall n re, stable (jsonParseExpr fuel n re) (jsonParseExpr (S fuel) n re)) /\
  (forall w, stable (jsonParseCTE fuel w) (jsonParseCTE (S fuel) w)).
Proof.
  induction fuel as [|fuel (Hnode & Hsel & Hupd & Hins & Hdel & Hfrom & Hexpr & Hcte)].
  - repeat match goal with |- _ /\ _ => split end; intros; apply stable_outOfFuel.
  - repeat match goal with |- _ /\ _ => split end; intros.
    + now apply jsonValidateNode_body_stable.
    + now apply jsonValidateSelect_body_stable.
    + apply jsonValidateUpdate_body_stable; auto using jsonGetTablesFromSelectStmt_stable.
    + apply jsonValidateInsert_body_stable; auto using jsonGetTablesFromSelectStmt_stable.
    + now apply jsonValidateDelete_body_stable.
    + now apply jsonParseFromClause_body_stable.
    + now apply jsonParseExpr_body_stable.
    + now apply jsonParseCTE_body_stable.
Qed.

Lemma jsonValidateQuery_stable (fuel : nat) (root : jsonNode) :
  stable (jsonValidateQuery fuel root) (jsonValidateQuery (S fuel) root).
Proof.
  unfold jsonValidateQuery.
  destruct (elems (asList (index root "stmts"))) as [|s [|s' rest]];
    try apply stable_refl.
  apply walker_stable.
Qed.

(** Once a validation has returned with some fuel, it returns the same
    with any larger amount. *)
Lemma fuel_monotone (fuel fuel' : nat) (root : jsonNode) :
  fuel <= fuel' ->
  stable (ValidateSqlQuery fuel root) (ValidateSqlQuery fuel' root) /\
  stable (ValidateSqlQueries fuel root) (ValidateSqlQueries fuel' root).
Proof.
  induction 1 as [|fuel' Hle [IH1 IH2]]; [split; apply stable_refl|].
  split.
  - eapply stable_trans; [exact IH1|].
    unfold ValidateSqlQuery. apply stable_bind; [apply jsonValidateQuery_stable|].
    intros a. apply stable_refl.
  - eapply stable_trans; [exact IH2|].
    unfold ValidateSqlQueries. apply stable_forM. intros acc x.
    apply stable_bind; [apply jsonValidateQuery_stable|].
    intros a. apply stable_refl.
Qed.

(** ** The fuel a tree needs *)

Lemma depth_assoc (k : string) (m : list (string * any)) (v : any) :
  assoc k m = Some v -> depth v + 1 <= depth (AMap m).
Proof.
  simpl. induction m as [|[k' v'] m IH]; simpl; [discriminate|].
  destruct (String.eqb k' k); intros H.
  - injection H as ->. lia.
  - specialize (IH H). lia.
Qed.

Lemma depth_index (n : jsonNode) (k : string) : depth (index n k) <= depthNode n - 1.
Proof.
  unfold index, index_ok. destruct n as [m|]; simpl; [|lia].
  destruct (assoc k m) as [v|] eqn:E; simpl; [|lia].
  apply depth_assoc in E. simpl in E. lia.
Qed.

Lemma depth_index_eq (n : jsonNode) (k : string) (v : any) :
  index n k = v -> depth v <= depthNode n - 1.
Proof. intros <-. apply depth_index. Qed.

Lemma depth_index_ok (n : jsonNode) (k : string) (v : any) :
  index_ok n k = Some v -> depth v <= depthNode n - 1.
Proof.
  intros H. pose proof (depth_index n k) as Hd. unfold index in Hd. now rewrite H in Hd.
Qed.

Lemma depthNode_asNode (v : any) : depthNode (asNode v) <= depth v.
Proof. destruct v; simpl; lia. Qed.

Lemma depthNode_asNode_Some (v : any) (m : list (string * any)) :
  asNode v = Some m -> depthNode (Some m) <= depth v.
Proof. intros H. rewrite <- H. apply depthNode_asNode. Qed.

Lemma depthNode_Some (m : list (string * any)) : 1 <= depthNode (Some m).
Proof. simpl. lia. Qed.

Lemma depth_In (l : list any) (x : any) : In x l -> depth x + 1 <= depth (AList l).
Proof.
  simpl. induction l as [|y l IH]; simpl; [tauto|].
  intros [->|H]; [lia|]. specialize (IH H). lia.
Qed.

Lemma depth_asList_elem (v x : any) : In x (elems (asList v)) -> depth x + 1 <= depth v.
Proof. destruct v; simpl; try tauto. apply depth_In. Qed.

Lemma depthNode_nodeType (n : jsonNode) (k : string) (body : jsonNode) :
  nodeType n = (k, body) -> depthNode body <= depthNode n - 1.
Proof.
  destruct n as [[|[k' v] m]|]; simpl; intros H; injection H as <- <-; simpl; try lia.
  pose proof (depthNode_asNode v). lia.
Qed.

Lemma depthNode_jNode (n : jsonNode) (keys : list string) (w : list (string * any)) :
  jNode n keys = Some w -> depthNode (Some w) <= depthNode n - 1.
Proof.
  induction keys as [|k keys IH]; cbn [jNode]; [discriminate|].
  destruct (asNode (index n k)) as [m|] eqn:E; [|exact IH].
  intros H. injection H as <-.
  pose proof (depthNode_asNode_Some _ _ E). pose proof (depth_index n k). lia.
Qed.

Lemma depthNode_jNode_le (n : jsonNode) (keys : list string) :
  depthNode (jNode n keys) <= depthNode n - 1.
Proof.
  destruct (jNode n keys) as [w|] eqn:E; [now apply depthNode_jNode in E|simpl; lia].
Qed.

Lemma depth_jList_elem (n : jsonNode) (keys : list string) (x : any) :
  In x (elems (jList n keys)) -> depth x + 2 <= depthNode n.
Proof.
  induction keys as [|k keys IH]; cbn [jList]; [simpl; tauto|].
  destruct (asList (index n k)) as [l|] eqn:E; [|exact IH].
  cbn [elems]. intros H.
  destruct (index n k) eqn:Ei; try discriminate. injection E as ->.
  pose proof (depth_In _ _ H). pose proof (depth_index n k) as Hd. rewrite Ei in Hd. lia.
Qed.

Lemma first_In (l : list any) (x : any) : first l = Some x -> In x l.
Proof. destruct l; simpl; [discriminate|]. intros H. injection H as ->. now left. Qed.

Lemma total_ret {A} (a : A) : total (ret a).
Proof. intros ctx. discriminate. Qed.

Lemma total_fail {A} (e : error) : total (@fail A e).
Proof. intros ctx. discriminate. Qed.

Lemma total_panic {A} : total (@panic A).
Proof. intros ctx. discriminate. Qed.

Lemma total_getCtx : total getCtx.
Proof. intros ctx. discriminate. Qed.

Lemma total_setInnerTable (name : string) (t : Table) : total (setInnerTable name t).
Proof. intros ctx. unfold setInnerTable. destruct (Tables (InnerSchema ctx)); discriminate. Qed.

Lemma total_validateTableM (tname : string) (b : bool) : total (validateTableM tname b).
Proof. intros ctx. unfold validateTableM. destruct (validateTable ctx tname b); discriminate. Qed.

Lemma checkColumns_total (usedTables : gmap string Table) (tables : list TableUsed)
  (cols : list ColumnUsed) :
  checkColumns usedTables tables cols <> OutOfFuel.
Proof.
  induction cols as [|c cols IH]; simpl; [discriminate|].
  destruct (checkColumn usedTables tables c) eqn:E; try discriminate; [exact IH|].
  unfold checkColumn in E.
  repeat match type of E with
         | (if ?b then _ else _) = _ => destruct b
         | match ?x with _ => _ end = _ => destruct x
         end; discriminate.
Qed.

Lemma total_validateTableColumnsM (tables : list TableUsed) (cols : list ColumnUsed) :
  total (validateTableColumnsM tables cols).
Proof.
  intros ctx. unfold validateTableColumnsM, validateTableColumns. simpl.
  destruct (Tables (ctxSchema ctx)); [|discriminate].
  destruct (Tables (InnerSchema ctx)); [|discriminate].
  destruct (collectUsedTables _ _ _ _); [discriminate|apply checkColumns_total].
Qed.

Lemma total_bind {A B} (m : M A) (k : A -> M B) :
  total m -> (forall a, total (k a)) -> total (bind m k).
Proof.
  intros Hm Hk ctx. unfold bind. specialize (Hm ctx).
  destruct (m ctx) as [[a|e| |] ctx1]; simpl in *; try discriminate; [apply Hk|tauto].
Qed.

Lemma total_wrapErr {A} (w : error -> error) (m : M A) : total m -> total (wrapErr w m).
Proof.
  intros Hm ctx. unfold wrapErr. specialize (Hm ctx).
  destruct (m ctx) as [[a|e| |] ctx1]; simpl in *; try discriminate; tauto.
Qed.

Lemma total_withUsedTables {A} (used : list TableUsed) (m : M A) :
  total m -> total (withUsedTables used m).
Proof.
  intros Hm ctx. unfold withUsedTables.
  specialize (Hm {| ctxSchema := ctxSchema ctx; InnerSchema := InnerSchema ctx;
                    UsedTables := used |}).
  destruct (m _) as [r ctx1]; simpl in *. exact Hm.
Qed.

Lemma total_lift {A} (r : result A) : r <> OutOfFuel -> total (lift r).
Proof. intros Hr ctx. exact Hr. Qed.

Lemma total_forM {A B} (f : B -> A -> M B) (l : list A) (acc : B) :
  (forall acc x, In x l -> total (f acc x)) -> total (forM f l acc).
Proof.
  revert acc. induction l as [|x l IH]; intros acc Hf; simpl; [apply total_ret|].
  apply total_bind; [apply Hf; now left|].
  intros acc'. apply IH. intros acc'' y Hy. apply Hf. now right.
Qed.

Lemma depth_jList (n : jsonNode) (keys : list string) :
  depth (AList (elems (jList n keys))) <= Nat.max 1 (depthNode n - 1).
Proof.
  induction keys as [|k keys IH]; cbn [jList]; [simpl; lia|].
  destruct (asList (index n k)) as [l|] eqn:E; [|exact IH].
  cbn [elems]. destruct (index n k) eqn:Ei; try discriminate. injection E as ->.
  pose proof (depth_index n k) as Hd. rewrite Ei in Hd. lia.
Qed.

Lemma depth_pair (a b : any) :
  depth (AList [a; b]) <= S (Nat.max (depth a) (depth b)).
Proof. simpl. lia. Qed.

Ltac note H :=
  let T := type of H in
  lazymatch goal with
  | _ : T |- _ => fail
  | _ => pose proof H
  end.

Ltac depth_facts :=
  repeat match goal with
         | H : index ?n ?k = ?v |- _ => note (depth_index_eq n k v H)
         | H : index_ok ?n ?k = Some ?v |- _ => note (depth_index_ok n k v H)
         | H : asNode ?v = Some ?m |- _ => note (depthNode_asNode_Some v m H)
         | H : jNode ?n ?keys = Some ?w |- _ => note (depthNode_jNode n keys w H)
         | H : In ?x (elems (jList ?n ?keys)) |- _ => note (depth_jList_elem n keys x H)
         | H : In ?x (elems (asList ?v)) |- _ => note (depth_asList_elem v x H)
         | H : first ?l = Some ?x |- _ => note (first_In l x H)
         | H : nodeType ?n = (?k, ?b) |- _ => note (depthNode_nodeType n k b H)
         | |- context [depthNode (Some ?m)] => note (depthNode_Some m)
         | _ : context [depthNode (Some ?m)] |- _ => note (depthNode_Some m)
         | |- context [asNode ?v] => note (depthNode_asNode v)
         | _ : context [asNode ?v] |- _ => note (depthNode_asNode v)
         | |- context [index ?n ?k] => note (depth_index n k)
         | _ : context [index ?n ?k] |- _ => note (depth_index n k)
         | |- context [depth (AList [?a; ?b])] => note (depth_pair a b)
         | |- context [depth (AList (elems (jList ?n ?keys)))] => note (depth_jList n keys)
         end.

Ltac depth_solve :=
  first [ match goal with
          | H : In _ (elems (asList ?v)) |- _ => simpl in H; contradiction
          end
        | depth_facts; cbn [depthNode] in *; lia ].

Ltac total_leaf :=
  lazymatch goal with
  | |- total (ret _) => simple apply total_ret
  | |- total (fail _) => simple apply total_fail
  | |- total panic => simple apply total_panic
  | |- total getCtx => simple apply total_getCtx
  | |- total (setInnerTable _ _) => simple apply total_setInnerTable
  | |- total (validateTableM _ _) => simple apply total_validateTableM
  | |- total (validateTableColumnsM _ _) => simple apply total_validateTableColumnsM
  end.

Ltac total_step :=
  cbv beta iota zeta;
  match goal with
  | |- total _ => total_leaf
  | |- total (bind _ _) => simple apply total_bind; [|intros ?]
  | |- total (forM _ _ _) => simple apply total_forM; intros ? ? ?
  | |- total (wrapErr _ _) => simple apply total_wrapErr
  | |- total (withUsedTables _ _) => simple apply total_withUsedTables
  | |- total (match ?x with _ => _ end) => destruct x eqn:?
  | |- total (if ?x then _ else _) => destruct x eqn:?
  | H : forall n, _ -> total (?f n) |- total (?f _) => simple apply H; depth_solve
  | H : forall n re, _ -> total (?f n re) |- total (?f _ _) => simple apply H; depth_solve
  | |- total ?m =>
      match m with context [match ?x with _ => _ end] => is_var x; destruct x end
  end.

Section BodiesTotal.

Variable validateNode validateSelect validateUpdate validateInsert validateDelete
  : jsonNode -> M (list QueryParam * list ColumnUsed).
Variable parseFromClause parseExpr : jsonNode -> ParseResult -> M ParseResult.
Variable parseCTE : jsonNode -> M unit.
Variable getTables : list any -> result (list TableUsed).
Variable fuel : nat.

Hypothesis HvalidateNode :
  forall n, 2 * depthNode n + 2 <= fuel -> total (validateNode n).
Hypothesis HvalidateSelect :
  forall n, 2 * depthNode n + 1 <= fuel -> total (validateSelect n).
Hypothesis HvalidateUpdate :
  forall n, 2 * depthNode n + 1 <= fuel -> total (validateUpdate n).
Hypothesis HvalidateInsert :
  forall n, 2 * depthNode n + 1 <= fuel -> total (validateInsert n).
Hypothesis HvalidateDelete :
  forall n, 2 * depthNode n + 1 <= fuel -> total (validateDelete n).
Hypothesis HparseFromClause :
  forall n re, 2 * depthNode n + 1 <= fuel -> total (parseFromClause n re).
Hypothesis HparseExpr :
  forall n re, 2 * depthNode n + 2 <= fuel -> total (parseExpr n re).
Hypothesis HparseCTE :
  forall w, 2 * depthNode w + 1 <= fuel -> total (parseCTE w).
Hypothesis HgetTables :
  forall l, depth (AList l) <= fuel -> getTables l <> OutOfFuel.

Lemma jsonValidateNode_body_total n :
  2 * depthNode n + 2 <= S fuel ->
  total (jsonValidateNode_body validateSelect validateUpdate validateInsert validateDelete n).
Proof.
  intros Hfuel. unfold jsonValidateNode_body.
  destruct (nodeType n) as [kind body] eqn:Hn.
  repeat total_step.
Qed.

Lemma parseWith_total stmt keys :
  2 * depthNode stmt + 1 <= S fuel -> total (parseWith parseCTE stmt keys).
Proof. intros Hfuel. unfold parseWith. repeat total_step. Qed.

Lemma collectExpr_total n usedCols queryParams :
  2 * depthNode n + 2 <= fuel -> total (collectExpr parseExpr n usedCols queryParams).
Proof. intros Hfuel. unfold collectExpr. repeat total_step. Qed.

Lemma jsonValidateSelect_body_total sel :
  2 * depthNode sel + 1 <= S fuel ->
  total (jsonValidateSelect_body parseFromClause parseExpr parseCTE sel).
Proof.
  intros Hfuel. unfold jsonValidateSelect_body, selectFromItem, selectTarget.
  repeat first [ simple apply parseWith_total; assumption
               | simple apply collectExpr_total; depth_solve
               | total_step ].
Qed.

Lemma addFromTables_total usedTables it :
  depth it + 2 <= fuel -> total (addFromTables getTables usedTables it).
Proof.
  intros Hfuel. unfold addFromTables.
  repeat first [ simple apply total_lift; apply HgetTables; depth_solve | total_step ].
Qed.

Lemma jsonValidateUpdate_body_total up :
  2 * depthNode up + 1 <= S fuel ->
  total (jsonValidateUpdate_body parseExpr parseCTE getTables up).
Proof.
  intros Hfuel. unfold jsonValidateUpdate_body.
  repeat first [ simple apply parseWith_total; assumption
               | simple apply addFromTables_total; depth_solve
               | total_step ].
Qed.

Lemma jsonValidateInsert_body_total ins :
  2 * depthNode ins + 1 <= S fuel ->
  total (jsonValidateInsert_body validateSelect parseFromClause parseExpr parseCTE
           getTables ins).
Proof.
  intros Hfuel.
  unfold jsonValidateInsert_body, insertValuesRow, insertFromItem, insertSelectTarget.
  pose proof (depthNode_jNode_le ins ["select_stmt"; "selectStmt"]) as HselNode.
  destruct (asNode (index (jNode ins ["select_stmt"; "selectStmt"]) "SelectStmt"))
    as [s|] eqn:Hsel.
  all: repeat first [ match goal with
                      | |- context [index_ok ?n "values_lists"] =>
                          destruct (index_ok n "values_lists") eqn:?
                      end
                    | simple apply parseWith_total; assumption
                    | simple apply collectExpr_total; depth_solve
                    | simple apply total_lift; apply HgetTables; depth_solve
                    | total_step ].
Qed.

Lemma jsonValidateDelete_body_total del :
  2 * depthNode del + 1 <= S fuel ->
  total (jsonValidateDelete_body parseExpr parseCTE del).
Proof.
  intros Hfuel. unfold jsonValidateDelete_body, deleteWhere.
  repeat first [ simple apply parseWith_total; assumption | total_step ].
Qed.

Lemma jsonParseFromClause_body_total n re :
  2 * depthNode n + 1 <= S fuel ->
  total (jsonParseFromClause_body validateSelect parseFromClause parseExpr n re).
Proof.
  intros Hfuel. unfold jsonParseFromClause_body, registerSubselect.
  destruct n as [kvs|]; [|apply total_ret].
  destruct (nodeType (Some kvs)) as [kind body] eqn:Hn.
  repeat total_step.
Qed.

Lemma jsonParseExpr_body_total n re :
  2 * depthNode n + 2 <= S fuel ->
  total (jsonParseExpr_body validateSelect parseFromClause parseExpr n re).
Proof.
  intros Hfuel. unfold jsonParseExpr_body, parseFirst.
  destruct n as [kvs|]; [|apply total_ret].
  destruct (nodeType (Some kvs)) as [kind body] eqn:Hn.
  repeat first [ match goal with
                 | |- context [jList (match asNode ?v with Some _ => _ | None => _ end) _] =>
                     destruct (asNode v) eqn:?
                 end
               | total_step ].
Qed.

Lemma jsonParseCTE_body_total w :
  2 * depthNode w + 1 <= S fuel -> total (jsonParseCTE_body validateNode w).
Proof. intros Hfuel. unfold jsonParseCTE_body. repeat total_step. Qed.

End BodiesTotal.

Lemma getTablesLoop_total (getTables : list any -> result (list TableUsed)) (fuel : nat)
  (items : list any) (used : list TableUsed) :
  (forall l, depth (AList l) <= fuel -> getTables l <> OutOfFuel) ->
  depth (AList items) <= S fuel ->
  getTablesLoop getTables items used <> OutOfFuel.
Proof.
  intros Hrec. revert used.
  induction items as [|it items IH]; intros used Hfuel; cbn [getTablesLoop]; [discriminate|].
  assert (Hit : depth it + 1 <= depth (AList (it :: items))) by (apply depth_In; now left).
  assert (Hitems : depth (AList items) <= depth (AList (it :: items))) by (simpl; lia).
  destruct (asNode it) as [n|] eqn:En; [|apply IH; lia].
  cbv zeta.
  destruct (asNode (index (Some n) "JoinExpr")) as [je|] eqn:Ej; [|apply IH; lia].
  assert (Hje : getTables [index (Some je) "larg"; index (Some je) "rarg"] <> OutOfFuel).
  { apply Hrec. depth_solve. }
  destruct (getTables _); try discriminate; [apply IH; lia|tauto].
Qed.

Lemma jsonGetTablesFromSelectStmt_total (fuel : nat) (from : list any) :
  depth (AList from) <= fuel -> jsonGetTablesFromSelectStmt fuel from <> OutOfFuel.
Proof.
  revert from. induction fuel as [|fuel IH]; intros from Hfuel.
  - simpl in Hfuel. lia.
  - cbn [jsonGetTablesFromSelectStmt]. now apply getTablesLoop_total with (fuel := fuel).
Qed.

Lemma walker_total (fuel : nat) :
  (forall n, 2 * depthNode n + 2 <= fuel -> total (jsonValidateNode fuel n)) /\
  (forall n, 2 * depthNode n + 1 <= fuel -> total (jsonValidateSelect fuel n)) /\
  (forall n, 2 * depthNode n + 1 <= fuel -> total (jsonValidateUpdate fuel n)) /\
  (forall n, 2 * depthNode n + 1 <= fuel -> total (jsonValidateInsert fuel n)) /\
  (forall n, 2 * depthNode n + 1 <= fuel -> total (jsonValidateDelete fuel n)) /\
  (forall n re, 2 * depthNode n + 1 <= fuel -> total (jsonParseFromClause fuel n re)) /\
  (forall n re, 2 * depthNode n + 2 <= fuel -> total (jsonParseExpr fuel n re)) /\
  (forall w, 2 * depthNode w + 1 <= fuel -> total (jsonParseCTE fuel w)).
Proof.
  induction fuel as [|fuel (Hnode & Hsel & Hupd & Hins & Hdel & Hfrom & Hexpr & Hcte)].
  - repeat match goal with |- _ /\ _ => split end; intros; lia.
  - repeat match goal with |- _ /\ _ => split end; intros.
    + eapply jsonValidateNode_body_total; eassumption.
    + eapply jsonValidateSelect_body_total; eassumption.
    + eapply jsonValidateUpdate_body_total;
        eauto using jsonGetTablesFromSelectStmt_total.
    + eapply jsonValidateInsert_body_total;
        eauto using jsonGetTablesFromSelectStmt_total.
    + eapply jsonValidateDelete_body_total; eassumption.
    + eapply jsonParseFromClause_body_total; eassumption.
    + eapply jsonParseExpr_body_total; eassumption.
    + eapply jsonParseCTE_body_total; eassumption.
Qed.

Lemma jsonValidateQuery_total (fuel : nat) (root : jsonNode) :
  2 * depthNode root <= fuel -> total (jsonValidateQuery fuel root).
Proof.
  intros Hfuel. unfold jsonValidateQuery.
  destruct (elems (asList (index root "stmts"))) as [|s [|s' rest]] eqn:Hs;
    try apply total_fail.
  assert (Hin : In s (elems (asList (index root "stmts")))) by (rewrite Hs; now left).
  apply walker_total. depth_solve.
Qed.

(** Fuel above twice the depth of the tree is enough: the validation
    returns, with values, with an error or with a panic. *)
Lemma fuel_enough (fuel : nat) (root : jsonNode) :
  2 * depthNode root <= fuel ->
  total (ValidateSqlQuery fuel root) /\ total (ValidateSqlQueries fuel root).
Proof.
  intros Hfuel. split.
  - unfold ValidateSqlQuery.
    apply total_bind; [now apply jsonValidateQuery_total|].
    intros [params cols]. apply total_ret.
  - unfold ValidateSqlQueries.
    apply total_forM. intros acc s Hin.
    apply total_bind; [|intros [qp cols]; apply total_ret].
    change (total (jsonValidateNode fuel (asNode (index (asNode s) "stmt")))).
    apply walker_total. depth_solve.
Qed.

(** Every tree has one result, which any sufficient amount of fuel
    returns. *)
Lemma validation_result (root : jsonNode) (ctx : VetContext) :
  exists r ctx',
    r <> OutOfFuel /\
    forall fuel, 2 * depthNode root <= fuel -> ValidateSqlQuery fuel root ctx = (r, ctx').
Proof.
  destruct (ValidateSqlQuery (2 * depthNode root) root ctx) as [r ctx'] eqn:E.
  assert (Hr : r <> OutOfFuel).
  { pose proof (proj1 (fuel_enough _ root (le_n _)) ctx) as H. now rewrite E in H. }
  exists r, ctx'. split; [exact Hr|].
  intros fuel Hfuel.
  rewrite (proj1 (fuel_monotone _ _ root Hfuel) ctx); [exact E|].
  now rewrite E.
Qed.

(** ** Running a step whose first part is known *)

Lemma bind_ok {A B} (m : M A) (k : A -> M B) (ctx ctx1 : VetContext) (a : A) :
  m ctx = (Ok a, ctx1) -> bind m k ctx = k a ctx1.
Proof. intros H. unfold bind. now rewrite H. Qed.

Lemma bind_err {A B} (m : M A) (k : A -> M B) (ctx ctx1 : VetContext) (e : error) :
  m ctx = (Err e, ctx1) -> bind m k ctx = (Err e, ctx1).
Proof. intros H. unfold bind. now rewrite H. Qed.

Lemma parseWith_frame (fuel : nat) (stmt : jsonNode) (keys : list string)
  (ctx ctx1 : VetContext) (r : result unit) :
  parseWith (jsonParseCTE fuel) stmt keys ctx = (r, ctx1) -> frame ctx ctx1.
Proof.
  intros H.
  pose proof (parseWith_sat (jsonParseCTE fuel) (proj2 (proj2 (proj2 (proj2 (proj2
                (proj2 (proj2 (walker_sat fuel)))))))) stmt keys ctx) as [Hf _].
  now rewrite H in Hf.
Qed.

(** ** C1: statement kinds outside SELECT, UPDATE, INSERT and DELETE *)

Lemma jsonValidateNode_unsupported (fuel : nat) (ctx : VetContext) (kind : string)
  (v : any) (rest : list (string * any)) :
  ~ In kind supportedKinds ->
  jsonValidateNode (S fuel) (Some ((kind, v) :: rest)) ctx
  = (Err (UnsupportedStatement kind), ctx).
Proof.
  intros Hk. simpl. unfold jsonValidateNode_body. simpl.
  unfold supportedKinds in Hk. simpl in Hk.
  destruct (String.eqb_spec kind "SelectStmt"); [exfalso; apply Hk; subst; auto 6|].
  destruct (String.eqb_spec kind "UpdateStmt"); [exfalso; apply Hk; subst; auto 6|].
  destruct (String.eqb_spec kind "InsertStmt"); [exfalso; apply Hk; subst; auto 6|].
  destruct (String.eqb_spec kind "DeleteStmt"); [exfalso; apply Hk; subst; auto 6|].
  reflexivity.
Qed.

(** C1 (as amended).  Every top-level statement whose kind is not one of
    SelectStmt, UpdateStmt, InsertStmt, DeleteStmt is rejected with the
    "unsupported statement" error naming the kind, and the context is
    left as it was; this holds in particular for DropStmt, TruncateStmt,
    AlterTableStmt, CreateSchemaStmt and VariableSetStmt, for which the
    dispatch has no case. *)
Theorem C1_other_kinds_unsupported (fuel : nat) (ctx : VetContext) (root : jsonNode)
  (s v : any) (kind : string) (rest : list (string * any)) :
  elems (asList (index root "stmts")) = [s] ->
  asNode (index (asNode s) "stmt") = Some ((kind, v) :: rest) ->
  (~ In kind supportedKinds \/ In kind acceptedKinds) ->
  jsonValidateQuery (S fuel) root ctx = (Err (UnsupportedStatement kind), ctx).
Proof.
  intros Hstmts Hstmt Hkind.
  unfold jsonValidateQuery. rewrite Hstmts, Hstmt.
  apply jsonValidateNode_unsupported.
  destruct Hkind as [Hk|Hk]; [exact Hk|].
  unfold acceptedKinds, supportedKinds in *. simpl in *.
  intros Hs.
  repeat match goal with
         | H : _ \/ _ |- _ => destruct H
         | H : False |- _ => destruct H
         end; subst; discriminate.
Qed.

Lemma C1_other_kinds_unsupported_witness :
  jsonValidateQuery 1 Ex.dropTable exampleCtx
  = (Err (UnsupportedStatement "DropStmt"), exampleCtx).
Proof.
  eapply (C1_other_kinds_unsupported 0 exampleCtx Ex.dropTable).
  - reflexivity.
  - reflexivity.
  - right. simpl. tauto.
Defined.

(** C1, the claim as stated fails: validating [DROP TABLE users]
    returns the "unsupported statement" error, not empty parameters. *)
Lemma C1_counterexample :
  fst (jsonValidateQuery 10 Ex.dropTable exampleCtx) = Err (UnsupportedStatement "DropStmt") /\
  fst (jsonValidateQuery 10 Ex.dropTable exampleCtx) <> Ok ([], []).
Proof. split; [reflexivity|discriminate]. Qed.

(** ** C2: the parameters of a CTE *)

Lemma jsonValidateSelect_with_only (fuel : nat) (w : any) (ctx : VetContext) :
  match fst (jsonValidateSelect (S fuel) (Some [("withClause", w)]) ctx) with
  | Ok (qp, _) => qp = []
  | _ => True
  end.
Proof.
  simpl. unfold jsonValidateSelect_body.
  unfold bind at 1. simpl.
  unfold bind at 1.
  destruct (parseWith _ _ _ ctx) as [[[]|e| |] ctx1]; simpl; trivial.
  unfold bind, validateTableColumnsM; simpl.
  destruct (validateTableColumns ctx1 _ _) as [[]|e| |]; simpl; trivial.
Qed.

(** C2 (the code departs from the claim).  A CTE is validated
    recursively, but [jsonParseCTE] drops the parameters of its statement:
    the query of the specification's scenario 6 validates with the
    parameters [[2]], not [[1,2]]; and whatever the CTEs of a SELECT
    contain, a SELECT with nothing but a WITH clause returns no
    parameter. *)
Theorem C2_cte_params_dropped :
  fst (ValidateSqlQuery 10 (Ast.root [Ex.withRecent]) exampleCtx) = Ok [Ex.p 2] /\
  (forall fuel w ctx,
     match fst (jsonValidateSelect (S fuel) (Some [("withClause", w)]) ctx) with
     | Ok (qp, _) => qp = []
     | _ => True
     end).
Proof. split; [reflexivity|apply jsonValidateSelect_with_only]. Qed.

(** ** C3: LATERAL and the preceding siblings *)

(** C3 (the code departs from the claim).  Each item of the FROM list
    is parsed into a [ParseResult] of its own, so a LATERAL derived table
    that is an item of the list sees no sibling: the query of the
    specification's scenario 8 fails with "table `u` not available for
    query".  Siblings are seen only inside one JoinExpr, as in the
    [JOIN LATERAL] form of the same query.  In general the sub-select of
    a LATERAL item of the FROM list is validated with an empty
    [UsedTables]: neither the preceding items nor the tables inherited
    through the context are in its scope. *)
Theorem C3_lateral_sibling_not_in_scope :
  fst (ValidateSqlQuery 10 Ex.lateralSibling exampleCtx) = Err (TableUnavailable "u") /\
  fst (ValidateSqlQuery 10 Ex.lateralJoin exampleCtx) = Ok [] /\
  (forall fuel body rest acc ctx,
     if getBoolField (Some body) "lateral" then
       selectFromItem (jsonParseFromClause (S fuel)) acc
         (AMap (("RangeSubselect", AMap body) :: rest)) ctx
       = (let '(usedCols, localTables, localContextTables, queryParams) := acc in
          let subq := asNode (index (asNode (index (Some body) "subquery")) "SelectStmt") in
          let* (qp, targetCols) := withUsedTables [] (jsonValidateSelect fuel subq) in
          let* re :=
            registerSubselect (Some body)
              (setPostponedNodes emptyParseResult (Some [])) qp targetCols in
          ret (appendIf usedCols (Columns re),
               appendIf localTables (ParseResult_Tables re),
               if nonempty (ParseResult_Tables re)
               then localContextTables ++ List.filter hasAlias (ParseResult_Tables re)
               else localContextTables,
               addParamsIf queryParams (Params re))) ctx
     else True).
Proof.
  split; [reflexivity|]. split; [reflexivity|].
  intros fuel body rest [[[usedCols localTables] localContextTables] queryParams] ctx.
  destruct (getBoolField (Some body) "lateral") eqn:Hlat; [|trivial].
  unfold selectFromItem. cbn [asNode jsonParseFromClause].
  unfold jsonParseFromClause_body. cbn [nodeType asNode].
  cbn [String.eqb Ascii.eqb Bool.eqb].
  rewrite Hlat. cbn [PostponedNodes emptyParseResult ParseResult_Tables setPostponedNodes].
  unfold bind.
  destruct (withUsedTables _ _ ctx) as [[[qp targetCols]|e| |] ctx1]; reflexivity.
Qed.

(** ** C4: a values list that is not a List node *)

(** C4 (the code departs from the claim).  The type assertion on the
    entries of [values_lists] has no comma-ok form: an entry that is not
    a [List] wrapper makes [jsonValidateInsert] panic, whatever the
    context and the state of the parameters collected so far. *)
Theorem C4_insert_values_panics :
  fst (ValidateSqlQuery 10 Ex.insertBareRow exampleCtx) = Panic /\
  (forall parseExpr targetCols acc row ctx,
     match index (asNode row) "List" with
     | AMap _ => True
     | _ => insertValuesRow parseExpr targetCols acc row ctx = (Panic, ctx)
     end).
Proof.
  split; [reflexivity|].
  intros parseExpr targetCols acc row ctx.
  unfold insertValuesRow.
  destruct (index (asNode row) "List"); trivial.
Qed.

(** ** C5: what a validation leaves in the context *)


(** *** The table checks, by their errors *)

Lemma collectUsedTables_resolved (inner outer : gmap string Table) (tables : list TableUsed) :
  forall acc,
    match collectUsedTables inner outer tables acc with
    | inr _ => forall tu, In tu tables -> is_Some (lookupTable inner outer (TableUsed_Name tu))
    | inl e =>
        exists pre tu post,
          tables = pre ++ tu :: post /\ e = InvalidTable (TableUsed_Name tu) /\
          lookupTable inner outer (TableUsed_Name tu) = None /\
          forall tu', In tu' pre -> is_Some (lookupTable inner outer (TableUsed_Name tu'))
    end.
Proof.
  induction tables as [|tu rest IH]; intros acc; simpl.
  - intros tu [].
  - fold (lookupTable inner outer (TableUsed_Name tu)).
    destruct (lookupTable inner outer (TableUsed_Name tu)) as [t|] eqn:Hl.
    + match goal with |- context [collectUsedTables _ _ rest ?a] => specialize (IH a) end.
      destruct (collectUsedTables inner outer rest _) as [e|m].
      * destruct IH as (pre & tu' & post & -> & -> & Hn & Hpre).
        exists (tu :: pre), tu', post. repeat split; trivial.
        intros x [<-|Hx]; [rewrite Hl; eauto|now apply Hpre].
      * intros x [<-|Hx]; [rewrite Hl; eauto|now apply IH].
    + exists [], tu, rest. repeat split; trivial. intros x [].
Qed.

Lemma checkColumn_error (usedTables : gmap string Table) (tables : list TableUsed)
  (col : ColumnUsed) (e : error) :
  checkColumn usedTables tables col = Err e ->
  (e = TableUnavailable (ColumnUsed_Table col) /\ ColumnUsed_Table col <> "" /\
   usedTables !! ColumnUsed_Table col = None) \/
  (exists t, e = ColumnNotFound (ColumnUsed_Column col) t) \/
  e = ColumnNotFoundAny (ColumnUsed_Column col).
Proof.
  unfold checkColumn.
  destruct (negb (ColumnUsed_Table col =? "")) eqn:Hq.
  - apply negb_true_iff, String.eqb_neq in Hq.
    destruct (usedTables !! ColumnUsed_Table col) as [t|] eqn:Ht.
    + destruct (hasColumn t _); [discriminate|]. intros [= <-]. right. left. eauto.
    + intros [= <-]. left. auto.
  - destruct (existsb _ _); [discriminate|].
    destruct (Nat.eqb _ 1).
    + destruct tables; [discriminate|]. intros [= <-]. right. left. eauto.
    + intros [= <-]. right. right. reflexivity.
Qed.

Lemma checkColumns_error (usedTables : gmap string Table) (tables : list TableUsed)
  (cols : list ColumnUsed) (e : error) :
  checkColumns usedTables tables cols = Err e ->
  exists col, In col cols /\ checkColumn usedTables tables col = Err e.
Proof.
  induction cols as [|col rest IH]; simpl; [discriminate|].
  destruct (checkColumn usedTables tables col) as [[]|e'| |] eqn:E; try discriminate.
  - intros H. apply IH in H as (c & Hin & Hc). exists c. auto.
  - intros [= <-]. exists col. auto.
Qed.

(** *** A registered table stays registered *)

Lemma hasTable_frame (name : string) (ctx ctx' : VetContext) :
  frame ctx ctx' -> hasTable name ctx -> hasTable name ctx'.
Proof.
  intros (_ & _ & Hg). unfold hasTable, innerGrows in *.
  destruct (Tables (InnerSchema ctx)) as [m|], (Tables (InnerSchema ctx')) as [m'|];
    try tauto.
  rewrite <- !elem_of_dom. set_solver.
Qed.

Lemma keeps_of_sat {A} (name : string) (m : M A) (Q : A -> Prop) : sat m Q -> keeps name m.
Proof. intros Hm ctx. apply hasTable_frame, Hm. Qed.

Section Keeps.

Variable name : string.
















Lemma adds_wrapErr {A} (w : error -> error) (m : M A) :
  adds name m -> adds name (wrapErr w m).
Proof.
  intros Hm ctx. unfold wrapErr. specialize (Hm ctx).
  destruct (m ctx) as [[a|e| |] ctx1]; simpl in *; trivial.
Qed.


End Keeps.



Section BodiesKeep.

Variable name : string.
Variable validateNode validateSelect validateUpdate validateInsert validateDelete
  : jsonNode -> M (list QueryParam * list ColumnUsed).
Variable parseFromClause parseExpr : jsonNode -> ParseResult -> M ParseResult.
Variable parseCTE : jsonNode -> M unit.
Variable getTables : list any -> result (list TableUsed).

Hypothesis HvalidateNode : forall n, keeps name (validateNode n).
Hypothesis HvalidateSelect : forall n, keeps name (validateSelect n).
Hypothesis HvalidateUpdate : forall n, keeps name (validateUpdate n).
Hypothesis HvalidateInsert : forall n, keeps name (validateInsert n).
Hypothesis HvalidateDelete : forall n, keeps name (validateDelete n).
Hypothesis HparseFromClause : forall n re, keeps name (parseFromClause n re).
Hypothesis HparseExpr : forall n re, keeps name (parseExpr n re).
Hypothesis HparseCTE : forall w, keeps name (parseCTE w).









End BodiesKeep.















Lemma entry_points_keep (name : string) (fuel : nat) (root : jsonNode) :
  keeps name (ValidateSqlQuery fuel root) /\ keeps name (ValidateSqlQueries fuel root).
Proof.
  split.
  - eapply keeps_of_sat, ValidateSqlQuery_sat.
  - eapply keeps_of_sat, ValidateSqlQueries_sat.
Qed.





(** ** C6: the returned parameters are strictly ascending *)







(** ** C7: DELETE requires a WHERE clause that names a column *)

Lemma validateTableM_ok (ctx : VetContext) (tname : string) (notReadOnly : bool) :
  validateTable ctx tname notReadOnly = None ->
  validateTableM tname notReadOnly ctx = (Ok tt, ctx).
Proof. intros H. unfold validateTableM. now rewrite H. Qed.

Lemma validateTableM_err (ctx : VetContext) (tname : string) (notReadOnly : bool)
  (e : error) :
  validateTable ctx tname notReadOnly = Some e ->
  validateTableM tname notReadOnly ctx = (Err e, ctx).
Proof. intros H. unfold validateTableM. now rewrite H. Qed.

(** C7 (as amended).  For a DELETE whose WITH clause, if any, is
    processed without error and whose target table passes
    [validateTable]: without a WHERE clause the validation fails with
    "no WHERE clause for DELETE"; with a WHERE clause that the walker
    accepts and that yields no column it fails with "no columns in
    DELETE's WHERE clause".  (The WITH clause and the target table are
    checked first, and their errors come first.) *)
Theorem C7_delete_requires_where (fuel : nat) (del : jsonNode) (ctx ctx1 : VetContext) :
  parseWith (jsonParseCTE fuel) del ["with_clause"; "withClause"] ctx = (Ok tt, ctx1) ->
  validateTable ctx1 (targetTable del) true = None ->
  (jNode del ["where_clause"; "whereClause"] = None ->
   jsonValidateDelete (S fuel) del ctx = (Err MissingWhere, ctx1)) /\
  (forall wc re ctx2,
     jNode del ["where_clause"; "whereClause"] = Some wc ->
     jsonParseExpr fuel (Some wc) emptyParseResult ctx1 = (Ok re, ctx2) ->
     Columns re = [] ->
     jsonValidateDelete (S fuel) del ctx = (Err EmptyWherePredicate, ctx2)).
Proof.
  intros Hwith Htable.
  split.
  - intros Hwhere. simpl. unfold jsonValidateDelete_body.
    rewrite (bind_ok _ _ _ _ _ Hwith).
    rewrite (bind_ok _ _ _ _ _ (validateTableM_ok _ _ _ Htable)).
    apply bind_err. unfold deleteWhere. now rewrite Hwhere.
  - intros wc re ctx2 Hwhere Hexpr Hcols. simpl. unfold jsonValidateDelete_body.
    rewrite (bind_ok _ _ _ _ _ Hwith).
    rewrite (bind_ok _ _ _ _ _ (validateTableM_ok _ _ _ Htable)).
    apply bind_err. unfold deleteWhere. rewrite Hwhere.
    erewrite bind_ok.
    + rewrite Hcols. reflexivity.
    + unfold wrapErr. now rewrite Hexpr.
Qed.

Lemma C7_delete_requires_where_witness :
  jsonValidateDelete 3 (Some [("relation", AMap (Ast.rel "users"))]) exampleCtx
  = (Err MissingWhere, exampleCtx) /\
  jsonValidateDelete 3
    (Some [("relation", AMap (Ast.rel "users"));
           ("whereClause", Ast.op "=" (Ast.const 1) (Ast.const 1))]) exampleCtx
  = (Err EmptyWherePredicate, exampleCtx).
Proof.
  split.
  - apply (proj1 (C7_delete_requires_where 2 (Some [("relation", AMap (Ast.rel "users"))])
                    exampleCtx exampleCtx eq_refl eq_refl)).
    reflexivity.
  - eapply (proj2 (C7_delete_requires_where 2
                     (Some [("relation", AMap (Ast.rel "users"));
                            ("whereClause", Ast.op "=" (Ast.const 1) (Ast.const 1))])
                     exampleCtx exampleCtx eq_refl eq_refl)).
    + reflexivity.
    + reflexivity.
    + reflexivity.
Defined.

(** C7, the claim as stated fails: [DELETE FROM active_users] has no
    WHERE clause, and its validation fails with "read-only table", not
    with "no WHERE clause for DELETE". *)
Lemma C7_counterexample :
  fst (ValidateSqlQuery 10 Ex.deleteActiveUsers exampleCtx) = Err (ReadOnlyTable "active_users") /\
  fst (ValidateSqlQuery 10 Ex.deleteActiveUsers exampleCtx) <> Err MissingWhere.
Proof. split; [reflexivity|discriminate]. Qed.

(** ** C8: writing to a read-only table *)

Lemma validateTable_read_only (ctx : VetContext) (tables : gmap string Table)
  (tname : string) (t : Table) :
  Tables (ctxSchema ctx) = Some tables ->
  tables !! tname = Some t ->
  Table_ReadOnly t = true ->
  validateTable ctx tname true = Some (ReadOnlyTable tname).
Proof.
  intros Hs Ht Hro. unfold validateTable. rewrite Hs, Ht, Hro. reflexivity.
Qed.

(** C8 (as amended).  For an INSERT, an UPDATE or a DELETE whose WITH
    clause, if any, is processed without error and whose target table
    is in the schema with [read_only = true], the validation fails with
    "read-only table" naming the target.  (The WITH clause is processed
    before the target is looked at, and its error comes first.) *)
Theorem C8_read_only_target (fuel : nat) (stmt : jsonNode) (ctx ctx1 : VetContext)
  (tables : gmap string Table) (t : Table) :
  parseWith (jsonParseCTE fuel) stmt ["with_clause"; "withClause"] ctx = (Ok tt, ctx1) ->
  Tables (ctxSchema ctx) = Some tables ->
  tables !! targetTable stmt = Some t ->
  Table_ReadOnly t = true ->
  jsonValidateInsert (S fuel) stmt ctx = (Err (ReadOnlyTable (targetTable stmt)), ctx1) /\
  jsonValidateUpdate (S fuel) stmt ctx = (Err (ReadOnlyTable (targetTable stmt)), ctx1) /\
  jsonValidateDelete (S fuel) stmt ctx = (Err (ReadOnlyTable (targetTable stmt)), ctx1).
Proof.
  intros Hwith Hs Ht Hro.
  assert (Hv : validateTable ctx1 (targetTable stmt) true
               = Some (ReadOnlyTable (targetTable stmt))).
  { apply validateTable_read_only with (tables := tables) (t := t); try assumption.
    apply parseWith_frame in Hwith as [-> _]. exact Hs. }
  repeat split; simpl.
  - unfold jsonValidateInsert_body.
    rewrite (bind_ok _ _ _ _ _ Hwith).
    apply bind_err. now apply validateTableM_err.
  - unfold jsonValidateUpdate_body.
    rewrite (bind_ok _ _ _ _ _ Hwith).
    apply bind_err. now apply validateTableM_err.
  - unfold jsonValidateDelete_body.
    rewrite (bind_ok _ _ _ _ _ Hwith).
    apply bind_err. now apply validateTableM_err.
Qed.

Lemma C8_read_only_target_witness :
  jsonValidateUpdate 3 (Some Ex.updateActiveUsers) exampleCtx
  = (Err (ReadOnlyTable "active_users"), exampleCtx).
Proof.
  refine (proj1 (proj2 (C8_read_only_target 2 (Some Ex.updateActiveUsers) exampleCtx exampleCtx
                          exampleTables (mkTable "active_users" ["id"; "name"] true)
                          eq_refl eq_refl _ eq_refl))).
  vm_compute. reflexivity.
Defined.

(** C8, the claim as stated fails: the target of
    [WITH c AS (SELECT zzz FROM users) UPDATE active_users ...] is
    read-only, and the validation fails with the error of the CTE, not
    with "read-only table". *)
Lemma C8_counterexample :
  fst (ValidateSqlQuery 10 Ex.updateAfterBadCte exampleCtx) = Err (ColumnNotFound "zzz" "users") /\
  (forall tname, fst (ValidateSqlQuery 10 Ex.updateAfterBadCte exampleCtx)
                 <> Err (ReadOnlyTable tname)).
Proof. split; [reflexivity|]. intros tname. vm_compute. discriminate. Qed.

(** ** C9: the arguments of BoolExpr and CoalesceExpr *)

(** C9 (the code departs from the claim).  For a BoolExpr and for a
    CoalesceExpr the walker parses [args[0]] and returns: the result is
    that of the first argument alone, whatever the other arguments are.
    A placeholder and an unknown column in a second argument go
    unnoticed, where the [List] case visits every item. *)
Theorem C9_only_first_arg_walked :
  (forall fuel kind body a0 rest re ctx,
     kind = "BoolExpr" \/ kind = "CoalesceExpr" ->
     asList (index (asNode body) "args") = Some (a0 :: rest) ->
     jsonParseExpr (S fuel) (Some [(kind, body)]) re ctx
     = jsonParseExpr fuel (asNode a0) re ctx) /\
  fst (ValidateSqlQuery 10 Ex.andSecondArg exampleCtx) = Ok [Ex.p 1] /\
  fst (ValidateSqlQuery 10 Ex.coalesceSecondArg exampleCtx) = Ok [Ex.p 1].
Proof.
  split; [|split; reflexivity].
  intros fuel kind body a0 rest re ctx Hkind Hargs.
  destruct Hkind as [-> | ->]; simpl; unfold jsonParseExpr_body; simpl;
    rewrite Hargs; reflexivity.
Qed.

Lemma C9_only_first_arg_walked_witness :
  jsonParseExpr 3
    (Some [("BoolExpr",
            AMap [("boolop", AStr "AND_EXPR");
                  ("args", AList [Ast.param 1 0; Ast.param 2 0])])])
    emptyParseResult exampleCtx
  = jsonParseExpr 2 (asNode (Ast.param 1 0)) emptyParseResult exampleCtx.
Proof.
  apply (proj1 C9_only_first_arg_walked 2 "BoolExpr"
           (AMap [("boolop", AStr "AND_EXPR"); ("args", AList [Ast.param 1 0; Ast.param 2 0])])
           (Ast.param 1 0) [Ast.param 2 0] emptyParseResult exampleCtx).
  - left. reflexivity.
  - reflexivity.
Defined.

(** ** C10: a context without declared schema *)

(** C10.  When the outer Schema has a nil table map, [validateTable]
    and [validateTableColumns] succeed on every input, and no validation
    started from that context fails with an invalid-table, read-only,
    table-unavailable or column-not-found error, bare or wrapped. *)
Theorem C10_nil_schema_skips_checks (ctx : VetContext) :
  Tables (ctxSchema ctx) = None ->
  (forall tname notReadOnly, validateTable ctx tname notReadOnly = None) /\
  (forall tables cols, validateTableColumns ctx tables cols = Ok tt) /\
  (forall fuel root e ctx',
     ValidateSqlQuery fuel root ctx = (Err e, ctx') -> noTableError e) /\
  (forall fuel root e ctx',
     ValidateSqlQueries fuel root ctx = (Err e, ctx') -> noTableError e).
Proof.
  intros Hnil.
  split; [intros; now apply validateTable_nil|].
  split; [intros; now apply validateTableColumns_nil|].
  split.
  - intros fuel root e ctx' Hq.
    pose proof (ValidateSqlQuery_sat fuel root ctx) as [_ He].
    rewrite Hq in He. now apply He.
  - intros fuel root e ctx' Hq.
    pose proof (ValidateSqlQueries_sat fuel root ctx) as [_ He].
    rewrite Hq in He. now apply He.
Qed.

Lemma C10_nil_schema_skips_checks_witness :
  validateTable (NewContext None) "no_such_table" true = None /\
  validateTableColumns (NewContext None)
    [{| TableUsed_Name := "no_such_table"; TableUsed_Alias := "" |}]
    [{| ColumnUsed_Column := "zzz"; ColumnUsed_Table := "t"; ColumnUsed_Location := 0 |}]
  = Ok tt.
Proof.
  pose proof (C10_nil_schema_skips_checks (NewContext None) eq_refl) as (Ht & Hc & _).
  split; [apply Ht|apply Hc].
Defined.

(** * Further properties of the code

    Properties of the functions of [vet.go] and [astjson.go] beyond the
    statements of the specification, of the ignore ranges of
    [analyzer.go], and of the schema loader. *)

(** ** The parameter collector (vet.go) *)

Lemma sorted_same_elements (l1 l2 : list Z) :
  StronglySorted Z.lt l1 -> StronglySorted Z.lt l2 ->
  (forall n, In n l1 <-> In n l2) -> l1 = l2.
Proof.
  revert l2. induction l1 as [|x l1 IH]; intros [|y l2] H1 H2 Hin.
  - reflexivity.
  - exfalso. apply (proj2 (Hin y)). now left.
  - exfalso. apply (proj1 (Hin x)). now left.
  - apply StronglySorted_inv in H1 as [H1 Hx].
    apply StronglySorted_inv in H2 as [H2 Hy].
    rewrite List.Forall_forall in Hx, Hy.
    assert (x = y) as ->.
    { destruct (proj1 (Hin x) (or_introl eq_refl)) as [->|Hxl]; [reflexivity|].
      destruct (proj2 (Hin y) (or_introl eq_refl)) as [->|Hyl]; [reflexivity|].
      specialize (Hx _ Hyl). specialize (Hy _ Hxl). lia. }
    f_equal. apply IH; trivial.
    intros n. split; intros Hn.
    + destruct (proj1 (Hin n) (or_intror Hn)) as [<-|]; [|assumption].
      specialize (Hx _ Hn). lia.
    + destruct (proj2 (Hin n) (or_intror Hn)) as [<-|]; [|assumption].
      specialize (Hy _ Hn). lia.
Qed.

Lemma numbers_inj (ps qs : list QueryParam) : numbers ps = numbers qs -> ps = qs.
Proof.
  unfold numbers. revert qs. induction ps as [|[p] ps IH]; intros [|[q] qs]; simpl;
    try discriminate; [reflexivity|].
  intros [= -> H]. f_equal. now apply IH.
Qed.

(** X1.  Adding a parameter whose number is already in a strictly
    ascending list leaves the list as it is. *)
Theorem AddQueryParam_present_noop (target : list QueryParam) (param : QueryParam) :
  sortedParams target ->
  In (Number param) (numbers target) ->
  AddQueryParam target param = target.
Proof.
  unfold sortedParams, numbers.
  induction target as [|p rest IH]; simpl; [intros _ []|].
  intros Hs Hin. apply StronglySorted_inv in Hs as [Hs Hp].
  destruct (Z.eqb_spec (Number p) (Number param)) as [Heq|Hne]; [reflexivity|].
  destruct Hin as [Hin|Hin]; [congruence|].
  rewrite List.Forall_forall in Hp. specialize (Hp _ Hin).
  destruct (Z.gtb_spec (Number p) (Number param)); [lia|].
  f_equal. now apply IH.
Qed.

Lemma AddQueryParam_present_noop_witness :
  AddQueryParam [Ex.p 1; Ex.p 2; Ex.p 3] (Ex.p 2) = [Ex.p 1; Ex.p 2; Ex.p 3].
Proof.
  apply AddQueryParam_present_noop.
  - unfold sortedParams. simpl. repeat constructor.
  - simpl. auto.
Defined.

(** X2.  Starting from a strictly ascending list, [AddQueryParams]
    returns the same list for any two parameter lists that hold the same
    numbers: neither the order of discovery nor repetitions matter. *)
Theorem AddQueryParams_discovery_order (target ps ps' : list QueryParam) :
  sortedParams target ->
  (forall n, In n (numbers ps) <-> In n (numbers ps')) ->
  AddQueryParams target ps = AddQueryParams target ps'.
Proof.
  intros Hs Hin. apply numbers_inj, sorted_same_elements.
  - now apply AddQueryParams_sorted.
  - now apply AddQueryParams_sorted.
  - intros n. rewrite !AddQueryParams_numbers, Hin. tauto.
Qed.

Lemma AddQueryParams_discovery_order_witness :
  AddQueryParams [] [Ex.p 3; Ex.p 1; Ex.p 1; Ex.p 2]
  = AddQueryParams [] [Ex.p 1; Ex.p 2; Ex.p 3].
Proof.
  apply AddQueryParams_discovery_order.
  - apply sortedParams_nil.
  - intros n. simpl. intuition.
Defined.

(** ** [validateTableColumns] (vet.go) *)

Lemma checkColumns_no_panic (usedTables : gmap string Table) (tables : list TableUsed)
  (cols : list ColumnUsed) :
  (tables = [] -> size usedTables <> 1) ->
  checkColumns usedTables tables cols <> Panic.
Proof.
  intros Hsize. induction cols as [|col rest IH]; simpl; [discriminate|].
  destruct (checkColumn usedTables tables col) as [[]|e| |] eqn:E; try discriminate.
  - exact IH.
  - exfalso. unfold checkColumn in E.
    destruct (negb (ColumnUsed_Table col =? "")).
    + destruct (usedTables !! ColumnUsed_Table col); [|discriminate].
      destruct (hasColumn t (ColumnUsed_Column col)); discriminate.
    + destruct (existsb _ _); [discriminate|].
      destruct (Nat.eqb_spec (size usedTables) 1) as [Hs|Hs]; [|discriminate].
      destruct tables; [now apply Hsize|discriminate].
Qed.

Lemma validateTableColumns_no_panic (ctx : VetContext) (tables : list TableUsed)
  (cols : list ColumnUsed) :
  validateTableColumns ctx tables cols <> Panic.
Proof.
  unfold validateTableColumns.
  destruct (Tables (ctxSchema ctx)) as [outer|]; [|discriminate].
  destruct (Tables (InnerSchema ctx)) as [inner|]; [|discriminate].
  destruct (collectUsedTables inner outer tables ∅) as [e|m] eqn:E; [discriminate|].
  apply checkColumns_no_panic. intros ->. simpl in E. injection E as <-.
  rewrite map_size_empty. discriminate.
Qed.

Lemma validateTableColumns_fuel_free (ctx : VetContext) (tables : list TableUsed)
  (cols : list ColumnUsed) :
  validateTableColumns ctx tables cols <> OutOfFuel.
Proof. apply (total_validateTableColumnsM tables cols ctx). Qed.

(** X3.  [validateTableColumns] returns nil or an error on every input:
    the index [tables[0]] of the error message is in range whenever it
    is evaluated, because the map of used tables has one entry only if
    the list of tables has one. *)
Theorem validateTableColumns_never_panics (ctx : VetContext) (tables : list TableUsed)
  (cols : list ColumnUsed) :
  validateTableColumns ctx tables cols = Ok tt \/
  exists e, validateTableColumns ctx tables cols = Err e.
Proof.
  pose proof (validateTableColumns_no_panic ctx tables cols) as Hp.
  pose proof (validateTableColumns_fuel_free ctx tables cols) as Hf.
  destruct (validateTableColumns ctx tables cols) as [[]|e| |]; try congruence.
  - now left.
  - right. now exists e.
Qed.

Lemma collectUsedTables_spec (inner outer : gmap string Table) (tables : list TableUsed) :
  forall acc m,
    collectUsedTables inner outer tables acc = inr m ->
    (forall k T, m !! k = Some T ->
       acc !! k = Some T \/
       exists tu, In tu tables /\ namedBy k tu /\
                  lookupTable inner outer (TableUsed_Name tu) = Some T) /\
    (forall k, is_Some (acc !! k) -> is_Some (m !! k)) /\
    (forall tu k, In tu tables -> namedBy k tu -> is_Some (m !! k)).
Proof.
  induction tables as [|tu rest IH]; intros acc m H; simpl in H.
  - injection H as <-. repeat split.
    + intros k T Hk. now left.
    + trivial.
    + intros tu k [].
  - fold (lookupTable inner outer (TableUsed_Name tu)) in H.
    destruct (lookupTable inner outer (TableUsed_Name tu)) as [t|] eqn:Hl; [|discriminate].
    apply IH in H as (H1 & H2 & H3).
    repeat split.
    + intros k T Hk. apply H1 in Hk as [Hk|(tu' & Hin & Hn & Hl')].
      * destruct (negb (TableUsed_Alias tu =? "")) eqn:Ha.
        -- apply negb_true_iff, String.eqb_neq in Ha.
           destruct (decide (k = TableUsed_Alias tu)) as [->|Hne].
           ++ rewrite lookup_insert_eq in Hk. injection Hk as <-.
              right. exists tu. split; [now left|]. split; [right; auto|exact Hl].
           ++ rewrite lookup_insert_ne in Hk by congruence.
              destruct (decide (k = TableUsed_Name tu)) as [->|Hne'].
              ** rewrite lookup_insert_eq in Hk. injection Hk as <-.
                 right. exists tu. split; [now left|]. split; [now left|exact Hl].
              ** rewrite lookup_insert_ne in Hk by congruence. now left.
        -- destruct (decide (k = TableUsed_Name tu)) as [->|Hne'].
           ** rewrite lookup_insert_eq in Hk. injection Hk as <-.
              right. exists tu. split; [now left|]. split; [now left|exact Hl].
           ** rewrite lookup_insert_ne in Hk by congruence. now left.
      * right. exists tu'. split; [now right|]. split; assumption.
    + intros k Hk. apply H2.
      destruct (negb (TableUsed_Alias tu =? "")).
      * rewrite lookup_insert_is_Some. destruct (decide (TableUsed_Alias tu = k)); [now left|right].
        split; [assumption|]. rewrite lookup_insert_is_Some.
        destruct (decide (TableUsed_Name tu = k)); [now left|right; auto].
      * rewrite lookup_insert_is_Some.
        destruct (decide (TableUsed_Name tu = k)); [now left|right; auto].
    + intros tu' k [<-|Hin] Hn.
      * apply H2. destruct Hn as [->|[-> Ha]].
        -- destruct (negb (TableUsed_Alias tu =? "")).
           ++ rewrite lookup_insert_is_Some.
              destruct (decide (TableUsed_Alias tu = TableUsed_Name tu)); [now left|right].
              split; [assumption|]. rewrite lookup_insert_eq. eauto.
           ++ rewrite lookup_insert_eq. eauto.
        -- apply String.eqb_neq in Ha. rewrite Ha. simpl. rewrite lookup_insert_eq. eauto.
      * now apply (H3 tu').
Qed.

Lemma lookupTable_union (inner outer : gmap string Table) (name : string) :
  lookupTable inner outer name = (inner ∪ outer) !! name.
Proof.
  unfold lookupTable. rewrite lookup_union.
  destruct (inner !! name), (outer !! name); reflexivity.
Qed.

Lemma collectUsedTables_lookup (inner outer inner' outer' : gmap string Table)
  (tables : list TableUsed) :
  (forall name, lookupTable inner outer name = lookupTable inner' outer' name) ->
  forall acc, collectUsedTables inner outer tables acc = collectUsedTables inner' outer' tables acc.
Proof.
  intros Hl. induction tables as [|tu rest IH]; intros acc; simpl; [reflexivity|].
  fold (lookupTable inner outer (TableUsed_Name tu)).
  fold (lookupTable inner' outer' (TableUsed_Name tu)).
  rewrite Hl. destruct (lookupTable inner' outer' (TableUsed_Name tu)); [|reflexivity].
  apply IH.
Qed.

Lemma checkColumns_ok (usedTables : gmap string Table) (tables : list TableUsed)
  (cols : list ColumnUsed) :
  checkColumns usedTables tables cols = Ok tt ->
  forall col, In col cols -> checkColumn usedTables tables col = Ok tt.
Proof.
  induction cols as [|c rest IH]; simpl; [intros _ col []|].
  destruct (checkColumn usedTables tables c) as [[]|e'| |] eqn:E; try discriminate.
  intros H col [<-|Hin]; [exact E|now apply IH].
Qed.

(** X4.  [validateTableColumns] looks a table up in [InnerSchema] first
    and in [Schema] only when [InnerSchema] does not have the name: its
    result is the one for the single schema in which every entry of
    [InnerSchema] replaces the entry of [Schema] of the same name.  A
    CTE or a derived table named like a table of the schema hides it. *)
Theorem validateTableColumns_inner_first (ctx : VetContext) (inner outer : gmap string Table)
  (tables : list TableUsed) (cols : list ColumnUsed) :
  Tables (ctxSchema ctx) = Some outer ->
  Tables (InnerSchema ctx) = Some inner ->
  validateTableColumns ctx tables cols
  = validateTableColumns (NewContext (Some (inner ∪ outer))) tables cols.
Proof.
  intros Ho Hi. unfold validateTableColumns. rewrite Ho, Hi. simpl.
  rewrite (collectUsedTables_lookup inner outer ∅ (inner ∪ outer)); [reflexivity|].
  intros name. rewrite !lookupTable_union. now rewrite (left_id_L ∅ (∪)).
Qed.

Lemma validateTableColumns_inner_first_witness :
  validateTableColumns Sample.shadowCtx [Sample.users] [Sample.column "" "id"]
  = validateTableColumns (NewContext (Some (Sample.shadowed ∪ exampleTables)))
      [Sample.users] [Sample.column "" "id"].
Proof.
  apply (validateTableColumns_inner_first Sample.shadowCtx Sample.shadowed exampleTables).
  - reflexivity.
  - reflexivity.
Defined.

(** X5.  When both schemas are declared and [validateTableColumns]
    returns nil, every table of the list is in [InnerSchema] or in
    [Schema], and every column is a column of the table that some entry
    of the list stands for; if the column has a qualifier, that entry
    has the qualifier as its name or as its alias. *)
Theorem validateTableColumns_resolves (ctx : VetContext) (inner outer : gmap string Table)
  (tables : list TableUsed) (cols : list ColumnUsed) :
  Tables (ctxSchema ctx) = Some outer ->
  Tables (InnerSchema ctx) = Some inner ->
  validateTableColumns ctx tables cols = Ok tt ->
  (forall tu, In tu tables -> is_Some (lookupTable inner outer (TableUsed_Name tu))) /\
  (forall col, In col cols ->
     exists tu t,
       In tu tables /\
       lookupTable inner outer (TableUsed_Name tu) = Some t /\
       hasColumn t (ColumnUsed_Column col) = true /\
       (ColumnUsed_Table col = "" \/ namedBy (ColumnUsed_Table col) tu)).
Proof.
  intros Ho Hi. unfold validateTableColumns. rewrite Ho, Hi.
  pose proof (collectUsedTables_resolved inner outer tables ∅) as Hres.
  destruct (collectUsedTables inner outer tables ∅) as [e|m] eqn:E; [discriminate|].
  intros Hok. split; [exact Hres|].
  apply collectUsedTables_spec in E as (Hm & _ & _).
  intros col Hin. apply (checkColumns_ok _ _ _ Hok) in Hin.
  unfold checkColumn in Hin.
  destruct (negb (ColumnUsed_Table col =? "")) eqn:Hq.
  - destruct (m !! ColumnUsed_Table col) as [t|] eqn:Ht; [|discriminate].
    destruct (hasColumn t (ColumnUsed_Column col)) eqn:Hc; [|discriminate].
    apply Hm in Ht as [Ht|(tu & Htu & Hn & Hl)]; [now rewrite lookup_empty in Ht|].
    exists tu, t. auto.
  - destruct (existsb _ _) eqn:Hex.
    + apply existsb_exists in Hex as ([k t] & Hkt & Hc). simpl in Hc.
      apply list_elem_of_In, elem_of_map_to_list in Hkt.
      apply Hm in Hkt as [Hkt|(tu & Htu & Hn & Hl)]; [now rewrite lookup_empty in Hkt|].
      exists tu, t. apply negb_false_iff, String.eqb_eq in Hq. auto.
    + destruct (Nat.eqb _ 1); [destruct tables|]; discriminate.
Qed.

Lemma validateTableColumns_resolves_witness :
  exists tu t,
    In tu [Sample.users; Sample.posts_p] /\
    lookupTable ∅ exampleTables (TableUsed_Name tu) = Some t /\
    hasColumn t "title" = true /\
    ("p" = "" \/ namedBy "p" tu).
Proof.
  refine (proj2 (validateTableColumns_resolves exampleCtx ∅ exampleTables
                   [Sample.users; Sample.posts_p]
                   [Sample.column "p" "title"; Sample.column "" "email"]
                   eq_refl eq_refl _)
            (Sample.column "p" "title") (or_introl eq_refl)).
  vm_compute. reflexivity.
Defined.

(** X6.  When both schemas are declared, [validateTableColumns] fails
    with "invalid table name: t" exactly when [t] is the name of the
    first table of the list that is neither in [InnerSchema] nor in
    [Schema]; the columns play no part, so this error comes before any
    error about a column. *)
Theorem validateTableColumns_invalid_table (ctx : VetContext) (inner outer : gmap string Table)
  (tables : list TableUsed) (cols : list ColumnUsed) (t : string) :
  Tables (ctxSchema ctx) = Some outer ->
  Tables (InnerSchema ctx) = Some inner ->
  (validateTableColumns ctx tables cols = Err (InvalidTable t) <->
   exists pre tu post,
     tables = pre ++ tu :: post /\ TableUsed_Name tu = t /\
     lookupTable inner outer t = None /\
     forall tu', In tu' pre -> is_Some (lookupTable inner outer (TableUsed_Name tu'))).
Proof.
  intros Ho Hi. unfold validateTableColumns. rewrite Ho, Hi.
  pose proof (collectUsedTables_resolved inner outer tables ∅) as Hres.
  destruct (collectUsedTables inner outer tables ∅) as [e|m] eqn:E.
  - destruct Hres as (pre & tu & post & Ht & -> & Hn & Hpre). split.
    + intros [= <-]. exists pre, tu, post. auto.
    + intros (pre' & tu' & post' & Ht' & <- & Hn' & Hpre').
      f_equal. f_equal.
      assert (Hpp : pre = pre' /\ tu = tu').
      { clear E. subst tables. revert pre' Ht' Hpre'.
        induction pre as [|x pre IH]; intros [|y pre'] Heq Hpre'; simpl in Heq.
        - injection Heq as -> _. auto.
        - injection Heq as <- _. exfalso.
          destruct (Hpre' tu (or_introl eq_refl)) as [? Hs]. congruence.
        - injection Heq as -> _. exfalso.
          destruct (Hpre tu' (or_introl eq_refl)) as [? Hs]. congruence.
        - injection Heq as <- Heq.
          destruct (IH (fun z Hz => Hpre z (or_intror Hz)) pre' Heq
                       (fun z Hz => Hpre' z (or_intror Hz))) as [-> ->]. auto. }
      now destruct Hpp as [_ ->].
  - split.
    + intros Hc. apply checkColumns_error in Hc as (col & _ & Hc).
      apply checkColumn_error in Hc as [(He & _)|[(t' & He)|He]]; discriminate.
    + intros (pre & tu & post & -> & <- & Hn & _). exfalso.
      destruct (Hres tu) as [? Hs]; [apply in_or_app; right; now left|congruence].
Qed.

Lemma validateTableColumns_invalid_table_witness :
  validateTableColumns exampleCtx [Sample.users; Sample.ghosts; Sample.posts_p]
    [Sample.column "x" "title"]
  = Err (InvalidTable "ghosts") <->
  exists pre tu post,
    [Sample.users; Sample.ghosts; Sample.posts_p] = pre ++ tu :: post /\
    TableUsed_Name tu = "ghosts" /\
    lookupTable ∅ exampleTables "ghosts" = None /\
    forall tu', In tu' pre -> is_Some (lookupTable ∅ exampleTables (TableUsed_Name tu')).
Proof.
  apply (validateTableColumns_invalid_table exampleCtx ∅ exampleTables).
  - reflexivity.
  - reflexivity.
Defined.

(** X7.  [validateTableColumns] fails with "table `q` not available for
    query" only for a qualifier [q] of one of the columns that is
    neither the name nor the alias of any table of the list: a table can
    always be referred to by its name, also when it has an alias. *)
Theorem validateTableColumns_unavailable (ctx : VetContext) (tables : list TableUsed)
  (cols : list ColumnUsed) (q : string) :
  validateTableColumns ctx tables cols = Err (TableUnavailable q) ->
  q <> "" /\
  (exists col, In col cols /\ ColumnUsed_Table col = q) /\
  (forall tu, In tu tables -> ~ namedBy q tu).
Proof.
  unfold validateTableColumns.
  destruct (Tables (ctxSchema ctx)) as [outer|]; [|discriminate].
  destruct (Tables (InnerSchema ctx)) as [inner|]; [|discriminate].
  pose proof (collectUsedTables_resolved inner outer tables ∅) as Hres.
  destruct (collectUsedTables inner outer tables ∅) as [e|m] eqn:E.
  - destruct Hres as (pre & tu & post & _ & -> & _). discriminate.
  - intros Hc. apply checkColumns_error in Hc as (col & Hin & Hc).
    apply checkColumn_error in Hc as [(He & Hq & Hm)|[(t' & He)|He]]; try discriminate.
    injection He as ->.
    split; [exact Hq|]. split; [eauto|].
    intros tu Htu Hn.
    apply collectUsedTables_spec in E as (_ & _ & H3).
    destruct (H3 tu _ Htu Hn) as [? Hs]. congruence.
Qed.

Lemma validateTableColumns_unavailable_witness :
  "x" <> "" /\
  (exists col, In col [Sample.column "x" "title"] /\ ColumnUsed_Table col = "x") /\
  (forall tu, In tu [Sample.users; Sample.posts_p] -> ~ namedBy "x" tu).
Proof.
  apply (validateTableColumns_unavailable exampleCtx).
  vm_compute. reflexivity.
Defined.

(** ** The number of statements (astjson.go, vet.go) *)

Section Raises.

Variable P : error -> Prop.

Lemma raises_ret {A} (a : A) : raises P (ret a).
Proof. intros ctx. exact I. Qed.

Lemma raises_fail {A} (e : error) : P e -> raises P (@fail A e).
Proof. intros He ctx. exact He. Qed.

Lemma raises_panic {A} : raises P (@panic A).
Proof. intros ctx. exact I. Qed.

Lemma raises_outOfFuel {A} : raises P (@outOfFuel A).
Proof. intros ctx. exact I. Qed.

Lemma raises_getCtx : raises P getCtx.
Proof. intros ctx. exact I. Qed.

Lemma raises_setInnerTable (name : string) (t : Table) : raises P (setInnerTable name t).
Proof. intros ctx. unfold setInnerTable. destruct (Tables (InnerSchema ctx)); exact I. Qed.

Lemma raises_bind {A B} (m : M A) (k : A -> M B) :
  raises P m -> (forall a, raises P (k a)) -> raises P (bind m k).
Proof.
  intros Hm Hk ctx. unfold bind. specialize (Hm ctx).
  destruct (m ctx) as [[a|e| |] ctx1]; simpl in *; trivial. apply Hk.
Qed.

Lemma raises_wrapErr {A} (w : error -> error) (m : M A) :
  (forall e, P e -> P (w e)) -> raises P m -> raises P (wrapErr w m).
Proof.
  intros Hw Hm ctx. unfold wrapErr. specialize (Hm ctx).
  destruct (m ctx) as [[a|e| |] ctx1]; simpl in *; auto.
Qed.

Lemma raises_withUsedTables {A} (used : list TableUsed) (m : M A) :
  raises P m -> raises P (withUsedTables used m).
Proof.
  intros Hm ctx. unfold withUsedTables.
  specialize (Hm {| ctxSchema := ctxSchema ctx; InnerSchema := InnerSchema ctx;
                    UsedTables := used |}).
  destruct (m _) as [r ctx1]; simpl in *. exact Hm.
Qed.

Lemma raises_lift {A} (r : result A) :
  (forall e, r = Err e -> P e) -> raises P (lift r).
Proof. intros Hr ctx. unfold lift. simpl. destruct r; auto. Qed.

Lemma raises_forM {A B} (f : B -> A -> M B) (l : list A) (acc : B) :
  (forall acc x, raises P (f acc x)) -> raises P (forM f l acc).
Proof.
  intros Hf. revert acc. induction l as [|x l IH]; intros acc; simpl; [apply raises_ret|].
  apply raises_bind; [apply Hf|apply IH].
Qed.

End Raises.

Lemma raises_validateTableM (tname : string) (b : bool) :
  raises fromStatement (validateTableM tname b).
Proof.
  intros ctx. unfold validateTableM, validateTable.
  destruct (Tables (ctxSchema ctx)) as [tables|]; simpl; [|exact I].
  destruct (tables !! tname) as [t|]; simpl; [|exact I].
  destruct (b && Table_ReadOnly t); exact I.
Qed.

Lemma raises_validateTableColumnsM (tables : list TableUsed) (cols : list ColumnUsed) :
  raises fromStatement (validateTableColumnsM tables cols).
Proof.
  intros ctx. unfold validateTableColumnsM. simpl.
  destruct (validateTableColumns ctx tables cols) as [[]|e| |] eqn:E; trivial.
  unfold validateTableColumns in E.
  destruct (Tables (ctxSchema ctx)) as [outer|]; [|discriminate].
  destruct (Tables (InnerSchema ctx)) as [inner|]; [|discriminate].
  pose proof (collectUsedTables_resolved inner outer tables ∅) as Hres.
  destruct (collectUsedTables inner outer tables ∅) as [e'|m].
  - destruct Hres as (pre & tu & post & _ & -> & _). injection E as <-. exact I.
  - apply checkColumns_error in E as (col & _ & E).
    apply checkColumn_error in E as [(-> & _)|[(t' & ->)| ->]]; exact I.
Qed.

Ltac raises_leaf :=
  lazymatch goal with
  | |- raises _ (ret _) => simple apply raises_ret
  | |- raises _ (fail _) => simple apply raises_fail; exact I
  | |- raises _ panic => simple apply raises_panic
  | |- raises _ getCtx => simple apply raises_getCtx
  | |- raises _ (setInnerTable _ _) => simple apply raises_setInnerTable
  | |- raises _ (validateTableM _ _) => simple apply raises_validateTableM
  | |- raises _ (validateTableColumnsM _ _) => simple apply raises_validateTableColumnsM
  end.

Ltac raises_step :=
  cbv beta iota zeta;
  match goal with
  | |- raises _ _ => raises_leaf
  | |- raises _ (bind _ _) => simple apply raises_bind; [|intros ?]
  | |- raises _ (forM _ _ _) => simple apply raises_forM; intros ? ?
  | |- raises _ (wrapErr _ _) => simple apply raises_wrapErr; [intros ? H; exact H|]
  | |- raises _ (withUsedTables _ _) => simple apply raises_withUsedTables
  | |- raises _ (match ?x with _ => _ end) => destruct x
  | |- raises _ (if ?x then _ else _) => destruct x
  | H : forall n, raises _ (?f n) |- raises _ (?f _) => simple apply H
  | H : forall n re, raises _ (?f n re) |- raises _ (?f _ _) => simple apply H
  | |- raises _ ?m =>
      match m with context [match ?x with _ => _ end] => is_var x; destruct x end
  end.

Section BodiesRaises.

Variable validateNode validateSelect validateUpdate validateInsert validateDelete
  : jsonNode -> M (list QueryParam * list ColumnUsed).
Variable parseFromClause parseExpr : jsonNode -> ParseResult -> M ParseResult.
Variable parseCTE : jsonNode -> M unit.
Variable getTables : list any -> result (list TableUsed).

Hypothesis HvalidateNode : forall n, raises fromStatement (validateNode n).
Hypothesis HvalidateSelect : forall n, raises fromStatement (validateSelect n).
Hypothesis HvalidateUpdate : forall n, raises fromStatement (validateUpdate n).
Hypothesis HvalidateInsert : forall n, raises fromStatement (validateInsert n).
Hypothesis HvalidateDelete : forall n, raises fromStatement (validateDelete n).
Hypothesis HparseFromClause : forall n re, raises fromStatement (parseFromClause n re).
Hypothesis HparseExpr : forall n re, raises fromStatement (parseExpr n re).
Hypothesis HparseCTE : forall w, raises fromStatement (parseCTE w).
Hypothesis HgetTables : forall l e, getTables l <> Err e.

Lemma raises_getTables l : raises fromStatement (lift (getTables l)).
Proof. apply raises_lift. intros e He. now apply HgetTables in He. Qed.

Lemma jsonValidateNode_body_raises n :
  raises fromStatement
    (jsonValidateNode_body validateSelect validateUpdate validateInsert validateDelete n).
Proof.
  unfold jsonValidateNode_body. destruct (nodeType n) as [kind body]. repeat raises_step.
Qed.

Lemma jsonValidateSelect_body_raises sel :
  raises fromStatement (jsonValidateSelect_body parseFromClause parseExpr parseCTE sel).
Proof.
  unfold jsonValidateSelect_body, selectFromItem, selectTarget, collectExpr, parseWith.
  repeat raises_step.
Qed.

Lemma jsonValidateUpdate_body_raises up :
  raises fromStatement (jsonValidateUpdate_body parseExpr parseCTE getTables up).
Proof.
  unfold jsonValidateUpdate_body, addFromTables, parseWith.
  repeat first [simple apply raises_getTables | raises_step].
Qed.

Lemma jsonValidateInsert_body_raises ins :
  raises fromStatement
    (jsonValidateInsert_body validateSelect parseFromClause parseExpr parseCTE getTables ins).
Proof.
  unfold jsonValidateInsert_body, insertValuesRow, insertFromItem, insertSelectTarget,
    collectExpr, parseWith.
  repeat first [simple apply raises_getTables | raises_step].
Qed.

Lemma jsonValidateDelete_body_raises del :
  raises fromStatement (jsonValidateDelete_body parseExpr parseCTE del).
Proof.
  unfold jsonValidateDelete_body, deleteWhere, parseWith. repeat raises_step.
Qed.

Lemma jsonParseFromClause_body_raises n re :
  raises fromStatement
    (jsonParseFromClause_body validateSelect parseFromClause parseExpr n re).
Proof.
  unfold jsonParseFromClause_body, registerSubselect.
  destruct n as [kvs|]; [|apply raises_ret].
  destruct (nodeType (Some kvs)) as [kind body].
  repeat raises_step.
Qed.

Lemma jsonParseExpr_body_raises n re :
  raises fromStatement (jsonParseExpr_body validateSelect parseFromClause parseExpr n re).
Proof.
  unfold jsonParseExpr_body, parseFirst.
  destruct n as [kvs|]; [|apply raises_ret].
  destruct (nodeType (Some kvs)) as [kind body].
  repeat raises_step.
Qed.

Lemma jsonParseCTE_body_raises w :
  raises fromStatement (jsonParseCTE_body validateNode w).
Proof. unfold jsonParseCTE_body. repeat raises_step. Qed.

End BodiesRaises.

Lemma jsonGetTablesFromSelectStmt_no_Err (fuel : nat) (l : list any) (e : error) :
  jsonGetTablesFromSelectStmt fuel l <> Err e.
Proof.
  pose proof (jsonGetTablesFromSelectStmt_no_error fuel l) as H.
  intros He. rewrite He in H. exact H.
Qed.

Lemma walker_raises (fuel : nat) :
  (forall n, raises fromStatement (jsonValidateNode fuel n)) /\
  (forall n, raises fromStatement (jsonValidateSelect fuel n)) /\
  (forall n, raises fromStatement (jsonValidateUpdate fuel n)) /\
  (forall n, raises fromStatement (jsonValidateInsert fuel n)) /\
  (forall n, raises fromStatement (jsonValidateDelete fuel n)) /\
  (forall n re, raises fromStatement (jsonParseFromClause fuel n re)) /\
  (forall n re, raises fromStatement (jsonParseExpr fuel n re)) /\
  (forall w, raises fromStatement (jsonParseCTE fuel w)).
Proof.
  induction fuel as [|fuel (Hnode & Hsel & Hupd & Hins & Hdel & Hfrom & Hexpr & Hcte)].
  - repeat match goal with |- _ /\ _ => split end; intros; apply raises_outOfFuel.
  - repeat match goal with |- _ /\ _ => split end; intros.
    + now apply jsonValidateNode_body_raises.
    + now apply jsonValidateSelect_body_raises.
    + apply jsonValidateUpdate_body_raises; auto using jsonGetTablesFromSelectStmt_no_Err.
    + apply jsonValidateInsert_body_raises; auto using jsonGetTablesFromSelectStmt_no_Err.
    + now apply jsonValidateDelete_body_raises.
    + now apply jsonParseFromClause_body_raises.
    + now apply jsonParseExpr_body_raises.
    + now apply jsonParseCTE_body_raises.
Qed.

(** X8.  [ValidateSqlQuery] fails with "empty statement" exactly when
    the tree has no statement (also when [stmts] is absent or is not an
    array), and with "query contained more than one statement" exactly
    when it has more than one: no statement, however nested, produces
    either error. *)
Theorem statement_count_errors (fuel : nat) (root : jsonNode) (ctx : VetContext) :
  (fst (ValidateSqlQuery fuel root ctx) = Err EmptyStatement <->
   len (elems (asList (index root "stmts"))) = 0) /\
  (fst (ValidateSqlQuery fuel root ctx) = Err MultipleStatements <->
   1 < len (elems (asList (index root "stmts")))).
Proof.
  unfold ValidateSqlQuery, jsonValidateQuery, bind.
  destruct (elems (asList (index root "stmts"))) as [|s [|s' rest]]; simpl.
  - split; split; try reflexivity; try discriminate; lia.
  - pose proof (proj1 (walker_raises fuel) (asNode (index (asNode s) "stmt")) ctx) as H.
    destruct (jsonValidateNode fuel _ ctx) as [[[params cols]|e| |] ctx1]; simpl in *;
      (split; split; try discriminate; try lia).
    + intros [= ->]. contradiction.
    + intros [= ->]. contradiction.
  - split; split; try reflexivity; try discriminate; lia.
Qed.

(** X9.  [ValidateSqlQueries] never fails with "empty statement" nor
    with "query contained more than one statement": it validates every
    statement on its own, and for a tree without statements it returns
    the empty list, without an error and without touching the
    context. *)
Theorem batch_statement_errors (fuel : nat) (root : jsonNode) (ctx : VetContext) :
  fst (ValidateSqlQueries fuel root ctx) <> Err EmptyStatement /\
  fst (ValidateSqlQueries fuel root ctx) <> Err MultipleStatements /\
  match elems (asList (index root "stmts")) with
  | [] => ValidateSqlQueries fuel root ctx = (Ok [], ctx)
  | _ => True
  end.
Proof.
  assert (H : raises fromStatement (ValidateSqlQueries fuel root)).
  { unfold ValidateSqlQueries. apply raises_forM. intros out s.
    apply raises_bind; [|intros [qp cols]; apply raises_ret].
    change (raises fromStatement (jsonValidateNode fuel (asNode (index (asNode s) "stmt")))).
    apply walker_raises. }
  specialize (H ctx).
  split; [|split].
  - intros E. rewrite E in H. exact H.
  - intros E. rewrite E in H. exact H.
  - unfold ValidateSqlQueries. destruct (elems (asList (index root "stmts"))); trivial.
Qed.

(** X10.  For a tree with one statement, [ValidateSqlQueries] does what
    [ValidateSqlQuery] does, and returns its parameters as the one
    element of the list. *)
Theorem batch_of_one (fuel : nat) (root : jsonNode) (ctx : VetContext) (s : any) :
  elems (asList (index root "stmts")) = [s] ->
  ValidateSqlQueries fuel root ctx
  = (let* params := ValidateSqlQuery fuel root in ret [params]) ctx.
Proof.
  intros Hs. unfold ValidateSqlQueries, ValidateSqlQuery, jsonValidateQuery.
  rewrite Hs. simpl. unfold bind.
  destruct (jsonValidateNode fuel _ ctx) as [[[params cols]|e| |] ctx1]; reflexivity.
Qed.

Lemma batch_of_one_witness :
  ValidateSqlQueries 10 Ex.inList exampleCtx
  = (let* params := ValidateSqlQuery 10 Ex.inList in ret [params]) exampleCtx.
Proof.
  eapply (batch_of_one 10 Ex.inList exampleCtx).
  reflexivity.
Defined.

(** ** INSERT: the source and the value rows (astjson.go) *)

Lemma insert_prefix (fuel : nat) (ins : jsonNode) (ctx ctx1 : VetContext)
  (k : unit -> M (list QueryParam * list ColumnUsed)) :
  parseWith (jsonParseCTE fuel) ins ["with_clause"; "withClause"] ctx = (Ok tt, ctx1) ->
  validateTable ctx1 (targetTable ins) true = None ->
  (let* _ := parseWith (jsonParseCTE fuel) ins ["with_clause"; "withClause"] in
   let* _ := validateTableM (targetTable ins) true in k tt) ctx
  = k tt ctx1.
Proof.
  intros Hwith Htable.
  rewrite (bind_ok _ _ _ _ _ Hwith).
  now rewrite (bind_ok _ _ _ _ _ (validateTableM_ok _ _ _ Htable)).
Qed.

(** X11.  An INSERT without [select_stmt] (as [INSERT ... DEFAULT
    VALUES]), whose WITH clause, if any, is processed without error and
    whose target passes [validateTable], fails with "missing
    select_stmt". *)
Theorem insert_without_source (fuel : nat) (ins : jsonNode) (ctx ctx1 : VetContext) :
  parseWith (jsonParseCTE fuel) ins ["with_clause"; "withClause"] ctx = (Ok tt, ctx1) ->
  validateTable ctx1 (targetTable ins) true = None ->
  insertSource ins = None ->
  jsonValidateInsert (S fuel) ins ctx = (Err MissingSelectStmt, ctx1).
Proof.
  intros Hwith Htable Hsrc. cbn [jsonValidateInsert]. unfold jsonValidateInsert_body.
  fold (targetTable ins).
  rewrite (bind_ok _ _ _ _ _ Hwith).
  rewrite (bind_ok _ _ _ _ _ (validateTableM_ok _ _ _ Htable)).
  cbv beta zeta.
  match goal with
  | |- (match ?x with Some _ => _ | None => _ end) _ = _ => change x with (insertSource ins)
  end.
  rewrite Hsrc. reflexivity.
Qed.

Lemma insert_without_source_witness :
  jsonValidateInsert 3 (Some Sample.insertDefaults) exampleCtx
  = (Err MissingSelectStmt, exampleCtx).
Proof.
  apply (insert_without_source 2 (Some Sample.insertDefaults) exampleCtx exampleCtx).
  - reflexivity.
  - vm_compute. reflexivity.
  - reflexivity.
Defined.

Lemma bind_inv_ok {A B} (m : M A) (k : A -> M B) (ctx ctx' : VetContext) (b : B) :
  bind m k ctx = (Ok b, ctx') ->
  exists a ctx1, m ctx = (Ok a, ctx1) /\ k a ctx1 = (Ok b, ctx').
Proof.
  unfold bind. destruct (m ctx) as [[a|e| |] ctx1]; try discriminate. eauto.
Qed.

Lemma insertValuesRow_mismatch parseExpr (targetCols : list ColumnUsed)
  (acc : list ColumnUsed * list QueryParam) (row : any) (items : list any)
  (ctx : VetContext) :
  rowItems row = Some items ->
  len items <> len targetCols ->
  insertValuesRow parseExpr targetCols acc row ctx
  = (Err (ColumnCountMismatch (len targetCols) (len items)), ctx).
Proof.
  unfold rowItems, insertValuesRow. intros Hrow Hlen.
  destruct (index (asNode row) "List"); try discriminate.
  injection Hrow as <-.
  destruct (Nat.eqb_spec (len (elems (asList (index (Some m) "items")))) (len targetCols));
    [contradiction|reflexivity].
Qed.

Lemma insertValuesRow_ok parseExpr (targetCols : list ColumnUsed)
  (acc r : list ColumnUsed * list QueryParam) (row : any) (ctx ctx' : VetContext) :
  insertValuesRow parseExpr targetCols acc row ctx = (Ok r, ctx') ->
  exists items, rowItems row = Some items /\ len items = len targetCols.
Proof.
  unfold rowItems, insertValuesRow.
  destruct (index (asNode row) "List"); try discriminate.
  destruct (Nat.eqb_spec (len (elems (asList (index (Some m) "items")))) (len targetCols));
    [|discriminate].
  eauto.
Qed.

Lemma insertValuesRows_ok parseExpr (targetCols : list ColumnUsed) (rows : list any) :
  forall (acc r : list ColumnUsed * list QueryParam) (ctx ctx' : VetContext),
    forM (insertValuesRow parseExpr targetCols) rows acc ctx = (Ok r, ctx') ->
    forall row, In row rows ->
      exists items, rowItems row = Some items /\ len items = len targetCols.
Proof.
  induction rows as [|row0 rows IH]; intros acc r ctx ctx' H row Hin; [destruct Hin|].
  simpl in H. apply bind_inv_ok in H as (acc1 & ctx1 & H0 & H).
  destruct Hin as [<-|Hin].
  - now apply insertValuesRow_ok in H0.
  - now apply (IH _ _ _ _ H).
Qed.

Ltac fold_insertSource ins :=
  cbv beta zeta;
  match goal with
  | |- (match ?x with Some _ => _ | None => _ end) _ = _ => change x with (insertSource ins)
  end.

(** X12.  An INSERT with a VALUES list whose first row has a number of
    items other than the number of [ResTarget] entries of the column
    list fails with "column count %d doesn't match value count %d",
    naming the two numbers, once the WITH clause and the target table
    have passed. *)
Theorem insert_count_mismatch (fuel : nat) (ins : jsonNode) (ctx ctx1 : VetContext)
  (sel : list (string * any)) (row : any) (rows items : list any) :
  parseWith (jsonParseCTE fuel) ins ["with_clause"; "withClause"] ctx = (Ok tt, ctx1) ->
  validateTable ctx1 (targetTable ins) true = None ->
  insertSource ins = Some sel ->
  elems (asList (insertValues (Some sel))) = row :: rows ->
  rowItems row = Some items ->
  len items <> len (insertTargetCols ins) ->
  jsonValidateInsert (S fuel) ins ctx
  = (Err (ColumnCountMismatch (len (insertTargetCols ins)) (len items)), ctx1).
Proof.
  intros Hwith Htable Hsrc Hrows Hrow Hlen.
  cbn [jsonValidateInsert]. unfold jsonValidateInsert_body.
  fold (targetTable ins).
  rewrite (bind_ok _ _ _ _ _ Hwith).
  rewrite (bind_ok _ _ _ _ _ (validateTableM_ok _ _ _ Htable)).
  fold_insertSource ins. rewrite Hsrc.
  fold (insertValues (Some sel)). fold (insertTargetCols ins).
  destruct (insertValues (Some sel)) as [| | | |vls|] eqn:Hv; try discriminate.
  simpl in Hrows. subst vls.
  apply bind_err. apply bind_err. cbn [elems asList forM].
  apply bind_err. now apply insertValuesRow_mismatch.
Qed.

Lemma insert_count_mismatch_witness :
  jsonValidateInsert 3 (Some Sample.insertThreeIntoTwo) exampleCtx
  = (Err (ColumnCountMismatch 2 3), exampleCtx).
Proof.
  refine (insert_count_mismatch 2 (Some Sample.insertThreeIntoTwo) exampleCtx exampleCtx
            _ _ _ [Ast.param 1 0; Ast.param 2 0; Ast.param 3 0] _ _ _ _ _ _).
  - reflexivity.
  - vm_compute. reflexivity.
  - reflexivity.
  - reflexivity.
  - reflexivity.
  - simpl. lia.
Defined.

(** X13.  An INSERT without a column list whose first VALUES row is a
    [List] node with at least one item never validates, in any context:
    it fails in its WITH clause or on its target table, or else, the
    count of target columns being 0, with "column count 0 doesn't match
    value count n". *)
Theorem insert_without_column_list (ins : jsonNode) (sel : list (string * any))
  (row : any) (rows items : list any) :
  elems (asList (index ins "cols")) = [] ->
  insertSource ins = Some sel ->
  elems (asList (insertValues (Some sel))) = row :: rows ->
  rowItems row = Some items ->
  items <> [] ->
  (forall fuel ctx r, fst (jsonValidateInsert fuel ins ctx) <> Ok r) /\
  (forall fuel ctx ctx1,
     parseWith (jsonParseCTE fuel) ins ["with_clause"; "withClause"] ctx = (Ok tt, ctx1) ->
     validateTable ctx1 (targetTable ins) true = None ->
     jsonValidateInsert (S fuel) ins ctx = (Err (ColumnCountMismatch 0 (len items)), ctx1)).
Proof.
  intros Hcols Hsrc Hrows Hrow Hitems.
  assert (Htc : insertTargetCols ins = []).
  { unfold insertTargetCols. now rewrite Hcols. }
  assert (Hsecond : forall fuel ctx ctx1,
             parseWith (jsonParseCTE fuel) ins ["with_clause"; "withClause"] ctx = (Ok tt, ctx1) ->
             validateTable ctx1 (targetTable ins) true = None ->
             jsonValidateInsert (S fuel) ins ctx
             = (Err (ColumnCountMismatch 0 (len items)), ctx1)).
  { intros fuel ctx ctx1 Hwith Htable.
    cbn [jsonValidateInsert]. unfold jsonValidateInsert_body.
    fold (targetTable ins).
    rewrite (bind_ok _ _ _ _ _ Hwith).
    rewrite (bind_ok _ _ _ _ _ (validateTableM_ok _ _ _ Htable)).
    fold_insertSource ins. rewrite Hsrc.
    fold (insertValues (Some sel)). fold (insertTargetCols ins). rewrite Htc.
    destruct (insertValues (Some sel)) as [| | | |vls|] eqn:Hv; try discriminate.
    simpl in Hrows. subst vls.
    apply bind_err. apply bind_err. cbn [elems asList forM].
    apply bind_err.
    apply (insertValuesRow_mismatch _ [] _ _ _ _ Hrow).
    destruct items; [contradiction|discriminate]. }
  split; [|exact Hsecond].
  intros [|fuel] ctx r; [discriminate|].
  destruct (parseWith (jsonParseCTE fuel) ins ["with_clause"; "withClause"] ctx)
    as [[[]|e| |] ctx1] eqn:Hwith.
  - destruct (validateTable ctx1 (targetTable ins) true) as [e|] eqn:Htable.
    + cbn [jsonValidateInsert]. unfold jsonValidateInsert_body. fold (targetTable ins).
      rewrite (bind_ok _ _ _ _ _ Hwith).
      rewrite (bind_err _ _ _ _ _ (validateTableM_err _ _ _ _ Htable)). discriminate.
    + rewrite (Hsecond fuel ctx ctx1 Hwith Htable). discriminate.
  - cbn [jsonValidateInsert]. unfold jsonValidateInsert_body.
    rewrite (bind_err _ _ _ _ _ Hwith). discriminate.
  - cbn [jsonValidateInsert]. unfold jsonValidateInsert_body.
    unfold bind at 1. rewrite Hwith. discriminate.
  - cbn [jsonValidateInsert]. unfold jsonValidateInsert_body.
    unfold bind at 1. rewrite Hwith. discriminate.
Qed.

Lemma insert_without_column_list_witness :
  fst (jsonValidateInsert 3 (Some Sample.insertNoColumns) (NewContext None))
  <> Ok ([Ex.p 1; Ex.p 2; Ex.p 3], []) /\
  jsonValidateInsert 3 (Some Sample.insertNoColumns) exampleCtx
  = (Err (ColumnCountMismatch 0 3), exampleCtx).
Proof.
  refine (match insert_without_column_list (Some Sample.insertNoColumns) _ _ _
                  [Ast.param 1 0; Ast.param 2 0; Ast.param 3 0] _ _ _ _ _ with
          | conj Hnever Herr => conj (Hnever 3 _ _) (Herr 2 exampleCtx exampleCtx _ _)
          end).
  - reflexivity.
  - reflexivity.
  - reflexivity.
  - reflexivity.
  - simpl. discriminate.
  - reflexivity.
  - vm_compute. reflexivity.
Defined.

(** X14.  When the validation of an INSERT succeeds, every row of its
    VALUES list is a [List] node with exactly as many items as the
    column list has [ResTarget] entries. *)
Theorem insert_rows_checked (fuel : nat) (ins : jsonNode) (ctx ctx' : VetContext)
  (sel : list (string * any)) (r : list QueryParam * list ColumnUsed) :
  jsonValidateInsert (S fuel) ins ctx = (Ok r, ctx') ->
  insertSource ins = Some sel ->
  forall row, In row (elems (asList (insertValues (Some sel)))) ->
    exists items, rowItems row = Some items /\ len items = len (insertTargetCols ins).
Proof.
  intros Hok Hsrc row Hin.
  cbn [jsonValidateInsert] in Hok. unfold jsonValidateInsert_body in Hok.
  fold (targetTable ins) in Hok.
  apply bind_inv_ok in Hok as ([] & ctx1 & _ & Hok).
  apply bind_inv_ok in Hok as ([] & ctx2 & _ & Hok).
  cbv beta zeta in Hok.
  match type of Hok with
  | (match ?x with Some _ => _ | None => _ end) _ = _ =>
      change x with (insertSource ins) in Hok
  end.
  rewrite Hsrc in Hok.
  fold (insertValues (Some sel)) in Hok. fold (insertTargetCols ins) in Hok.
  destruct (insertValues (Some sel)) as [| | | |vls|] eqn:Hv; try (simpl in Hin; contradiction).
  apply bind_inv_ok in Hok as ([[ut uc] qp] & ctx3 & Hrows & _).
  apply bind_inv_ok in Hrows as ([uc' qp'] & ctx4 & Hrows & _).
  now apply (insertValuesRows_ok _ _ _ _ _ _ _ Hrows).
Qed.

Lemma insert_rows_checked_witness :
  exists items,
    rowItems (AMap [("List", AMap [("items", AList [Ast.param 3 0; Ast.param 4 0])])])
    = Some items /\
    len items = len (insertTargetCols (Some Sample.insertTwoRows)).
Proof.
  refine (insert_rows_checked 2 (Some Sample.insertTwoRows) exampleCtx exampleCtx _
            ([Ex.p 1; Ex.p 2; Ex.p 3; Ex.p 4],
             [Sample.column "users" "id"; Sample.column "users" "name"])
            _ _ _ _).
  - vm_compute. reflexivity.
  - reflexivity.
  - simpl. auto.
Defined.

(** ** The target of a writing statement *)

(** X15.  An INSERT, an UPDATE or a DELETE whose target is not a table
    of the outer [Schema] fails with "invalid table name", once its WITH
    clause has been processed without error.  Only [Schema] is
    consulted: a name that the statement's own WITH clause has just
    registered in [InnerSchema] is not a valid target. *)
Theorem write_target_unknown (fuel : nat) (stmt : jsonNode) (ctx ctx1 : VetContext)
  (tables : gmap string Table) :
  parseWith (jsonParseCTE fuel) stmt ["with_clause"; "withClause"] ctx = (Ok tt, ctx1) ->
  Tables (ctxSchema ctx) = Some tables ->
  tables !! targetTable stmt = None ->
  jsonValidateInsert (S fuel) stmt ctx = (Err (InvalidTable (targetTable stmt)), ctx1) /\
  jsonValidateUpdate (S fuel) stmt ctx = (Err (InvalidTable (targetTable stmt)), ctx1) /\
  jsonValidateDelete (S fuel) stmt ctx = (Err (InvalidTable (targetTable stmt)), ctx1).
Proof.
  intros Hwith Hs Ht.
  assert (Hv : validateTable ctx1 (targetTable stmt) true
               = Some (InvalidTable (targetTable stmt))).
  { unfold validateTable. apply parseWith_frame in Hwith as [-> _].
    now rewrite Hs, Ht. }
  repeat split; simpl.
  - unfold jsonValidateInsert_body.
    rewrite (bind_ok _ _ _ _ _ Hwith).
    apply bind_err. now apply validateTableM_err.
  - unfold jsonValidateUpdate_body.
    rewrite (bind_ok _ _ _ _ _ Hwith).
    apply bind_err. now apply validateTableM_err.
  - unfold jsonValidateDelete_body.
    rewrite (bind_ok _ _ _ _ _ Hwith).
    apply bind_err. now apply validateTableM_err.
Qed.

Lemma write_target_unknown_witness :
  fst (jsonValidateDelete 6 (Some Sample.deleteFromCte) exampleCtx)
  = Err (InvalidTable "recent").
Proof.
  refine (f_equal fst
            (proj2 (proj2
               (write_target_unknown 5 (Some Sample.deleteFromCte) exampleCtx
                  (snd (parseWith (jsonParseCTE 5) (Some Sample.deleteFromCte)
                          ["with_clause"; "withClause"] exampleCtx))
                  exampleTables _ _ _)))).
  - vm_compute. reflexivity.
  - reflexivity.
  - vm_compute. reflexivity.
Defined.

(** ** What a CTE and a derived table register *)

Lemma columnsOf_lookup (cols : list ColumnUsed) (c : string) :
  is_Some (columnsOf cols !! c) <-> In c (map ColumnUsed_Column cols).
Proof.
  unfold columnsOf.
  assert (H : forall acc : gmap string Column,
             is_Some (fold_left
                        (fun columns c0 =>
                           <[ColumnUsed_Column c0 :=
                               {| Column_Name := ColumnUsed_Column c0; Column_Type := "" |}]>
                             columns) cols acc !! c)
             <-> In c (map ColumnUsed_Column cols) \/ is_Some (acc !! c)).
  { induction cols as [|c0 cols IH]; intros acc; simpl; [tauto|].
    rewrite IH, lookup_insert_is_Some.
    destruct (decide (ColumnUsed_Column c0 = c)); tauto. }
  rewrite H, lookup_empty. split; [intros [?|[? ?]]; [assumption|discriminate]|auto].
Qed.

Lemma derivedTable_hasColumn (name : string) (cols : list ColumnUsed) (c : string) :
  hasColumn (derivedTable name cols) c = true <-> In c (map ColumnUsed_Column cols).
Proof.
  rewrite <- columnsOf_lookup. unfold hasColumn, derivedTable. simpl.
  destruct (columnsOf cols !! c); split; intros H; try reflexivity; try discriminate; eauto.
  destruct H; discriminate.
Qed.

Lemma setInnerTable_registered (name : string) (cols : list ColumnUsed) (ctx1 : VetContext) :
  Tables (InnerSchema ctx1) <> None ->
  exists ctx2, setInnerTable name (derivedTable name cols) ctx1 = (Ok tt, ctx2) /\
               registered ctx1 ctx2 name cols.
Proof.
  intros Hi. unfold setInnerTable.
  destruct (Tables (InnerSchema ctx1)) as [inner|] eqn:E; [|contradiction].
  eexists. split; [reflexivity|].
  unfold registered. simpl. repeat split.
  exists inner, (derivedTable name cols). rewrite E. repeat split; trivial.
  all: apply derivedTable_hasColumn.
Qed.

(** X16.  A WITH clause with one CTE whose statement validates, in a
    context whose [InnerSchema] has a table map, succeeds and registers
    under the CTE's name a read-only table whose columns are the names
    of the columns that the statement uses (the [ColumnUsed] list it
    returns); nothing else of the context changes. *)
Theorem cte_registered (fuel : nat) (w : jsonNode) (c : any) (cte : list (string * any))
  (ctx ctx1 : VetContext) (qp : list QueryParam) (cols : list ColumnUsed) :
  elems (asList (index w "ctes")) = [c] ->
  asNode (index (asNode c) "CommonTableExpr") = Some cte ->
  jsonValidateNode fuel (asNode (index (Some cte) "ctequery")) ctx = (Ok (qp, cols), ctx1) ->
  Tables (InnerSchema ctx1) <> None ->
  exists ctx2,
    jsonParseCTE (S fuel) w ctx = (Ok tt, ctx2) /\
    registered ctx1 ctx2 (getStringField (Some cte) "ctename") cols.
Proof.
  intros Hctes Hcte Hq Hi.
  destruct (setInnerTable_registered (getStringField (Some cte) "ctename") cols ctx1 Hi)
    as (ctx2 & Hset & Hreg).
  exists ctx2. split; [|exact Hreg].
  cbn [jsonParseCTE]. unfold jsonParseCTE_body. rewrite Hctes. cbn [forM].
  rewrite Hcte. unfold bind at 1. unfold bind at 1. rewrite Hq. cbv beta iota.
  rewrite Hset. reflexivity.
Qed.

Lemma cte_registered_witness :
  exists ctx2,
    jsonParseCTE 6 (Some Sample.withRecent) exampleCtx = (Ok tt, ctx2) /\
    registered exampleCtx ctx2 "recent" Sample.recentColumns.
Proof.
  refine (cte_registered 5 (Some Sample.withRecent) (Ast.cte "recent" Ex.recentUsers)
            Sample.recentCte exampleCtx exampleCtx [Ex.p 1] Sample.recentColumns _ _ _ _).
  - reflexivity.
  - reflexivity.
  - vm_compute. reflexivity.
  - simpl. discriminate.
Defined.

(** X17.  A derived table with an alias, LATERAL or not, whose
    sub-select validates in a context whose [InnerSchema] has a table
    map: [jsonParseFromClause] succeeds, registers under the alias a
    read-only table whose columns are the names of the columns that the
    sub-select uses, appends the alias to the tables of [re], merges the
    parameters of the sub-select into those of [re] and leaves the
    columns of [re] as they are. *)
Theorem derived_table_registered (fuel : nat) (body : list (string * any))
  (rest : list (string * any)) (re : ParseResult) (ctx ctx1 : VetContext)
  (qp : list QueryParam) (cols : list ColumnUsed) :
  getStringField (asNode (index (Some body) "alias")) "aliasname" <> "" ->
  (if getBoolField (Some body) "lateral"
   then withUsedTables (ParseResult_Tables re)
          (jsonValidateSelect fuel
             (asNode (index (asNode (index (Some body) "subquery")) "SelectStmt")))
   else jsonValidateSelect fuel
          (asNode (index (asNode (index (Some body) "subquery")) "SelectStmt"))) ctx
  = (Ok (qp, cols), ctx1) ->
  Tables (InnerSchema ctx1) <> None ->
  exists re' ctx2,
    jsonParseFromClause (S fuel) (Some (("RangeSubselect", AMap body) :: rest)) re ctx
    = (Ok re', ctx2) /\
    registered ctx1 ctx2 (getStringField (asNode (index (Some body) "alias")) "aliasname") cols /\
    ParseResult_Tables re'
    = ParseResult_Tables re
      ++ [{| TableUsed_Name := getStringField (asNode (index (Some body) "alias")) "aliasname";
             TableUsed_Alias := "" |}] /\
    Columns re' = Columns re /\
    Params re' = addParamsIf (Params re) qp.
Proof.
  intros Halias Hq Hi.
  set (alias := getStringField (asNode (index (Some body) "alias")) "aliasname") in *.
  destruct (setInnerTable_registered alias cols ctx1 Hi) as (ctx2 & Hset & Hreg).
  cbn [jsonParseFromClause]. unfold jsonParseFromClause_body.
  cbn [nodeType asNode]. cbn [String.eqb Ascii.eqb Bool.eqb].
  assert (Htab : forall p, ParseResult_Tables
                   (match PostponedNodes re with
                    | None => setPostponedNodes re p
                    | Some _ => re
                    end) = ParseResult_Tables re).
  { intros p. destruct (PostponedNodes re); reflexivity. }
  destruct (getBoolField (Some body) "lateral").
  - rewrite Htab. unfold bind at 1. rewrite Hq. cbv beta iota.
    unfold registerSubselect. fold alias.
    apply String.eqb_neq in Halias. rewrite Halias. cbn [negb].
    unfold bind. rewrite Hset. cbv beta iota.
    eexists. exists ctx2. split; [reflexivity|]. split; [exact Hreg|].
    destruct (PostponedNodes re); simpl; auto.
  - unfold bind at 1. rewrite Hq. cbv beta iota.
    unfold registerSubselect. fold alias.
    apply String.eqb_neq in Halias. rewrite Halias. cbn [negb].
    unfold bind. rewrite Hset. cbv beta iota.
    eexists. exists ctx2. split; [reflexivity|]. split; [exact Hreg|].
    destruct (PostponedNodes re); simpl; auto.
Qed.

Lemma derived_table_registered_witness :
  exists re' ctx2,
    jsonParseFromClause 6 (Some [("RangeSubselect", AMap Sample.derived)])
      emptyParseResult exampleCtx
    = (Ok re', ctx2) /\
    registered exampleCtx ctx2 "sub" Sample.recentColumns /\
    ParseResult_Tables re' = [{| TableUsed_Name := "sub"; TableUsed_Alias := "" |}] /\
    Columns re' = [] /\
    Params re' = [Ex.p 1].
Proof.
  refine (derived_table_registered 5 Sample.derived [] emptyParseResult exampleCtx exampleCtx
            [Ex.p 1] Sample.recentColumns _ _ _).
  - simpl. discriminate.
  - vm_compute. reflexivity.
  - simpl. discriminate.
Defined.

(** ** Node kinds without a case *)

Ltac other_kind Hk :=
  repeat match goal with
         | |- context [String.eqb ?kind ?s] =>
             destruct (String.eqb_spec kind s);
             [exfalso; apply Hk; subst; simpl; tauto|]
         end.

(** X18.  A node whose kind is none of RangeVar, JoinExpr and
    RangeSubselect is skipped by [jsonParseFromClause], and a node whose
    kind is none of the fifteen kinds of [exprKinds] is skipped by
    [jsonParseExpr]: the call returns nil and leaves [re] and the
    context as they are, whatever the node contains.  The columns and
    the parameters inside a CaseExpr, for instance, are not seen. *)
Theorem unknown_kinds_skipped (fuel : nat) (kind : string) (v : any)
  (rest : list (string * any)) (re : ParseResult) (ctx : VetContext) :
  ~ In kind fromKinds ->
  jsonParseFromClause (S fuel) (Some ((kind, v) :: rest)) re ctx = (Ok re, ctx) /\
  (~ In kind exprKinds ->
   jsonParseExpr (S fuel) (Some ((kind, v) :: rest)) re ctx = (Ok re, ctx)).
Proof.
  intros Hk. split.
  - cbn [jsonParseFromClause]. unfold jsonParseFromClause_body. cbn [nodeType].
    other_kind Hk. reflexivity.
  - intros Hk'. cbn [jsonParseExpr]. unfold jsonParseExpr_body. cbn [nodeType].
    other_kind Hk'. reflexivity.
Qed.

Lemma unknown_kinds_skipped_witness :
  jsonParseFromClause 1 (Some Sample.caseExpr) emptyParseResult exampleCtx
  = (Ok emptyParseResult, exampleCtx) /\
  jsonParseExpr 1 (Some Sample.caseExpr) emptyParseResult exampleCtx
  = (Ok emptyParseResult, exampleCtx).
Proof.
  refine (match unknown_kinds_skipped 0 "CaseExpr" _ [] emptyParseResult exampleCtx _ with
          | conj Hfrom Hexpr => conj Hfrom (Hexpr _)
          end).
  - simpl. intuition discriminate.
  - simpl. intuition discriminate.
Defined.

(** ** The parts of a column reference *)

(** X19.  [jsonColumnRefToColumnUsed] reads the first two parts of a
    name and no more: a name of one part is a column without table, and
    of a name of two or more parts the first is the table and the
    second the column, so [schema.table.column] is read as the column
    [table] of the table [schema].  A star, alone or after a table,
    references no column. *)
Theorem column_ref_parts (a b c : string) (rest : list string) (loc : Z)
  (more : list (string * any)) :
  jsonColumnRefToColumnUsed
    (Some [("fields", AList [Ast.str c]); ("location", ANum loc)])
  = Some {| ColumnUsed_Column := c; ColumnUsed_Table := ""; ColumnUsed_Location := int32 loc |} /\
  jsonColumnRefToColumnUsed
    (Some [("fields", AList (map Ast.str (a :: b :: rest))); ("location", ANum loc)])
  = Some {| ColumnUsed_Column := b; ColumnUsed_Table := a; ColumnUsed_Location := int32 loc |} /\
  jsonColumnRefToColumnUsed
    (Some [("fields", AList [AMap [("A_Star", AMap more)]]); ("location", ANum loc)])
  = None /\
  jsonColumnRefToColumnUsed
    (Some [("fields", AList [Ast.str a; AMap [("A_Star", AMap more)]]); ("location", ANum loc)])
  = None.
Proof. repeat split. Qed.

(** ** Lookups under alternative keys *)

Lemma jNode_first (m : jsonNode) (keys : list string) (n : list (string * any)) :
  jNode m keys = Some n <->
  exists pre k post,
    keys = pre ++ k :: post /\ asNode (index m k) = Some n /\
    forall k', In k' pre -> asNode (index m k') = None.
Proof.
  induction keys as [|k0 keys IH]; cbn [jNode].
  - split; [discriminate|]. intros (pre & k & post & H & _). now destruct pre.
  - destruct (asNode (index m k0)) as [n0|] eqn:E.
    + split.
      * intros [= ->]. exists [], k0, keys. repeat split; trivial. intros k' [].
      * intros ([|p pre] & k & post & H & Hk & Hpre); simpl in H; injection H as H1 H2.
        -- rewrite <- H1 in Hk. congruence.
        -- rewrite (Hpre k0) in E by (left; congruence). discriminate.
    + rewrite IH. split.
      * intros (pre & k & post & -> & Hk & Hpre). exists (k0 :: pre), k, post.
        repeat split; trivial. intros k' [<-|Hin]; auto.
      * intros ([|p pre] & k & post & H & Hk & Hpre); simpl in H; injection H as H1 H2.
        -- rewrite <- H1 in Hk. congruence.
        -- exists pre, k, post. repeat split; trivial. intros k' Hin. apply Hpre. now right.
Qed.

Lemma jList_first (m : jsonNode) (keys : list string) (l : list any) :
  jList m keys = Some l <->
  exists pre k post,
    keys = pre ++ k :: post /\ asList (index m k) = Some l /\
    forall k', In k' pre -> asList (index m k') = None.
Proof.
  induction keys as [|k0 keys IH]; cbn [jList].
  - split; [discriminate|]. intros (pre & k & post & H & _). now destruct pre.
  - destruct (asList (index m k0)) as [n0|] eqn:E.
    + split.
      * intros [= ->]. exists [], k0, keys. repeat split; trivial. intros k' [].
      * intros ([|p pre] & k & post & H & Hk & Hpre); simpl in H; injection H as H1 H2.
        -- rewrite <- H1 in Hk. congruence.
        -- rewrite (Hpre k0) in E by (left; congruence). discriminate.
    + rewrite IH. split.
      * intros (pre & k & post & -> & Hk & Hpre). exists (k0 :: pre), k, post.
        repeat split; trivial. intros k' [<-|Hin]; auto.
      * intros ([|p pre] & k & post & H & Hk & Hpre); simpl in H; injection H as H1 H2.
        -- rewrite <- H1 in Hk. congruence.
        -- exists pre, k, post. repeat split; trivial. intros k' Hin. apply Hpre. now right.
Qed.

(** X20.  [jNode] returns the value under the first key of its list
    whose value is an object, and [jList] the value under the first key
    whose value is an array: a key that is absent or holds a value of
    another type (JSON null, a string, ...) is passed over, and nil is
    returned exactly when every key is passed over. *)
Theorem first_usable_key (m : jsonNode) (keys : list string) :
  (forall n, jNode m keys = Some n <->
     exists pre k post,
       keys = pre ++ k :: post /\ asNode (index m k) = Some n /\
       forall k', In k' pre -> asNode (index m k') = None) /\
  (forall l, jList m keys = Some l <->
     exists pre k post,
       keys = pre ++ k :: post /\ asList (index m k) = Some l /\
       forall k', In k' pre -> asList (index m k') = None).
Proof. split; intros; [apply jNode_first|apply jList_first]. Qed.

(** ** Termination *)

(** X21.  The validation of a tree terminates: [ValidateSqlQuery] and
    [ValidateSqlQueries] each have one result (values, an error or a
    panic), reached with every amount of fuel from twice the nesting
    depth of the tree on; the recursion of the walker is no deeper than
    that. *)
Theorem validation_terminates (root : jsonNode) (ctx : VetContext) :
  (exists r ctx',
     r <> OutOfFuel /\
     forall fuel, 2 * depthNode root <= fuel -> ValidateSqlQuery fuel root ctx = (r, ctx')) /\
  (exists r ctx',
     r <> OutOfFuel /\
     forall fuel, 2 * depthNode root <= fuel -> ValidateSqlQueries fuel root ctx = (r, ctx')).
Proof.
  split.
  - destruct (ValidateSqlQuery (2 * depthNode root) root ctx) as [r ctx'] eqn:E.
    assert (Hr : r <> OutOfFuel).
    { pose proof (proj1 (fuel_enough _ root (le_n _)) ctx) as H. now rewrite E in H. }
    exists r, ctx'. split; [exact Hr|].
    intros fuel Hfuel.
    rewrite (proj1 (fuel_monotone _ _ root Hfuel) ctx); [exact E|].
    now rewrite E.
  - destruct (ValidateSqlQueries (2 * depthNode root) root ctx) as [r ctx'] eqn:E.
    assert (Hr : r <> OutOfFuel).
    { pose proof (proj2 (fuel_enough _ root (le_n _)) ctx) as H. now rewrite E in H. }
    exists r, ctx'. split; [exact Hr|].
    intros fuel Hfuel.
    rewrite (proj2 (fuel_monotone _ _ root Hfuel) ctx); [exact E|].
    now rewrite E.
Qed.

(** ** Where the validator cannot panic *)

Lemma wf_assoc (k : string) (m : list (string * any)) (v : any) :
  assoc k m = Some v ->
  forallb (fun kv => let '(_, x) := kv in wellFormed x) m = true ->
  wellFormed v = true.
Proof.
  induction m as [|[k' v'] m IH]; simpl; [discriminate|].
  intros H Hall. apply andb_true_iff in Hall as [Hv Hm].
  destruct (String.eqb k' k); [now injection H as <-|auto].
Qed.

Lemma wf_index_ok (n : jsonNode) (k : string) (v : any) :
  index_ok n k = Some v -> wellFormedNode n = true -> wellFormed v = true.
Proof.
  destruct n as [m|]; simpl; [|discriminate].
  intros H Hn. apply andb_true_iff in Hn as [_ Hn]. eapply wf_assoc; eassumption.
Qed.

Lemma wf_index (n : jsonNode) (k : string) :
  wellFormedNode n = true -> wellFormed (index n k) = true.
Proof.
  intros Hn. unfold index. destruct (index_ok n k) as [v|] eqn:E; [|reflexivity].
  eapply wf_index_ok; eassumption.
Qed.

Lemma wf_asNode (v : any) : wellFormed v = true -> wellFormedNode (asNode v) = true.
Proof. destruct v; simpl; auto. Qed.

Lemma wf_asNode_eq (v : any) (m : list (string * any)) :
  asNode v = Some m -> wellFormed v = true -> wellFormedNode (Some m) = true.
Proof. intros <-. apply wf_asNode. Qed.

Lemma wf_elem (v x : any) :
  In x (elems (asList v)) -> wellFormed v = true -> wellFormed x = true.
Proof.
  destruct v; simpl; try tauto. intros Hin Hall.
  rewrite forallb_forall in Hall. auto.
Qed.

Lemma wf_first (l : list any) (x : any) :
  first l = Some x -> (forall y, In y l -> wellFormed y = true) -> wellFormed x = true.
Proof. intros H Hall. apply Hall. now apply first_In. Qed.

Lemma wf_nodeType (n : jsonNode) (k : string) (body : jsonNode) :
  nodeType n = (k, body) -> wellFormedNode n = true -> wellFormedNode body = true.
Proof.
  destruct n as [[|[k' v] m]|]; simpl; intros H; injection H as <- <-; trivial.
  intros Hn. apply wf_asNode.
  apply andb_true_iff in Hn as [_ Hn]. simpl in Hn.
  now apply andb_true_iff in Hn as [Hv _].
Qed.

Lemma wf_jNode (n : jsonNode) (keys : list string) :
  wellFormedNode n = true -> wellFormedNode (jNode n keys) = true.
Proof.
  intros Hn. induction keys as [|k keys IH]; cbn [jNode]; [reflexivity|].
  destruct (asNode (index n k)) as [m|] eqn:E; [|exact IH].
  eapply wf_asNode_eq; [exact E|now apply wf_index].
Qed.

Lemma wf_jNode_eq (n : jsonNode) (keys : list string) (w : list (string * any)) :
  jNode n keys = Some w -> wellFormedNode n = true -> wellFormedNode (Some w) = true.
Proof. intros <-. apply wf_jNode. Qed.

Lemma wf_jList_elem (n : jsonNode) (keys : list string) (x : any) :
  In x (elems (jList n keys)) -> wellFormedNode n = true -> wellFormed x = true.
Proof.
  intros Hin Hn. induction keys as [|k keys IH]; cbn [jList] in Hin; [destruct Hin|].
  destruct (asList (index n k)) as [l|] eqn:E; [|auto].
  apply (wf_elem (index n k)); [now rewrite E|now apply wf_index].
Qed.

Lemma wf_getRelationRangeVar (n : jsonNode) :
  wellFormedNode n = true -> wellFormedNode (getRelationRangeVar n) = true.
Proof.
  intros Hn. unfold getRelationRangeVar.
  destruct (asNode (index n "RangeVar")) as [rv|] eqn:E; [|exact Hn].
  eapply wf_asNode_eq; [exact E|now apply wf_index].
Qed.

Lemma wf_rows (sel : list (string * any)) (row : any) :
  wellFormedNode (Some sel) = true ->
  In row (elems (asList (insertValues (Some sel)))) ->
  exists l, index (asNode row) "List" = AMap l.
Proof.
  simpl. intros Hn Hin. apply andb_true_iff in Hn as [Hrows _].
  unfold rowsOk in Hrows. rewrite forallb_forall in Hrows.
  specialize (Hrows _ Hin). unfold rowItems in Hrows.
  destruct (index (asNode row) "List"); try discriminate. eauto.
Qed.

Lemma wf_insertValues (sel : list (string * any)) :
  wellFormedNode (Some sel) = true -> wellFormed (insertValues (Some sel)) = true.
Proof.
  intros Hn. unfold insertValues.
  destruct (index_ok (Some sel) "values_lists") as [v|] eqn:E.
  - eapply wf_index_ok; eassumption.
  - now apply wf_index.
Qed.

Lemma safe_ret {A} (a : A) : safe (ret a).
Proof. intros ctx Hi. simpl. split; [discriminate|exact Hi]. Qed.

Lemma safe_fail {A} (e : error) : safe (@fail A e).
Proof. intros ctx Hi. simpl. split; [discriminate|exact Hi]. Qed.

Lemma safe_outOfFuel {A} : safe (@outOfFuel A).
Proof. intros ctx Hi. simpl. split; [discriminate|exact Hi]. Qed.

Lemma safe_getCtx : safe getCtx.
Proof. intros ctx Hi. simpl. split; [discriminate|exact Hi]. Qed.

Lemma safe_setInnerTable (name : string) (t : Table) : safe (setInnerTable name t).
Proof.
  intros ctx Hi. unfold setInnerTable.
  destruct (Tables (InnerSchema ctx)) as [m|]; [|contradiction].
  simpl. split; discriminate.
Qed.

Lemma safe_validateTableM (tname : string) (b : bool) : safe (validateTableM tname b).
Proof.
  intros ctx Hi. unfold validateTableM.
  destruct (validateTable ctx tname b); simpl; (split; [discriminate|exact Hi]).
Qed.

Lemma safe_validateTableColumnsM (tables : list TableUsed) (cols : list ColumnUsed) :
  safe (validateTableColumnsM tables cols).
Proof.
  intros ctx Hi. unfold validateTableColumnsM. simpl. split; [|exact Hi].
  apply validateTableColumns_no_panic.
Qed.

Lemma safe_bind {A B} (m : M A) (k : A -> M B) :
  safe m -> (forall a, safe (k a)) -> safe (bind m k).
Proof.
  intros Hm Hk ctx Hi. unfold bind. specialize (Hm ctx Hi).
  destruct (m ctx) as [[a|e| |] ctx1]; simpl in *; try (split; [discriminate|tauto]).
  - now apply Hk.
  - tauto.
Qed.

Lemma safe_wrapErr {A} (w : error -> error) (m : M A) : safe m -> safe (wrapErr w m).
Proof.
  intros Hm ctx Hi. unfold wrapErr. specialize (Hm ctx Hi).
  destruct (m ctx) as [[a|e| |] ctx1]; simpl in *; try tauto.
  split; [discriminate|tauto].
Qed.

Lemma safe_withUsedTables {A} (used : list TableUsed) (m : M A) :
  safe m -> safe (withUsedTables used m).
Proof.
  intros Hm ctx Hi. unfold withUsedTables.
  specialize (Hm {| ctxSchema := ctxSchema ctx; InnerSchema := InnerSchema ctx;
                    UsedTables := used |} Hi).
  destruct (m _) as [r ctx1]; simpl in *. exact Hm.
Qed.

Lemma safe_lift {A} (r : result A) : r <> Panic -> safe (lift r).
Proof. intros Hr ctx Hi. simpl. split; assumption. Qed.

Lemma safe_forM {A B} (f : B -> A -> M B) (l : list A) (acc : B) :
  (forall acc x, In x l -> safe (f acc x)) -> safe (forM f l acc).
Proof.
  revert acc. induction l as [|x l IH]; intros acc Hf; simpl; [apply safe_ret|].
  apply safe_bind; [apply Hf; now left|].
  intros acc'. apply IH. intros acc'' y Hy. apply Hf. now right.
Qed.

Ltac wf_facts :=
  repeat match goal with
         | H : first ?l = Some ?x |- _ => note (first_In l x H)
         | H : nodeType ?n = (?k, ?b), Hn : wellFormedNode ?n = true |- _ =>
             note (wf_nodeType n k b H Hn)
         | H : asNode ?v = Some ?m, Hv : wellFormed ?v = true |- _ =>
             note (wf_asNode_eq v m H Hv)
         | H : index_ok ?n ?k = Some ?v, Hn : wellFormedNode ?n = true |- _ =>
             note (wf_index_ok n k v H Hn)
         | H : jNode ?n ?keys = Some ?w, Hn : wellFormedNode ?n = true |- _ =>
             note (wf_jNode_eq n keys w H Hn)
         | H : In ?x (elems (jList ?n ?keys)), Hn : wellFormedNode ?n = true |- _ =>
             note (wf_jList_elem n keys x H Hn)
         | H : In ?x (elems (asList ?v)), Hv : wellFormed ?v = true |- _ =>
             note (wf_elem v x H Hv)
         | Hn : wellFormedNode ?n = true |- context [index ?n ?k] => note (wf_index n k Hn)
         | Hn : wellFormedNode ?n = true, _ : context [index ?n ?k] |- _ =>
             note (wf_index n k Hn)
         | Hv : wellFormed ?v = true |- context [asNode ?v] => note (wf_asNode v Hv)
         | Hv : wellFormed ?v = true, _ : context [asNode ?v] |- _ => note (wf_asNode v Hv)
         end.

Ltac wf_solve :=
  first [ reflexivity
        | match goal with
          | H : In _ (elems (asList ?v)) |- _ => simpl in H; contradiction
          end
        | wf_facts; assumption ].

Ltac safe_leaf :=
  lazymatch goal with
  | |- safe (ret _) => simple apply safe_ret
  | |- safe (fail _) => simple apply safe_fail
  | |- safe getCtx => simple apply safe_getCtx
  | |- safe (setInnerTable _ _) => simple apply safe_setInnerTable
  | |- safe (validateTableM _ _) => simple apply safe_validateTableM
  | |- safe (validateTableColumnsM _ _) => simple apply safe_validateTableColumnsM
  end.

Ltac safe_step :=
  cbv beta iota zeta;
  match goal with
  | |- safe _ => safe_leaf
  | |- safe (bind _ _) => simple apply safe_bind; [|intros ?]
  | |- safe (forM _ _ _) => simple apply safe_forM; intros ? ? ?
  | |- safe (wrapErr _ _) => simple apply safe_wrapErr
  | |- safe (withUsedTables _ _) => simple apply safe_withUsedTables
  | |- safe (match ?x with _ => _ end) => destruct x eqn:?
  | |- safe (if ?x then _ else _) => destruct x eqn:?
  | H : forall n, _ -> safe (?f n) |- safe (?f _) => simple apply H; wf_solve
  | H : forall n re, _ -> safe (?f n re) |- safe (?f _ _) => simple apply H; wf_solve
  | |- safe ?m =>
      match m with context [match ?x with _ => _ end] => is_var x; destruct x end
  end.

Section BodiesSafe.

Variable validateNode validateSelect validateUpdate validateInsert validateDelete
  : jsonNode -> M (list QueryParam * list ColumnUsed).
Variable parseFromClause parseExpr : jsonNode -> ParseResult -> M ParseResult.
Variable parseCTE : jsonNode -> M unit.
Variable getTables : list any -> result (list TableUsed).

Hypothesis HvalidateNode : forall n, wellFormedNode n = true -> safe (validateNode n).
Hypothesis HvalidateSelect : forall n, wellFormedNode n = true -> safe (validateSelect n).
Hypothesis HvalidateUpdate : forall n, wellFormedNode n = true -> safe (validateUpdate n).
Hypothesis HvalidateInsert : forall n, wellFormedNode n = true -> safe (validateInsert n).
Hypothesis HvalidateDelete : forall n, wellFormedNode n = true -> safe (validateDelete n).
Hypothesis HparseFromClause :
  forall n re, wellFormedNode n = true -> safe (parseFromClause n re).
Hypothesis HparseExpr : forall n re, wellFormedNode n = true -> safe (parseExpr n re).
Hypothesis HparseCTE : forall w, wellFormedNode w = true -> safe (parseCTE w).
Hypothesis HgetTables : forall l, getTables l <> Panic.

Lemma safe_getTables l : safe (lift (getTables l)).
Proof. apply safe_lift, HgetTables. Qed.

Lemma jsonValidateNode_body_safe n :
  wellFormedNode n = true ->
  safe (jsonValidateNode_body validateSelect validateUpdate validateInsert validateDelete n).
Proof.
  intros Hn. unfold jsonValidateNode_body.
  destruct (nodeType n) as [kind body] eqn:Hk.
  repeat safe_step.
Qed.

Lemma parseWith_safe stmt keys :
  wellFormedNode stmt = true -> safe (parseWith parseCTE stmt keys).
Proof. intros Hn. unfold parseWith. repeat safe_step. Qed.

Lemma collectExpr_safe n usedCols queryParams :
  wellFormedNode n = true -> safe (collectExpr parseExpr n usedCols queryParams).
Proof. intros Hn. unfold collectExpr. repeat safe_step. Qed.

Lemma jsonValidateSelect_body_safe sel :
  wellFormedNode sel = true ->
  safe (jsonValidateSelect_body parseFromClause parseExpr parseCTE sel).
Proof.
  intros Hn. unfold jsonValidateSelect_body, selectFromItem, selectTarget.
  repeat first [ simple apply parseWith_safe; assumption
               | simple apply collectExpr_safe; wf_solve
               | safe_step ].
Qed.

Lemma jsonValidateUpdate_body_safe up :
  wellFormedNode up = true ->
  safe (jsonValidateUpdate_body parseExpr parseCTE getTables up).
Proof.
  intros Hn. unfold jsonValidateUpdate_body, addFromTables.
  repeat first [ simple apply parseWith_safe; assumption
               | simple apply safe_getTables
               | safe_step ].
Qed.

Lemma insertValuesRow_safe targetCols acc row sel :
  wellFormedNode (Some sel) = true ->
  In row (elems (asList (insertValues (Some sel)))) ->
  safe (insertValuesRow parseExpr targetCols acc row).
Proof.
  intros Hn Hin. unfold insertValuesRow.
  destruct (wf_rows sel row Hn Hin) as [l Hl].
  assert (Hrow : wellFormed row = true).
  { apply (wf_elem (insertValues (Some sel))); [exact Hin|now apply wf_insertValues]. }
  assert (Hl' : wellFormed (AMap l) = true).
  { rewrite <- Hl. apply wf_index. now apply wf_asNode. }
  change (wellFormedNode (Some l) = true) in Hl'.
  rewrite Hl.
  repeat first [ simple apply collectExpr_safe; wf_solve | safe_step ].
Qed.

Lemma jsonValidateInsert_body_safe ins :
  wellFormedNode ins = true ->
  safe (jsonValidateInsert_body validateSelect parseFromClause parseExpr parseCTE
          getTables ins).
Proof.
  intros Hn. unfold jsonValidateInsert_body.
  apply safe_bind; [now apply parseWith_safe|intros _].
  apply safe_bind; [apply safe_validateTableM|intros _].
  cbv beta zeta.
  match goal with
  | |- safe (match ?x with Some _ => _ | None => _ end) => change x with (insertSource ins)
  end.
  assert (Hsrc : wellFormedNode (insertSource ins) = true).
  { unfold insertSource. cbv zeta.
    pose proof (wf_jNode ins ["select_stmt"; "selectStmt"] Hn) as HselNode.
    destruct (asNode (index (jNode ins ["select_stmt"; "selectStmt"]) "SelectStmt"))
      as [s|] eqn:Hs; [|exact HselNode].
    eapply wf_asNode_eq; [exact Hs|now apply wf_index]. }
  destruct (insertSource ins) as [sel|]; [|apply safe_fail].
  fold (insertValues (Some sel)).
  destruct (insertValues (Some sel)) eqn:Hv.
  2-6: rewrite <- Hv.
  all: unfold insertFromItem, insertSelectTarget.
  all: repeat first [ simple apply parseWith_safe; assumption
                    | simple apply collectExpr_safe; wf_solve
                    | simple apply safe_getTables
                    | simple eapply insertValuesRow_safe; eassumption
                    | safe_step ].
Qed.

Lemma jsonValidateDelete_body_safe del :
  wellFormedNode del = true ->
  safe (jsonValidateDelete_body parseExpr parseCTE del).
Proof.
  intros Hn. unfold jsonValidateDelete_body, deleteWhere.
  repeat first [ simple apply parseWith_safe; assumption | safe_step ].
Qed.

Lemma jsonParseFromClause_body_safe n re :
  wellFormedNode n = true ->
  safe (jsonParseFromClause_body validateSelect parseFromClause parseExpr n re).
Proof.
  intros Hn. unfold jsonParseFromClause_body, registerSubselect.
  destruct n as [kvs|]; [|apply safe_ret].
  destruct (nodeType (Some kvs)) as [kind body] eqn:Hk.
  repeat safe_step.
Qed.

Lemma jsonParseExpr_body_safe n re :
  wellFormedNode n = true ->
  safe (jsonParseExpr_body validateSelect parseFromClause parseExpr n re).
Proof.
  intros Hn. unfold jsonParseExpr_body, parseFirst.
  destruct n as [kvs|]; [|apply safe_ret].
  destruct (nodeType (Some kvs)) as [kind body] eqn:Hk.
  repeat first [ match goal with
                 | |- context [jList (match asNode ?v with Some _ => _ | None => _ end) _] =>
                     destruct (asNode v) eqn:?
                 end
               | safe_step ].
Qed.

Lemma jsonParseCTE_body_safe w :
  wellFormedNode w = true -> safe (jsonParseCTE_body validateNode w).
Proof. intros Hn. unfold jsonParseCTE_body. repeat safe_step. Qed.

End BodiesSafe.

Lemma walker_safe (fuel : nat) :
  (forall n, wellFormedNode n = true -> safe (jsonValidateNode fuel n)) /\
  (forall n, wellFormedNode n = true -> safe (jsonValidateSelect fuel n)) /\
  (forall n, wellFormedNode n = true -> safe (jsonValidateUpdate fuel n)) /\
  (forall n, wellFormedNode n = true -> safe (jsonValidateInsert fuel n)) /\
  (forall n, wellFormedNode n = true -> safe (jsonValidateDelete fuel n)) /\
  (forall n re, wellFormedNode n = true -> safe (jsonParseFromClause fuel n re)) /\
  (forall n re, wellFormedNode n = true -> safe (jsonParseExpr fuel n re)) /\
  (forall w, wellFormedNode w = true -> safe (jsonParseCTE fuel w)).
Proof.
  assert (Hget : forall fuel l, jsonGetTablesFromSelectStmt fuel l <> Panic).
  { intros f l H. pose proof (jsonGetTablesFromSelectStmt_no_error f l) as Hn.
    now rewrite H in Hn. }
  induction fuel as [|fuel (Hnode & Hsel & Hupd & Hins & Hdel & Hfrom & Hexpr & Hcte)].
  - repeat match goal with |- _ /\ _ => split end; intros; apply safe_outOfFuel.
  - repeat match goal with |- _ /\ _ => split end; intros.
    + now apply jsonValidateNode_body_safe.
    + now apply jsonValidateSelect_body_safe.
    + now apply jsonValidateUpdate_body_safe.
    + now apply jsonValidateInsert_body_safe.
    + now apply jsonValidateDelete_body_safe.
    + now apply jsonParseFromClause_body_safe.
    + now apply jsonParseExpr_body_safe.
    + now apply jsonParseCTE_body_safe.
Qed.

(** X22.  From a context whose [InnerSchema] has a table map, as
    [NewContext] builds it, the validation of a tree in which every
    entry of every [values_lists] is a [List] node does not panic,
    neither for one statement nor for a batch. *)
Theorem no_panic_on_well_formed_trees (fuel : nat) (root : jsonNode) (ctx : VetContext) :
  wellFormedNode root = true ->
  Tables (InnerSchema ctx) <> None ->
  fst (ValidateSqlQuery fuel root ctx) <> Panic /\
  fst (ValidateSqlQueries fuel root ctx) <> Panic.
Proof.
  intros Hroot Hi.
  assert (Hstmt : forall s, In s (elems (asList (index root "stmts"))) ->
                    safe (jsonValidateNode fuel (asNode (index (asNode s) "stmt")))).
  { intros s Hs. apply walker_safe. apply wf_asNode, wf_index, wf_asNode.
    apply (wf_elem (index root "stmts")); [exact Hs|now apply wf_index]. }
  split.
  - assert (H : safe (ValidateSqlQuery fuel root)).
    { unfold ValidateSqlQuery, jsonValidateQuery.
      apply safe_bind; [|intros [params cols]; apply safe_ret].
      destruct (elems (asList (index root "stmts"))) as [|s [|s' rest]];
        try apply safe_fail.
      apply Hstmt. now left. }
    apply (H ctx Hi).
  - assert (H : safe (ValidateSqlQueries fuel root)).
    { unfold ValidateSqlQueries. apply safe_forM. intros out s Hs.
      apply safe_bind; [|intros [qp cols]; apply safe_ret].
      change (safe (jsonValidateNode fuel (asNode (index (asNode s) "stmt")))).
      now apply Hstmt. }
    apply (H ctx Hi).
Qed.

Lemma no_panic_on_well_formed_trees_witness :
  fst (ValidateSqlQuery 10 (Ast.root [AMap [("InsertStmt", AMap Sample.insertTwoRows)]])
         exampleCtx) <> Panic /\
  fst (ValidateSqlQueries 10 (Ast.root [AMap [("InsertStmt", AMap Sample.insertTwoRows)]])
         exampleCtx) <> Panic.
Proof.
  apply no_panic_on_well_formed_trees.
  - vm_compute. reflexivity.
  - simpl. discriminate.
Defined.

(** ** The walkers only add to their accumulator *)

Lemma extends_refl (re : ParseResult) : extends re re.
Proof. repeat split; auto. Qed.

Lemma extends_trans (re1 re2 re3 : ParseResult) :
  extends re1 re2 -> extends re2 re3 -> extends re1 re3.
Proof.
  intros (Hc1 & Ht1 & Hp1 & Hn1) (Hc2 & Ht2 & Hp2 & Hn2).
  repeat split; auto; etrans; eassumption.
Qed.

Lemma extends_params (re : ParseResult) (ps : list QueryParam) :
  (forall n, In n (numbers (Params re)) -> In n (numbers ps)) ->
  extends re (setParams re ps).
Proof. intros H. repeat split; auto. Qed.

Lemma extends_addParamsIf (re : ParseResult) (qp : list QueryParam) :
  extends re (setParams re (addParamsIf (Params re) qp)).
Proof.
  apply extends_params. intros n Hn. unfold addParamsIf.
  destruct (nonempty qp); [|exact Hn]. apply AddQueryParams_numbers. now left.
Qed.

Lemma extends_tables (re : ParseResult) (ts : list TableUsed) :
  extends re (setTables re (ParseResult_Tables re ++ ts)).
Proof. repeat split; auto. simpl. now apply prefix_app_r. Qed.

Lemma extends_columns (re : ParseResult) (cu : option ColumnUsed) :
  extends re (setColumns re (appendColumn (Columns re) cu)).
Proof.
  repeat split; auto. simpl. destruct cu; simpl; [now apply prefix_app_r|reflexivity].
Qed.

Lemma extends_postponed (re : ParseResult) :
  extends re (match PostponedNodes re with
              | None => setPostponedNodes re (Some [])
              | Some _ => re
              end).
Proof.
  destruct (PostponedNodes re) eqn:E; [apply extends_refl|].
  repeat split; simpl; eauto.
Qed.

Lemma returns_ret {A} (a : A) (Q : A -> Prop) : Q a -> returns (ret a) Q.
Proof. intros Ha ctx. exact Ha. Qed.

Lemma returns_bind {A B} (m : M A) (k : A -> M B) (Q1 : A -> Prop) (Q2 : B -> Prop) :
  returns m Q1 -> (forall a, Q1 a -> returns (k a) Q2) -> returns (bind m k) Q2.
Proof.
  intros Hm Hk ctx. unfold bind. specialize (Hm ctx).
  destruct (m ctx) as [[a|e| |] ctx1]; simpl in *; trivial. now apply Hk.
Qed.

Lemma returns_weaken {A} (m : M A) (Q Q' : A -> Prop) :
  returns m Q -> (forall a, Q a -> Q' a) -> returns m Q'.
Proof.
  intros Hm HQ ctx. specialize (Hm ctx). destruct (fst (m ctx)); auto.
Qed.

Lemma returns_forM {A B} (f : B -> A -> M B) (I : B -> Prop) (l : list A) (acc : B) :
  I acc -> (forall acc x, I acc -> returns (f acc x) I) -> returns (forM f l acc) I.
Proof.
  intros Hacc Hf. revert acc Hacc.
  induction l as [|x l IH]; simpl; intros acc Hacc; [now apply returns_ret|].
  eapply returns_bind; [apply Hf; exact Hacc|]. intros acc' Hacc'. now apply IH.
Qed.

Lemma returns_withUsedTables {A} (used : list TableUsed) (m : M A) (Q : A -> Prop) :
  returns m Q -> returns (withUsedTables used m) Q.
Proof.
  intros Hm ctx. unfold withUsedTables.
  specialize (Hm {| ctxSchema := ctxSchema ctx; InnerSchema := InnerSchema ctx;
                    UsedTables := used |}).
  destruct (m _) as [r ctx1]; simpl in *. exact Hm.
Qed.

Lemma returns_any {A} (m : M A) : returns m (fun _ => True).
Proof. intros ctx. destruct (fst (m ctx)); exact I. Qed.

Section BodiesExtend.

Variable validateSelect : jsonNode -> M (list QueryParam * list ColumnUsed).
Variable parseFromClause parseExpr : jsonNode -> ParseResult -> M ParseResult.

Hypothesis HparseFromClause : forall n re, returns (parseFromClause n re) (extends re).
Hypothesis HparseExpr : forall n re, returns (parseExpr n re) (extends re).

Lemma then_parseExpr n re0 re :
  extends re0 re -> returns (parseExpr n re) (extends re0).
Proof.
  intros Hre. eapply returns_weaken; [apply HparseExpr|].
  intros re' Hre'. eapply extends_trans; eassumption.
Qed.

Lemma then_parseFromClause n re0 re :
  extends re0 re -> returns (parseFromClause n re) (extends re0).
Proof.
  intros Hre. eapply returns_weaken; [apply HparseFromClause|].
  intros re' Hre'. eapply extends_trans; eassumption.
Qed.

Lemma parseFirst_extends l re0 re :
  extends re0 re -> returns (parseFirst parseExpr l re) (extends re0).
Proof.
  intros Hre. unfold parseFirst.
  destruct (first l); [apply then_parseExpr, Hre|apply returns_ret, Hre].
Qed.

Lemma registerSubselect_extends body re0 re qp targetCols :
  extends re0 re -> returns (registerSubselect body re qp targetCols) (extends re0).
Proof.
  intros Hre. unfold registerSubselect.
  assert (H1 : extends re0 (setParams re (addParamsIf (Params re) qp))).
  { eapply extends_trans; [exact Hre|apply extends_addParamsIf]. }
  destruct (negb _); [|apply returns_ret, H1].
  eapply returns_bind; [apply returns_any|]. intros _ _.
  apply returns_ret. eapply extends_trans; [exact H1|].
  apply (extends_tables (setParams re (addParamsIf (Params re) qp))).
Qed.

Lemma jsonParseFromClause_body_extends n re :
  returns (jsonParseFromClause_body validateSelect parseFromClause parseExpr n re)
          (extends re).
Proof.
  unfold jsonParseFromClause_body.
  destruct n as [kvs|]; [|apply returns_ret, extends_refl].
  destruct (nodeType (Some kvs)) as [kind body].
  destruct (kind =? "RangeVar"); [apply returns_ret, extends_tables|].
  destruct (kind =? "JoinExpr").
  { eapply returns_bind; [apply HparseFromClause|]. intros re1 H1.
    eapply returns_bind; [apply (then_parseFromClause _ re), H1|]. intros re2 H2.
    destruct (asNode (index body "quals"));
      [apply then_parseExpr, H2|apply returns_ret, H2]. }
  destruct (kind =? "RangeSubselect"); [|apply returns_ret, extends_refl].
  cbv zeta.
  pose proof (extends_postponed re) as Hp.
  destruct (getBoolField body "lateral").
  - eapply returns_bind; [apply returns_any|]. intros [qp targetCols] _.
    apply registerSubselect_extends, Hp.
  - eapply returns_bind; [apply returns_any|]. intros [qp targetCols] _.
    apply registerSubselect_extends, Hp.
Qed.

Lemma jsonParseExpr_body_extends n re :
  returns (jsonParseExpr_body validateSelect parseFromClause parseExpr n re) (extends re).
Proof.
  unfold jsonParseExpr_body.
  destruct n as [kvs|]; [|apply returns_ret, extends_refl].
  destruct (nodeType (Some kvs)) as [kind body].
  pose proof (extends_refl re) as Hre.
  repeat match goal with
         | |- returns (if ?b then _ else _) _ => destruct b
         end.
  - eapply returns_bind; [apply HparseExpr|]. intros re1 H1. apply then_parseExpr, H1.
  - apply parseFirst_extends, Hre.
  - apply HparseExpr.
  - apply returns_ret, extends_columns.
  - apply returns_ret, extends_params. intros n Hn. apply AddQueryParam_numbers. now right.
  - eapply returns_bind; [apply (parseFirst_extends _ re), Hre|]. intros re1 H1.
    destruct (asNode (index body "over")); [|apply returns_ret, H1].
    cbv zeta.
    eapply returns_bind; [apply (parseFirst_extends _ re), H1|]. intros re2 H2.
    apply parseFirst_extends, H2.
  - apply HparseExpr.
  - apply returns_forM; [exact Hre|]. intros acc x Hacc. apply then_parseExpr, Hacc.
  - cbv zeta. eapply returns_bind; [apply returns_any|]. intros [qp cols] _.
    apply returns_ret, extends_addParamsIf.
  - apply parseFirst_extends, Hre.
  - eapply returns_bind; [apply (parseFirst_extends _ re), Hre|]. intros re1 H1.
    apply parseFirst_extends, H1.
  - apply HparseExpr.
  - apply HparseFromClause.
  - apply returns_ret, extends_tables.
  - apply HparseFromClause.
  - apply returns_ret, extends_refl.
Qed.

End BodiesExtend.

Lemma walker_extends (fuel : nat) :
  (forall n re, returns (jsonParseFromClause fuel n re) (extends re)) /\
  (forall n re, returns (jsonParseExpr fuel n re) (extends re)).
Proof.
  induction fuel as [|fuel [Hfrom Hexpr]].
  - split; intros n re ctx; exact I.
  - split; intros n re.
    + now apply jsonParseFromClause_body_extends.
    + now apply jsonParseExpr_body_extends.
Qed.

(** X23.  [jsonParseExpr] and [jsonParseFromClause] only add to the
    [ParseResult] they are given: when they return nil, the columns and
    the tables that [re] held are a prefix of the ones it holds
    afterwards, every parameter number it held is still there, and its
    postponed nodes are not reset. *)
Theorem walkers_only_add (fuel : nat) (n : jsonNode) (re : ParseResult)
  (ctx : VetContext) :
  match fst (jsonParseExpr fuel n re ctx) with
  | Ok re' => extends re re'
  | _ => True
  end /\
  match fst (jsonParseFromClause fuel n re ctx) with
  | Ok re' => extends re re'
  | _ => True
  end.
Proof. split; apply walker_extends. Qed.

(** ** The ignore ranges of the analyzer *)

Lemma existsb_encloses (nodes : list astNode) (pos : Z) :
  existsb (fun n => (pos <? Node_End n)%Z && (pos >? Node_Pos n)%Z) nodes = true <->
  exists n, In n nodes /\ encloses pos n.
Proof.
  rewrite existsb_exists. unfold encloses.
  split; intros (n & Hin & H); exists n; (split; [exact Hin|]).
  - apply andb_true_iff in H as [H1 H2]. apply Z.ltb_lt in H1.
    rewrite Z.gtb_ltb in H2. apply Z.ltb_lt in H2. lia.
  - apply andb_true_iff. rewrite Z.gtb_ltb, !Z.ltb_lt. lia.
Qed.

Lemma last_default (l : list astNode) (d d' : astNode) :
  l <> [] -> List.last l d = List.last l d'.
Proof.
  induction l as [|x l IH]; [congruence|]. intros _.
  destruct l as [|y l]; [reflexivity|].
  change (List.last (y :: l) d = List.last (y :: l) d'). now apply IH.
Qed.

(** X24.  For ignore nodes sorted by start position,
    [shouldIgnoreNodeSimple] answers true exactly when some node
    strictly encloses the position and the position is not beyond the
    end of the last node: a position inside an enclosing node but after
    the end of the node that starts last is not ignored. *)
Theorem ignore_range (ignoreNodes : list astNode) (pos : Z) (n0 : astNode) :
  sortedByPos ignoreNodes ->
  (shouldIgnoreNodeSimple ignoreNodes pos = true <->
   (exists n, In n ignoreNodes /\ encloses pos n) /\
   (pos <= Node_End (List.last ignoreNodes n0))%Z).
Proof.
  intros Hs.
  destruct ignoreNodes as [|n1 rest]; cbn [shouldIgnoreNodeSimple].
  - split; [discriminate|]. intros [(n & [] & _) _].
  - rewrite (last_default (n1 :: rest) n0 n1) by discriminate.
    destruct (Z.ltb_spec pos (Node_Pos n1)) as [Hlt|Hge]; cbn [orb].
    + split; [discriminate|]. intros [(n & Hin & Hn) _]. exfalso.
      unfold encloses in Hn. apply StronglySorted_inv in Hs as [_ Hall].
      destruct Hin as [<-|Hin]; [lia|].
      rewrite List.Forall_forall in Hall. specialize (Hall _ Hin). lia.
    + rewrite Z.gtb_ltb.
      destruct (Z.ltb_spec (Node_End (List.last (n1 :: rest) n1)) pos) as [Hgt|Hle].
      * split; [discriminate|]. intros [_ H]. lia.
      * rewrite existsb_encloses. tauto.
Qed.

Lemma ignore_range_witness :
  shouldIgnoreNodeSimple [Sample.outerRange; Sample.innerRange] 50 = true <->
  (exists n, In n [Sample.outerRange; Sample.innerRange] /\ encloses 50 n) /\
  (50 <= Node_End (List.last [Sample.outerRange; Sample.innerRange] Sample.outerRange))%Z.
Proof.
  apply ignore_range.
  unfold sortedByPos. repeat constructor; simpl; lia.
Defined.

(** ** The schema loader *)

Lemma loadStmt_other (tables : gmap string Table) (stmt : option pgNode) (name : string) :
  defined stmt <> Some name -> loadStmt tables stmt !! name = tables !! name.
Proof.
  destruct stmt as [[]|]; simpl; intros H; try reflexivity;
    apply lookup_insert_ne; congruence.
Qed.

Lemma load_later (post : list (option pgNode)) (name : string) :
  (forall s, In s post -> defined s <> Some name) ->
  forall tables, fold_left loadStmt post tables !! name = tables !! name.
Proof.
  induction post as [|s post IH]; intros Hpost tables; simpl; [reflexivity|].
  rewrite IH by (intros s' Hs'; apply Hpost; now right).
  apply loadStmt_other, Hpost. now left.
Qed.

Lemma load_last (pre post : list (option pgNode)) (stmt : option pgNode) (name : string) :
  (forall s, In s post -> defined s <> Some name) ->
  parsePostgresSchema (pre ++ stmt :: post) !! name
  = loadStmt (parsePostgresSchema pre) stmt !! name.
Proof.
  intros Hpost. unfold parsePostgresSchema. rewrite fold_left_app. simpl.
  now apply load_later.
Qed.

Lemma viewColumns_lookup (columns : list string) (c : string) :
  is_Some (viewColumns columns !! c) <-> In c columns.
Proof.
  unfold viewColumns.
  assert (H : forall acc : gmap string Column,
             is_Some (fold_left
                        (fun cols colName =>
                           <[colName := {| Column_Name := colName; Column_Type := "" |}]> cols)
                        columns acc !! c)
             <-> In c columns \/ is_Some (acc !! c)).
  { induction columns as [|c0 columns IH]; intros acc; simpl; [tauto|].
    rewrite IH, lookup_insert_is_Some.
    destruct (decide (c0 = c)); tauto. }
  rewrite H, lookup_empty. split; [intros [?|[? ?]]; [assumption|discriminate]|auto].
Qed.

Lemma tableColumns_lookup (tableElts : list pgNode) (c : string) :
  is_Some (tableColumns tableElts !! c) <-> In c (columnNames tableElts).
Proof.
  unfold tableColumns.
  assert (H : forall acc : gmap string Column,
             is_Some (fold_left
                        (fun columns colElem =>
                           match colElem with
                           | PgColumnDef colName names =>
                               <[colName := {| Column_Name := colName;
                                               Column_Type := String.concat "." (typeParts names) |}]>
                                 columns
                           | _ => columns
                           end)
                        tableElts acc !! c)
             <-> In c (columnNames tableElts) \/ is_Some (acc !! c)).
  { induction tableElts as [|el tableElts IH]; intros acc; simpl; [tauto|].
    rewrite IH. destruct el; simpl; try tauto.
    rewrite lookup_insert_is_Some.
    destruct (decide (colname = c)); tauto. }
  rewrite H, lookup_empty. split; [intros [?|[? ?]]; [assumption|discriminate]|auto].
Qed.

Lemma hasColumn_is_Some (t : Table) (c : string) :
  hasColumn t c = true <-> is_Some (Table_Columns t !! c).
Proof.
  unfold hasColumn. destruct (Table_Columns t !! c); split; intros H;
    try reflexivity; try discriminate; eauto. destruct H; discriminate.
Qed.

Lemma loadStmt_is_Some (tables : gmap string Table) (stmt : option pgNode) (name : string) :
  is_Some (loadStmt tables stmt !! name) <->
  defined stmt = Some name \/ is_Some (tables !! name).
Proof.
  destruct (decide (defined stmt = Some name)) as [Hd|Hd].
  - split; [auto|intros _].
    destruct stmt as [[]|]; simpl in *; try discriminate; injection Hd as ->;
      rewrite lookup_insert_eq; eauto.
  - rewrite loadStmt_other by assumption. tauto.
Qed.

Lemma loadStmt_name (tables : gmap string Table) (stmt : option pgNode) (name : string) :
  (forall t, tables !! name = Some t -> Table_Name t = name) ->
  forall t, loadStmt tables stmt !! name = Some t -> Table_Name t = name.
Proof.
  intros Hacc t.
  destruct (decide (defined stmt = Some name)) as [Hd|Hd].
  - destruct stmt as [[]|]; simpl in *; try discriminate; injection Hd as ->;
      rewrite lookup_insert_eq; now intros [= <-].
  - rewrite loadStmt_other by assumption. apply Hacc.
Qed.

(** X25.  The tables that [parsePostgresSchema] returns are exactly the
    names that a CREATE TABLE or a CREATE VIEW of the file defines, and
    every table is stored under its own name. *)
Theorem loaded_names (stmts : list (option pgNode)) (name : string) :
  (is_Some (parsePostgresSchema stmts !! name) <-> In (Some name) (map defined stmts)) /\
  (forall t, parsePostgresSchema stmts !! name = Some t -> Table_Name t = name).
Proof.
  unfold parsePostgresSchema.
  assert (H : forall acc : gmap string Table,
             (is_Some (fold_left loadStmt stmts acc !! name)
              <-> In (Some name) (map defined stmts) \/ is_Some (acc !! name)) /\
             ((forall t, acc !! name = Some t -> Table_Name t = name) ->
              forall t, fold_left loadStmt stmts acc !! name = Some t -> Table_Name t = name)).
  { induction stmts as [|s stmts IH]; intros acc; simpl; [split; [tauto|auto]|].
    destruct (IH (loadStmt acc s)) as [IH1 IH2]. split.
    - rewrite IH1, loadStmt_is_Some. tauto.
    - intros Hacc. apply IH2. now apply loadStmt_name. }
  destruct (H ∅) as [H1 H2]. split.
  - rewrite H1, lookup_empty. split; [intros [?|[? ?]]; [assumption|discriminate]|auto].
  - apply H2. intros t Ht. now rewrite lookup_empty in Ht.
Qed.

(** X26.  A view that no later statement of the file redefines is
    loaded read-only, with the columns that
    [extractColumnsFromViewQuery] finds in its query. *)
Theorem loaded_view (pre post : list (option pgNode)) (name : string)
  (query : option pgNode) :
  (forall s, In s post -> defined s <> Some name) ->
  exists t,
    parsePostgresSchema (pre ++ Some (PgViewStmt name query) :: post) !! name = Some t /\
    Table_ReadOnly t = true /\
    forall c, hasColumn t c = true <-> In c (extractColumnsFromViewQuery query).
Proof.
  intros Hpost. rewrite (load_last pre post _ name Hpost). simpl.
  rewrite lookup_insert_eq. eexists. split; [reflexivity|]. split; [reflexivity|].
  intros c. rewrite hasColumn_is_Some. simpl. apply viewColumns_lookup.
Qed.

Lemma loaded_view_witness :
  exists t,
    parsePostgresSchema Sample.schemaFile !! "active_users" = Some t /\
    Table_ReadOnly t = true /\
    forall c, hasColumn t c = true <-> In c (extractColumnsFromViewQuery Sample.activeQuery).
Proof.
  refine (loaded_view [Sample.createUsers] [] "active_users" Sample.activeQuery _).
  intros s [].
Defined.

(** X27.  A table that no later statement of the file redefines is
    loaded writable, with one column per column definition of its
    CREATE TABLE. *)
Theorem loaded_table (pre post : list (option pgNode)) (name : string)
  (tableElts : list pgNode) :
  (forall s, In s post -> defined s <> Some name) ->
  exists t,
    parsePostgresSchema (pre ++ Some (PgCreateStmt name tableElts) :: post) !! name = Some t /\
    Table_ReadOnly t = false /\
    forall c, hasColumn t c = true <-> In c (columnNames tableElts).
Proof.
  intros Hpost. rewrite (load_last pre post _ name Hpost). simpl.
  rewrite lookup_insert_eq. eexists. split; [reflexivity|]. split; [reflexivity|].
  intros c. rewrite hasColumn_is_Some. simpl. apply tableColumns_lookup.
Qed.

Lemma loaded_table_witness :
  exists t,
    parsePostgresSchema Sample.schemaFile !! "users" = Some t /\
    Table_ReadOnly t = false /\
    forall c, hasColumn t c = true <-> In c ["id"; "name"].
Proof.
  refine (loaded_table [] [Sample.createActiveUsers] "users"
            [PgColumnDef "id" [PgString "pg_catalog"; PgString "int4"];
             PgColumnDef "name" [PgString "text"]] _).
  intros s [<-|[]]. simpl. discriminate.
Defined.

Lemma parseWith_absent (fuel : nat) (stmt : jsonNode) (keys : list string)
  (ctx : VetContext) :
  jNode stmt keys = None -> parseWith (jsonParseCTE fuel) stmt keys ctx = (Ok tt, ctx).
Proof. intros H. unfold parseWith. now rewrite H. Qed.

(** X28.  With the schema of a file in which a view is the last
    definition of its name, an INSERT, an UPDATE or a DELETE without
    WITH clause whose target is that view fails with "read-only table",
    and the context is left as it was. *)
Theorem loaded_view_not_writable (fuel : nat) (pre post : list (option pgNode))
  (query : option pgNode) (stmt : jsonNode) :
  (forall s, In s post -> defined s <> Some (targetTable stmt)) ->
  jNode stmt ["with_clause"; "withClause"] = None ->
  jsonValidateInsert (S fuel) stmt
    (schemaContext (pre ++ Some (PgViewStmt (targetTable stmt) query) :: post))
  = (Err (ReadOnlyTable (targetTable stmt)),
     schemaContext (pre ++ Some (PgViewStmt (targetTable stmt) query) :: post)) /\
  jsonValidateUpdate (S fuel) stmt
    (schemaContext (pre ++ Some (PgViewStmt (targetTable stmt) query) :: post))
  = (Err (ReadOnlyTable (targetTable stmt)),
     schemaContext (pre ++ Some (PgViewStmt (targetTable stmt) query) :: post)) /\
  jsonValidateDelete (S fuel) stmt
    (schemaContext (pre ++ Some (PgViewStmt (targetTable stmt) query) :: post))
  = (Err (ReadOnlyTable (targetTable stmt)),
     schemaContext (pre ++ Some (PgViewStmt (targetTable stmt) query) :: post)).
Proof.
  intros Hpost Hwith.
  set (ctx := schemaContext (pre ++ Some (PgViewStmt (targetTable stmt) query) :: post)).
  assert (Hv : validateTable ctx (targetTable stmt) true
               = Some (ReadOnlyTable (targetTable stmt))).
  { unfold validateTable, ctx, schemaContext, NewContext. cbn [ctxSchema Tables].
    rewrite (load_last pre post _ (targetTable stmt) Hpost). cbn [loadStmt].
    rewrite lookup_insert_eq. reflexivity. }
  pose proof (parseWith_absent fuel stmt _ ctx Hwith) as Hw.
  repeat split; cbn [jsonValidateInsert jsonValidateUpdate jsonValidateDelete].
  - unfold jsonValidateInsert_body. rewrite (bind_ok _ _ _ _ _ Hw).
    apply bind_err. now apply validateTableM_err.
  - unfold jsonValidateUpdate_body. rewrite (bind_ok _ _ _ _ _ Hw).
    apply bind_err. now apply validateTableM_err.
  - unfold jsonValidateDelete_body. rewrite (bind_ok _ _ _ _ _ Hw).
    apply bind_err. now apply validateTableM_err.
Qed.

Lemma loaded_view_not_writable_witness :
  jsonValidateUpdate 3 (Some Ex.updateActiveUsers) (schemaContext Sample.schemaFile)
  = (Err (ReadOnlyTable "active_users"), schemaContext Sample.schemaFile).
Proof.
  refine (proj1 (proj2
            (loaded_view_not_writable 2 [Sample.createUsers] [] Sample.activeQuery
               (Some Ex.updateActiveUsers) _ _))).
  - intros s [].
  - reflexivity.
Defined.
